(** * discord-message-deleter: the search-then-delete loop of [src/index.ts]

    A shallow embedding of the class [DiscordMessageDeleter] and of the
    script entry point [run].  The program is a single sequential task, so
    it is embedded by explicit state passing:

    - the mutable object [this] is the record [DiscordMessageDeleter.t];
    - the wall clock read by [Date.now()] and everything the program does to
      the outside world (console and log files, timers, HTTP requests) live
      in [State]: a clock and a chronological list of [Event]s;
    - the network is a [list Exchange]: the replies the remote API gives to
      the successive [fetch] calls, in order.  A call that finds the list
      empty is still waiting for its reply: the promise has not settled,
      which is the completion [Awaiting].

    JavaScript numbers hold the counters and the millisecond durations; they
    are integers here ([Z]), exact below 2^53.  Writing to the console and
    to the log files is taken not to fail, and a reply to carry the JSON body
    of the wire contract, in which an entry of [attachments] (typed [any])
    may be [null]; the three log files are told apart by the kind of event.
    A timer lasts on the clock of the model exactly the delay that Node
    gives it ([setTimeout]), and a round trip takes a time that is not
    negative. *)

From Stdlib Require Import ZArith String List Bool Lia.
Import ListNotations.
Local Open Scope string_scope.
Local Open Scope list_scope.
Local Open Scope Z_scope.

(** ** JavaScript values *)

(** A value of type [string | undefined]: [process.env.X], an optional field. *)
Definition optional := option string.

(** Truthiness of a [string | undefined]: [undefined] and [""] are falsy. *)
Definition truthy (v : optional) : bool :=
  match v with
  | Some s => negb (String.eqb s EmptyString)
  | None => false
  end.

(** [a || b] where [b] is a string. *)
Definition js_or (a : optional) (b : string) : string :=
  match a with
  | Some s => if String.eqb s EmptyString then b else s
  | None => b
  end.

(** [a === b] for a string [a] and a [string | undefined] [b]. *)
Definition strict_eq (a : string) (b : optional) : bool :=
  match b with
  | Some s => String.eqb a s
  | None => false
  end.

(** ** The data model (interfaces of [index.ts]) *)

Module MessageAuthor.
Record t := mk { id : string; username : optional }.
End MessageAuthor.

Module Attachment.
Record t := mk { url : optional; proxy_url : optional }.
End Attachment.

Module Message.
Record t := mk {
  id : string;
  author : MessageAuthor.t;
  type : Z;
  hit : bool;
  content : optional;
  timestamp : optional;
  attachments : option (list (option Attachment.t))   (* [any[]]: an entry may be [null] *)
}.
End Message.

Module SearchResponse.
Record t := mk {
  total_results : Z;
  messages : list (list Message.t)
}.
End SearchResponse.

(** ** The remote API as the program sees it *)

(** What [fetch] is called with.  The URL is a template literal over the
    fields kept here; the header is the [Authorization] value. *)
Inductive Request :=
| SearchRequest (channelId author_id : optional) (max_id : optional) (authorization : optional)
| DeleteRequest (channelId : optional) (messageId : string) (authorization : optional).

(** The JSON body of a reply, [await response.json()]: [retry_after] is read
    on 202 and 429, the search result on success. *)
Record Body := mkBody {
  retry_after : Z;
  json : SearchResponse.t
}.

Inductive Reply :=
| Response (status : Z) (body : Body)
| Rejected (reason : string).   (* [fetch] rejects: transport failure *)

(** One round trip: how long it took and what came back. *)
Record Exchange := mkExchange {
  latency : N;
  reply : Reply
}.

(** [response.ok] *)
Definition ok (status : Z) : bool := (200 <=? status) && (status <=? 299).

(** The [Error] values the program throws or receives. *)
Inductive Error :=
| ApiStatus (status : Z)                        (* `API responded with status ${status}` *)
| DeleteFailed (messageId : string) (status : Z) (* `Failed to delete message ${id}: ${status}` *)
| FetchError (reason : string)
| TypeError.   (* `TypeError: Cannot read properties of null (reading 'url')` *)

(** ** Output *)

(** [msToHMS]: hours, minutes, seconds.  [%] is the truncated remainder,
    [Math.floor] of a quotient is the floored division. *)
Definition msToHMS (ms : Z) : Z * Z * Z :=
  (ms / 3600000, Z.rem ms 3600000 / 60000, Z.rem ms 60000 / 1000).

(** The lines given to [writeToLog]; the text is a template literal over
    the fields. *)
Inductive LogLine :=
| SessionStart
| SessionDateTime (t : Z)
| SessionChannel (channelId : optional)
| SessionAuthor (authorId : optional)
| SessionBefore (beforeMessageId : optional)
| SessionRule
| Starting (startTime : Z)
| NotIndexed (retry : Z)
| RateLimitReached (retry : Z)
| RateLimitOnDeletion (retry : Z)
| Deleted (messageId : string)
| TotalFound (grandTotal : Z)
| Progress (nth grandTotal : Z) (messageId : string)
| ErrorDeleting (messageId : string) (e : Error)
| ErrorProcessing (e : Error)
| Summary (endTime : Z) (totalTime throttledTime : Z * Z * Z)
          (throttledCount delCount failCount : Z)
| Interruption.

(** One record of the backup file, as [saveMessageContent] lays it out. *)
Record BackupEntry := mkEntry {
  entry_id : string;
  entry_date : optional;          (* [None] is 'Unknown date' *)
  entry_author : string;
  entry_content : string;
  entry_attachments : list string
}.

Inductive Event :=
| Log (isError : bool) (line : LogLine)   (* console, then the error log or the operation log *)
| BackupHeader (channelId authorId : optional)
| Backup (entry : BackupEntry)            (* appended to the backup file *)
| Wait (ms : Z)                           (* [setTimeout(resolve, ms)] *)
| Fetch (t : Z) (req : Request)           (* [fetch] called at time [t] *)
| Respond (t : Z) (r : Reply)             (* its promise settled at time [t] *)
| FatalError (e : Error).                 (* [console.error('Fatal error:', e)] *)

(** ** The object *)

Module Stats.
Record t := mk {
  delCount : Z;
  failCount : Z;
  throttledCount : Z;
  throttledTotalTime : Z;
  grandTotal : Z;
  startTime : Z
}.
End Stats.

Module DiscordMessageDeleter.
Record t := mk {
  authToken : optional;
  authorId : optional;
  channelId : optional;
  beforeMessageId : optional;
  lastApiCall : Z;
  stats : Stats.t
}.
End DiscordMessageDeleter.

Definition delayDelete : Z := 1000.
Definition delaySearch : Z := 1500.
Definition rateLimit : Z := 1000.

Record State := mkState {
  this : DiscordMessageDeleter.t;
  now : Z;
  out : list Event
}.

(** How a call that is not [async] ended. *)
Inductive Outcome (A : Type) :=
| Done (a : A)
| Raised (e : Error).
Arguments Done {A} a.
Arguments Raised {A} e.

(** How far an [async] call got. *)
Inductive Completion (A : Type) :=
| Returned (a : A)
| Thrown (e : Error)
| Awaiting.
Arguments Returned {A} a.
Arguments Thrown {A} e.
Arguments Awaiting {A}.

Definition Async (A : Type) : Type := Completion A * State * list Exchange.

(** ** State updates *)

Definition emit (e : Event) (s : State) : State :=
  mkState (this s) (now s) (out s ++ [e]).

Definition elapse (ms : Z) (s : State) : State :=
  mkState (this s) (now s + ms) (out s).

Definition update (f : DiscordMessageDeleter.t -> DiscordMessageDeleter.t) (s : State) : State :=
  mkState (f (this s)) (now s) (out s).

Definition with_stats (f : Stats.t -> Stats.t) (d : DiscordMessageDeleter.t) : DiscordMessageDeleter.t :=
  DiscordMessageDeleter.mk
    (DiscordMessageDeleter.authToken d) (DiscordMessageDeleter.authorId d)
    (DiscordMessageDeleter.channelId d) (DiscordMessageDeleter.beforeMessageId d)
    (DiscordMessageDeleter.lastApiCall d) (f (DiscordMessageDeleter.stats d)).

Definition set_lastApiCall (v : Z) (d : DiscordMessageDeleter.t) : DiscordMessageDeleter.t :=
  DiscordMessageDeleter.mk
    (DiscordMessageDeleter.authToken d) (DiscordMessageDeleter.authorId d)
    (DiscordMessageDeleter.channelId d) (DiscordMessageDeleter.beforeMessageId d)
    v (DiscordMessageDeleter.stats d).

Definition set_beforeMessageId (v : string) (d : DiscordMessageDeleter.t) : DiscordMessageDeleter.t :=
  DiscordMessageDeleter.mk
    (DiscordMessageDeleter.authToken d) (DiscordMessageDeleter.authorId d)
    (DiscordMessageDeleter.channelId d) (Some v)
    (DiscordMessageDeleter.lastApiCall d) (DiscordMessageDeleter.stats d).

(** [this.stats.delCount++] *)
Definition incr_delCount (st : Stats.t) : Stats.t :=
  Stats.mk (Stats.delCount st + 1) (Stats.failCount st) (Stats.throttledCount st)
           (Stats.throttledTotalTime st) (Stats.grandTotal st) (Stats.startTime st).

(** [this.stats.failCount++] *)
Definition incr_failCount (st : Stats.t) : Stats.t :=
  Stats.mk (Stats.delCount st) (Stats.failCount st + 1) (Stats.throttledCount st)
           (Stats.throttledTotalTime st) (Stats.grandTotal st) (Stats.startTime st).

(** [this.stats.throttledCount++; this.stats.throttledTotalTime += retry] *)
Definition throttled (retry : Z) (st : Stats.t) : Stats.t :=
  Stats.mk (Stats.delCount st) (Stats.failCount st) (Stats.throttledCount st + 1)
           (Stats.throttledTotalTime st + retry) (Stats.grandTotal st) (Stats.startTime st).

(** [this.stats.grandTotal = v] *)
Definition set_grandTotal (v : Z) (st : Stats.t) : Stats.t :=
  Stats.mk (Stats.delCount st) (Stats.failCount st) (Stats.throttledCount st)
           (Stats.throttledTotalTime st) v (Stats.startTime st).

Definition stats (s : State) : Stats.t := DiscordMessageDeleter.stats (this s).

(** ** The methods of [DiscordMessageDeleter] *)

Definition writeToLog (message : LogLine) (isError : bool) (s : State) : State :=
  emit (Log isError message) s.

(** The line of an attachment: [attachment.url || attachment.proxy_url ||
    '[URL not available]'].  Reading [url] of [null] throws. *)
Definition attachmentLine (attachment : option Attachment.t) : option string :=
  match attachment with
  | Some a =>
      Some (js_or (Attachment.url a) (js_or (Attachment.proxy_url a) "[URL not available]"))
  | None => None
  end.

(** [message.attachments.forEach(...)]: the lines in order, unless an entry
    throws. *)
Fixpoint attachmentLines (l : list (option Attachment.t)) : option (list string) :=
  match l with
  | [] => Some []
  | attachment :: l =>
      match attachmentLine attachment with
      | Some line =>
          match attachmentLines l with
          | Some lines => Some (line :: lines)
          | None => None
          end
      | None => None
      end
  end.

(** The record [saveMessageContent] builds for a message, if building it
    does not throw. *)
Definition backupEntry (message : Message.t) : option BackupEntry :=
  match (match Message.attachments message with
         | Some l => attachmentLines l
         | None => Some []
         end) with
  | Some lines =>
      Some (mkEntry
              (Message.id message)
              (if truthy (Message.timestamp message) then Message.timestamp message else None)
              (js_or (MessageAuthor.username (Message.author message))
                     (MessageAuthor.id (Message.author message)))
              (js_or (Message.content message) "[no content]")
              lines)
  | None => None
  end.

(** The record is built first and appended to the backup file last: a
    [TypeError] on the way leaves the file as it was. *)
Definition saveMessageContent (message : Message.t) (s : State) : Outcome State :=
  match backupEntry message with
  | Some entry => Done (emit (Backup entry) s)
  | None => Raised TypeError
  end.

(** The longest delay of a timer of Node: 2^31 - 1 ms. *)
Definition TIMEOUT_MAX : Z := 2147483647.

(** The delay [setTimeout(callback, ms)] gives the timer: [ms] if it is
    from 1 to [TIMEOUT_MAX], and 1 otherwise. *)
Definition setTimeout (ms : Z) : Z :=
  if (1 <=? ms) && (ms <=? TIMEOUT_MAX) then ms else 1.

(** [new Promise(resolve => setTimeout(resolve, ms))], awaited. *)
Definition wait (ms : Z) (s : State) : State :=
  elapse (setTimeout ms) (emit (Wait ms) s).

Definition enforceRateLimit (s : State) : State :=
  let timeSinceLastCall := now s - DiscordMessageDeleter.lastApiCall (this s) in
  let s :=
    if timeSinceLastCall <? rateLimit
    then wait (rateLimit - timeSinceLastCall) s
    else s in
  update (set_lastApiCall (now s)) s.

(** The promise of a [fetch] settles: time passes, the reply is there. *)
Definition settle (x : Exchange) (s : State) : State :=
  let s := elapse (Z.of_N (latency x)) s in
  emit (Respond (now s) (reply x)) s.

(** The request [fetchMessages] builds: [max_id] only for a truthy cursor. *)
Definition searchRequest (d : DiscordMessageDeleter.t) : Request :=
  SearchRequest
    (DiscordMessageDeleter.channelId d)
    (DiscordMessageDeleter.authorId d)
    (if truthy (DiscordMessageDeleter.beforeMessageId d)
     then DiscordMessageDeleter.beforeMessageId d else None)
    (DiscordMessageDeleter.authToken d).

Definition deleteRequest (d : DiscordMessageDeleter.t) (messageId : string) : Request :=
  DeleteRequest (DiscordMessageDeleter.channelId d) messageId (DiscordMessageDeleter.authToken d).

Fixpoint fetchMessages (net : list Exchange) (s : State) {struct net} : Async SearchResponse.t :=
  let s := enforceRateLimit s in
  let s := emit (Fetch (now s) (searchRequest (this s))) s in
  match net with
  | [] => (Awaiting, s, [])
  | x :: net =>
      let s := settle x s in
      match reply x with
      | Rejected reason => (Thrown (FetchError reason), s, net)
      | Response status data =>
          if status =? 202 then
            let s := writeToLog (NotIndexed (retry_after data)) false s in
            let s := wait (retry_after data) s in
            fetchMessages net s
          else if status =? 429 then
            let s := update (with_stats (throttled (retry_after data))) s in
            let s := writeToLog (RateLimitReached (retry_after data)) false s in
            let s := wait (retry_after data) s in
            fetchMessages net s
          else if negb (ok status) then
            (Thrown (ApiStatus status), s, net)
          else
            (Returned (json data), s, net)
      end
  end.

Fixpoint deleteMessage (messageId : string) (net : list Exchange) (s : State) {struct net} : Async unit :=
  let s := enforceRateLimit s in
  let s := emit (Fetch (now s) (deleteRequest (this s) messageId)) s in
  match net with
  | [] => (Awaiting, s, [])
  | x :: net =>
      let s := settle x s in
      match reply x with
      | Rejected reason => (Thrown (FetchError reason), s, net)
      | Response status data =>
          if status =? 429 then
            let s := update (with_stats (throttled (retry_after data))) s in
            let s := writeToLog (RateLimitOnDeletion (retry_after data)) false s in
            let s := wait (retry_after data) s in
            deleteMessage messageId net s
          else if negb (ok status) then
            (Thrown (DeleteFailed messageId status), s, net)
          else
            let s := update (set_beforeMessageId messageId) s in
            let s := writeToLog (Deleted messageId) false s in
            (Returned tt, s, net)
      end
  end.

(** ** The deletion loop *)

(** The test of the inner loop: not a system message (type 3), written by
    the configured author, and a hit of the search. *)
Definition selected (d : DiscordMessageDeleter.t) (message : Message.t) : bool :=
  negb (Message.type message =? 3)
  && (strict_eq (MessageAuthor.id (Message.author message)) (DiscordMessageDeleter.authorId d)
      && Message.hit message).

(** The [try] block of the inner loop: the backup, the delete call, the
    count and the pause; what throws in it leaves it at once. *)
Definition tryDelete (message : Message.t) (net : list Exchange) (s : State) : Async unit :=
  match saveMessageContent message s with
  | Raised error => (Thrown error, s, net)
  | Done s =>
      match deleteMessage (Message.id message) net s with
      | (Returned _, s, net) =>
          let s := update (with_stats incr_delCount) s in
          let s := wait delayDelete s in
          (Returned tt, s, net)
      | r => r
      end
  end.

(** The body of [for (const message of messageGroup)]. *)
Definition processMessage (message : Message.t) (net : list Exchange) (s : State) : Async unit :=
  if Message.type message =? 3 then (Returned tt, s, net)
  else if strict_eq (MessageAuthor.id (Message.author message)) (DiscordMessageDeleter.authorId (this s))
          && Message.hit message
  then
    let s := writeToLog (Progress (Stats.delCount (stats s) + 1) (Stats.grandTotal (stats s))
                                  (Message.id message)) false s in
    match tryDelete message net s with
    | (Thrown error, s, net) =>      (* [catch (error)] *)
        let s := writeToLog (ErrorDeleting (Message.id message) error) true s in
        let s := update (with_stats incr_failCount) s in
        (Returned tt, s, net)
    | r => r
    end
  else (Returned tt, s, net).

Fixpoint processGroup (messageGroup : list Message.t) (net : list Exchange) (s : State) : Async unit :=
  match messageGroup with
  | [] => (Returned tt, s, net)
  | message :: messageGroup =>
      match processMessage message net s with
      | (Returned _, s, net) => processGroup messageGroup net s
      | r => r
      end
  end.

(** [for (const messageGroup of result.messages)] *)
Fixpoint processPage (messages : list (list Message.t)) (net : list Exchange) (s : State) : Async unit :=
  match messages with
  | [] => (Returned tt, s, net)
  | messageGroup :: messages =>
      match processGroup messageGroup net s with
      | (Returned _, s, net) => processPage messages net s
      | r => r
      end
  end.

Inductive Control := Break | Continue.

(** [if (!this.stats.grandTotal) { this.stats.grandTotal = result.total_results; ... }] *)
Definition latch (result : SearchResponse.t) (s : State) : State :=
  if Stats.grandTotal (stats s) =? 0 then
    let s := update (with_stats (set_grandTotal (SearchResponse.total_results result))) s in
    writeToLog (TotalFound (Stats.grandTotal (stats s))) false s
  else s.

(** What one search result leads to: the body of [while (true)] after
    [fetchMessages] has returned. *)
Definition processResult (result : SearchResponse.t) (net : list Exchange) (s : State) : Async Control :=
  let s := latch result s in
  if SearchResponse.total_results result =? 0 then (Returned Break, s, net)
  else
    match processPage (SearchResponse.messages result) net s with
    | (Returned _, s, net) =>
        let s := wait delaySearch s in
        if Stats.delCount (stats s) >=? Stats.grandTotal (stats s)
        then (Returned Break, s, net)
        else (Returned Continue, s, net)
    | (Thrown e, s, net) => (Thrown e, s, net)
    | (Awaiting, s, net) => (Awaiting, s, net)
    end.

(** One turn of [while (true)]. *)
Definition loopBody (net : list Exchange) (s : State) : Async Control :=
  match fetchMessages net s with
  | (Returned result, s, net) => processResult result net s
  | (Thrown e, s, net) => (Thrown e, s, net)
  | (Awaiting, s, net) => (Awaiting, s, net)
  end.

(** [while (true)], by recursion on a bound on the number of turns; [None]
    when the bound is reached.  Every turn reads at least one reply, so
    one more than the number of replies is enough ([whileTrue_total]). *)
Fixpoint whileTrue (turns : nat) (net : list Exchange) (s : State) : option (Async unit) :=
  match turns with
  | O => None
  | S turns =>
      match loopBody net s with
      | (Returned Continue, s, net) => whileTrue turns net s
      | (Returned Break, s, net) => Some (Returned tt, s, net)
      | (Thrown e, s, net) => Some (Thrown e, s, net)
      | (Awaiting, s, net) => Some (Awaiting, s, net)
      end
  end.

Definition loop (net : list Exchange) (s : State) : Async unit :=
  match whileTrue (S (List.length net)) net s with
  | Some r => r
  | None => (Awaiting, s, net)
  end.

Definition printSummary (s : State) : State :=
  let endTime := now s in
  let totalTime := endTime - Stats.startTime (stats s) in
  writeToLog
    (Summary endTime (msToHMS totalTime) (msToHMS (Stats.throttledTotalTime (stats s)))
             (Stats.throttledCount (stats s)) (Stats.delCount (stats s))
             (Stats.failCount (stats s)))
    false s.

Definition deleteMessages (net : list Exchange) (s : State) : Async unit :=
  let s := writeToLog (Starting (Stats.startTime (stats s))) false s in
  match loop net s with
  | (Returned _, s, net) => (Returned tt, printSummary s, net)
  | (Thrown error, s, net) =>
      let s := writeToLog (ErrorProcessing error) true s in
      let s := printSummary s in
      (Thrown error, s, net)
  | (Awaiting, s, net) => (Awaiting, s, net)
  end.

(** ** The script: [run] and its caller *)

(** [process.env] *)
Record Env := mkEnv {
  DISCORD_AUTH_TOKEN : optional;
  DISCORD_AUTHOR_ID : optional;
  DISCORD_CHANNEL_ID : optional;
  DISCORD_BEFORE_MESSAGE_ID : optional
}.

(** [new DiscordMessageDeleter(...)] at time [t0].  The non-null assertions
    [!] of the call site are erased by the compiler: an unset variable
    reaches the constructor as [undefined]. *)
Definition constructor (authToken authorId channelId beforeMessageId : optional) (t0 : Z) : State :=
  let s := mkState
    (DiscordMessageDeleter.mk authToken authorId channelId beforeMessageId 0
       (Stats.mk 0 0 0 0 0 t0)) t0 [] in
  let s := writeToLog SessionStart false s in
  let s := writeToLog (SessionDateTime (now s)) false s in
  let s := writeToLog (SessionChannel (DiscordMessageDeleter.channelId (this s))) false s in
  let s := writeToLog (SessionAuthor (DiscordMessageDeleter.authorId (this s))) false s in
  let s :=
    if truthy (DiscordMessageDeleter.beforeMessageId (this s))
    then writeToLog (SessionBefore (DiscordMessageDeleter.beforeMessageId (this s))) false s
    else s in
  let s := writeToLog SessionRule false s in
  emit (BackupHeader (DiscordMessageDeleter.channelId (this s))
                     (DiscordMessageDeleter.authorId (this s))) s.

Definition run (env : Env) (net : list Exchange) (t0 : Z) : Async unit :=
  let deleter := constructor (DISCORD_AUTH_TOKEN env) (DISCORD_AUTHOR_ID env)
                             (DISCORD_CHANNEL_ID env) (DISCORD_BEFORE_MESSAGE_ID env) t0 in
  deleteMessages net deleter.

(** The handler of [SIGINT]: the summary, then [process.exit()] with no
    argument. *)
Definition interrupted (s : State) : State :=
  printSummary (writeToLog Interruption false s).

(** The status a Node process ends with once nothing is left to run: 1 if
    a rejection was left unhandled, else [process.exitCode], which is 0
    unless it was assigned. *)
Definition exitStatus (exitCode : option Z) (unhandledRejection : bool) : Z :=
  if unhandledRejection then 1
  else match exitCode with
       | Some c => c
       | None => 0
       end.

(** [run().catch(error => { console.error('Fatal error:', error); })]:
    what was output, and the exit status once the process has ended
    ([None] while a reply is awaited).  [index.ts] never assigns
    [process.exitCode] and never gives [process.exit] an argument; the
    handler of [catch] returns normally, so the rejection of [run()] is
    handled. *)
Definition main (env : Env) (net : list Exchange) (t0 : Z) : list Event * option Z :=
  match run env net t0 with
  | (Returned _, s, _) => (out s, Some (exitStatus None false))
  | (Thrown error, s, _) =>
      let s := emit (FatalError error) s in
      (out s, Some (exitStatus None false))
  | (Awaiting, s, _) => (out s, None)
  end.

(** * Vocabulary of the properties *)

(** ** Reading an [Async] result and a list of events *)

Definition completion_of {A} (r : Async A) : Completion A := fst (fst r).
Definition state_of {A} (r : Async A) : State := snd (fst r).
Definition unread {A} (r : Async A) : list Exchange := snd r.

Definition isFetch (e : Event) : bool :=
  match e with Fetch _ _ => true | _ => false end.
Definition isBackup (e : Event) : bool :=
  match e with Backup _ => true | _ => false end.
Definition isTotalFound (e : Event) : bool :=
  match e with Log _ (TotalFound _) => true | _ => false end.

(** The events [enforceRateLimit] adds: at most one wait. *)
Definition gate (s : State) : list Event :=
  let timeSinceLastCall := now s - DiscordMessageDeleter.lastApiCall (this s) in
  if timeSinceLastCall <? rateLimit then [Wait (rateLimit - timeSinceLastCall)] else [].

(** The settings the constructor received; no method assigns them. *)
Definition settings (d : DiscordMessageDeleter.t) : optional * optional * optional :=
  (DiscordMessageDeleter.authToken d, DiscordMessageDeleter.authorId d,
   DiscordMessageDeleter.channelId d).

(** The state in which a call has its reply: the gate was passed, the
    request sent, the promise settled. *)
Definition replied (req : DiscordMessageDeleter.t -> Request) (x : Exchange) (s : State) : State :=
  let s := enforceRateLimit s in
  let s := emit (Fetch (now s) (req (this s))) s in
  settle x s.

(** The state in which a call goes round again after 429. *)
Definition backoff (notice : Z -> LogLine) (retry : Z) (s : State) : State :=
  let s := update (with_stats (throttled retry)) s in
  let s := writeToLog (notice retry) false s in
  wait retry s.


(** ** What a call with retries changes *)

(** The [retry_after] of the replies 429 among [l], in order. *)
Definition throttles (l : list Exchange) : list Z :=
  flat_map (fun x =>
              match reply x with
              | Response status data => if status =? 429 then [retry_after data] else []
              | Rejected _ => []
              end) l.

Definition total (l : list Z) : Z := fold_right Z.add 0 l.

(** From [s] to [s'] the replies [consumed] were read, and the throttle
    counters went up by the replies 429 among them. *)
Definition throttled_by (consumed : list Exchange) (s s' : State) : Prop :=
  Stats.throttledCount (stats s')
  = Stats.throttledCount (stats s) + Z.of_nat (List.length (throttles consumed))
  /\ Stats.throttledTotalTime (stats s')
     = Stats.throttledTotalTime (stats s) + total (throttles consumed).

(** The statistics that no HTTP method assigns. *)
Definition counts_kept (s s' : State) : Prop :=
  Stats.delCount (stats s') = Stats.delCount (stats s)
  /\ Stats.failCount (stats s') = Stats.failCount (stats s)
  /\ Stats.grandTotal (stats s') = Stats.grandTotal (stats s)
  /\ Stats.startTime (stats s') = Stats.startTime (stats s).

Definition cursor (s : State) : optional := DiscordMessageDeleter.beforeMessageId (this s).

(** The events of [deleteMessage]: no log of an error, no backup, and no
    request but [req]. *)
Definition delete_event (req : Request) (e : Event) : Prop :=
  match e with
  | Fetch _ q => q = req
  | Respond _ _ | Wait _ => True
  | Log false (RateLimitOnDeletion _) | Log false (Deleted _) => True
  | _ => False
  end.

(** The events of [fetchMessages]. *)
Definition search_event (req : Request) (e : Event) : Prop :=
  match e with
  | Fetch _ q => q = req
  | Respond _ _ | Wait _ => True
  | Log false (NotIndexed _) | Log false (RateLimitReached _) => True
  | _ => False
  end.

(** ** One message of a page *)

(** The state in which the [try] block is entered: the progress line is
    logged. *)
Definition announced (message : Message.t) (s : State) : State :=
  writeToLog (Progress (Stats.delCount (stats s) + 1) (Stats.grandTotal (stats s))
                       (Message.id message)) false s.

(** The state in which [processMessage] calls [deleteMessage]: the
    progress line is logged and the backup record [entry] written. *)
Definition attempted (message : Message.t) (entry : BackupEntry) (s : State) : State :=
  emit (Backup entry) (announced message s).

(** What may follow the backup record of a message: anything but another
    backup record, another progress line, the line of a record that could
    not be built or a request other than [req]. *)
Definition after_backup (req : Request) (e : Event) : Prop :=
  match e with
  | Fetch _ q => q = req
  | Backup _ => False
  | Log _ (Progress _ _ _) => False
  | Log _ (ErrorDeleting _ TypeError) => False
  | _ => True
  end.

(** The events of an attempt to delete [message], whose backup record is
    [entry]: the progress line, the backup record, then the delete call
    (the same request as many times as it is retried) and what follows
    it. *)
Definition attempt (d : DiscordMessageDeleter.t) (message : Message.t) (entry : BackupEntry)
    (block : list Event) : Prop :=
  exists nth grandTotal post,
    block = Log false (Progress nth grandTotal (Message.id message))
            :: Backup entry :: post
    /\ Forall (after_backup (deleteRequest d (Message.id message))) post
    /\ exists t, In (Fetch t (deleteRequest d (Message.id message))) post.

(** The events of a turn on a selected message whose record cannot be
    built: the progress line and the line of the error in the error log;
    no backup record and no request. *)
Definition unrecorded (message : Message.t) (block : list Event) : Prop :=
  exists nth grandTotal,
    block = [Log false (Progress nth grandTotal (Message.id message));
             Log true (ErrorDeleting (Message.id message) TypeError)].

(** The events of one turn of the inner loop. *)
Definition handled (d : DiscordMessageDeleter.t) (message : Message.t) (block : list Event) : Prop :=
  if selected d message then
    match backupEntry message with
    | Some entry => attempt d message entry block
    | None => unrecorded message block
    end
  else block = [].

(** What the loops over a page keep of the object. *)
Definition page_kept (s s' : State) : Prop :=
  settings (this s') = settings (this s)
  /\ Stats.grandTotal (stats s') = Stats.grandTotal (stats s)
  /\ Stats.startTime (stats s') = Stats.startTime (stats s).

(** The events of the messages of a page that were reached: one block of
    events for each, in order. *)
Definition page_events (d : DiscordMessageDeleter.t) (reached : list Message.t)
    (events : list Event) : Prop :=
  exists blocks, Forall2 (handled d) reached blocks /\ events = concat blocks.

(** What a loop over messages is known to do: it never throws, it keeps the
    settings and the latched total, it reads the replies in order, and its
    events are those of the messages it reached, all of them unless a reply
    is awaited. *)
Definition loop_spec (all : list Message.t) (net : list Exchange) (s : State) (r : Async unit) : Prop :=
  (forall e, completion_of r <> Thrown e)
  /\ page_kept s (state_of r)
  /\ (exists consumed, net = consumed ++ unread r)
  /\ (exists reached rest events,
         all = reached ++ rest
         /\ out (state_of r) = out s ++ events
         /\ page_events (this s) reached events
         /\ Forall (fun e => isTotalFound e = false) events
         /\ (completion_of r <> Awaiting -> rest = [])).

(** ** The turns of the loop *)

(** From [(net, s)] the loop comes to [(net', s')] by turns that all end
    in going round again. *)
Inductive Turns : list Exchange -> State -> list Exchange -> State -> Prop :=
| Turns_here net s : Turns net s net s
| Turns_next net s net1 s1 net' s' :
    loopBody net s = (Returned Continue, s1, net1) ->
    Turns net1 s1 net' s' ->
    Turns net s net' s'.

(** The state in which [deleteMessages] enters the loop. *)
Definition entered (s : State) : State :=
  writeToLog (Starting (Stats.startTime (stats s))) false s.

Definition isDeleteCall (e : Event) : bool :=
  match e with Fetch _ (DeleteRequest _ _ _) => true | _ => false end.

(** ** Sample data *)

Definition someone : MessageAuthor.t := MessageAuthor.mk "1001" (Some "someone").

(** A message by [someone] that the search hit. *)
Definition plain (id : string) : Message.t :=
  Message.mk id someone 0 true (Some "hello") None None.

(** The backup record of [plain id]. *)
Definition plainEntry (id : string) : BackupEntry :=
  mkEntry id None "someone" "hello" [].

(** A system message. *)
Definition pinned (id : string) : Message.t :=
  Message.mk id someone 3 true None None None.

(** A message by [someone] that the search hit, with a [null] among its
    attachments. *)
Definition broken (id : string) : Message.t :=
  Message.mk id someone 0 true (Some "hello") None
             (Some [Some (Attachment.mk (Some "https://cdn/a.png") None); None]).

Definition sampleEnv : Env := mkEnv (Some "token") (Some "1001") (Some "2002") None.

Definition page (total : Z) (messages : list (list Message.t)) : Body :=
  mkBody 0 (SearchResponse.mk total messages).

Definition retryIn (ms : Z) : Body := mkBody ms (SearchResponse.mk 0 []).

Definition answered (status : Z) (body : Body) : Exchange :=
  mkExchange 20 (Response status body).

(** The object just constructed from [sampleEnv], at time 5000. *)
Definition fresh : State :=
  constructor (DISCORD_AUTH_TOKEN sampleEnv) (DISCORD_AUTHOR_ID sampleEnv)
              (DISCORD_CHANNEL_ID sampleEnv) (DISCORD_BEFORE_MESSAGE_ID sampleEnv) 5000.

(** ** The cursor *)

(** The identifier of the message deleted last among [events], or [c] if
    none was: the log line of a deletion is written when it has succeeded. *)
Fixpoint latest (c : optional) (events : list Event) : optional :=
  match events with
  | [] => c
  | Log _ (Deleted messageId) :: events => latest (Some messageId) events
  | _ :: events => latest c events
  end.

(** Every search request among [events] has for [max_id] the identifier of
    the message deleted last before it, [c] being the cursor before
    [events]; an empty string or no cursor at all gives no [max_id]. *)
Fixpoint cursor_followed (c : optional) (events : list Event) : Prop :=
  match events with
  | [] => True
  | Fetch _ (SearchRequest _ _ max_id _) :: events =>
      max_id = (if truthy c then c else None) /\ cursor_followed c events
  | Log _ (Deleted messageId) :: events => cursor_followed (Some messageId) events
  | _ :: events => cursor_followed c events
  end.

(** Neither a search request nor the log line of a deletion. *)
Definition neutral (e : Event) : bool :=
  match e with
  | Fetch _ (SearchRequest _ _ _ _) => false
  | Log _ (Deleted _) => false
  | _ => true
  end.

(** From [s] to [s'] events were added, the search requests among them
    followed the cursor, and the cursor of [s'] is where they left it. *)
Definition tracks (s s' : State) : Prop :=
  exists events,
    out s' = out s ++ events
    /\ cursor_followed (cursor s) events
    /\ cursor s' = latest (cursor s) events.

(** ** The latched total *)

(** From [s] to [s'] events were added, none of them the log line that
    goes with an assignment of [grandTotal], and [grandTotal] is the same. *)
Definition keeps_total (s s' : State) : Prop :=
  exists events,
    out s' = out s ++ events
    /\ filter isTotalFound events = []
    /\ Stats.grandTotal (stats s') = Stats.grandTotal (stats s).

(** The object [run] constructs, as [deleteMessages] enters the loop. *)
Definition begun (env : Env) (t0 : Z) : State :=
  entered (constructor (DISCORD_AUTH_TOKEN env) (DISCORD_AUTHOR_ID env)
                       (DISCORD_CHANNEL_ID env) (DISCORD_BEFORE_MESSAGE_ID env) t0).

(** ** Backups and delete calls in a whole run *)

Definition isProgress (e : Event) : bool :=
  match e with Log _ (Progress _ _ _) => true | _ => false end.

(** The identifier in the backup record written last among [events], or
    [last] if there is none. *)
Fixpoint last_backup (last : option string) (events : list Event) : option string :=
  match events with
  | [] => last
  | Backup entry :: events => last_backup (Some (entry_id entry)) events
  | _ :: events => last_backup last events
  end.

(** Every delete call among [events] is for the message whose backup
    record was the last one written before it, [last] being the identifier
    in the last record before [events]. *)
Fixpoint deletes_backed_up (last : option string) (events : list Event) : Prop :=
  match events with
  | [] => True
  | Backup entry :: events => deletes_backed_up (Some (entry_id entry)) events
  | Fetch _ (DeleteRequest _ messageId _) :: events =>
      last = Some messageId /\ deletes_backed_up last events
  | _ :: events => deletes_backed_up last events
  end.

(** The line of an attempt that ended before the backup record was
    written: [saveMessageContent] threw. *)
Definition isUnrecorded (e : Event) : bool :=
  match e with Log _ (ErrorDeleting _ TypeError) => true | _ => false end.

(** Whatever was backed up before them, the delete calls among [events] are
    backed up by a record among [events]; and each progress line, one for
    each message selected, has its backup record, or else the line that
    says the record could not be built. *)
Definition orderly (events : list Event) : Prop :=
  (forall last, deletes_backed_up last events)
  /\ (List.length (filter isBackup events) + List.length (filter isUnrecorded events)
      = List.length (filter isProgress events))%nat.

(** Not a backup record, a delete call, a progress line or the line of a
    record that could not be built. *)
Definition bystander (e : Event) : bool :=
  negb (isBackup e || isDeleteCall e || isProgress e || isUnrecorded e).

Definition keeps_order (s s' : State) : Prop :=
  exists events, out s' = out s ++ events /\ orderly events.

(** ** The pace of the requests *)

(** Every request among [events] is sent at least [rateLimit] after the one
    before it, [last] being the time of the last request before [events]. *)
Fixpoint spaced (last : Z) (events : list Event) : Prop :=
  match events with
  | [] => True
  | Fetch t _ :: events => last + rateLimit <= t /\ spaced t events
  | _ :: events => spaced last events
  end.

(** The time of the last request among [events], or [last]. *)
Fixpoint last_call (last : Z) (events : list Event) : Z :=
  match events with
  | [] => last
  | Fetch t _ :: events => last_call t events
  | _ :: events => last_call last events
  end.

(** The time at which a request made in [s] would be sent: when the gate
    has let the caller through. *)
Definition due (s : State) : Z := now (enforceRateLimit s).

(** From [s] to [s'] no request was sent before a request made in [s]
    was due, the requests kept their distance, and a request made in [s']
    is due no sooner than [rateLimit] after the last of them. *)
Definition paced (s s' : State) : Prop :=
  exists events,
    out s' = out s ++ events
    /\ spaced (due s - rateLimit) events
    /\ last_call (due s - rateLimit) events + rateLimit <= due s'.

(** ** Replies that make a call go round again *)

(** A reply 202 or 429: [fetchMessages] waits and asks again. *)
Definition retriesSearch (x : Exchange) : bool :=
  match reply x with
  | Response status _ => (status =? 202) || (status =? 429)
  | Rejected _ => false
  end.

(** A reply 429: [deleteMessage] waits and asks again. *)
Definition retriesDelete (x : Exchange) : bool :=
  match reply x with
  | Response status _ => status =? 429
  | Rejected _ => false
  end.

(** ** The statistics against the logs *)

Definition isDeleted (e : Event) : bool :=
  match e with Log _ (Deleted _) => true | _ => false end.

Definition isErrorDeleting (e : Event) : bool :=
  match e with Log _ (ErrorDeleting _ _) => true | _ => false end.

(** The notice of a wait after 429, on either endpoint. *)
Definition isThrottleNotice (e : Event) : bool :=
  match e with
  | Log _ (RateLimitReached _) | Log _ (RateLimitOnDeletion _) => true
  | _ => false
  end.

(** The wait that a notice of 429 announces. *)
Definition throttle_wait (e : Event) : Z :=
  match e with
  | Log _ (RateLimitReached retry) | Log _ (RateLimitOnDeletion retry) => retry
  | _ => 0
  end.

(** How many of [events] are of a kind. *)
Definition tally (kind : Event -> bool) (events : list Event) : Z :=
  Z.of_nat (List.length (filter kind events)).

(** The waits announced among [events], added up. *)
Definition waited (events : list Event) : Z := total (map throttle_wait events).

(** What each counter is ahead of the log by. *)
Definition balance (s : State) : Z * Z * Z * Z :=
  (Stats.delCount (stats s) - tally isDeleted (out s),
   Stats.failCount (stats s) - tally isErrorDeleting (out s),
   Stats.throttledCount (stats s) - tally isThrottleNotice (out s),
   Stats.throttledTotalTime (stats s) - waited (out s)).

(** A line is one of the two that report an error. *)
Definition isErrorLine (line : LogLine) : bool :=
  match line with
  | ErrorDeleting _ _ | ErrorProcessing _ => true
  | _ => false
  end.

(** A line is in the error log exactly if it reports an error. *)
Definition routed (e : Event) : bool :=
  match e with
  | Log isError line => Bool.eqb isError (isErrorLine line)
  | _ => true
  end.

(** From [s] to [s'] the counters moved with the log, and the start time
    is the same. *)
Definition audited (s s' : State) : Prop :=
  balance s' = balance s /\ Stats.startTime (stats s') = Stats.startTime (stats s).

Definition isSummary (e : Event) : bool :=
  match e with Log _ (Summary _ _ _ _ _ _) => true | _ => false end.

(** The summary that [events], logged since [startTime], call for at
    [endTime]. *)
Definition summary_of (startTime endTime : Z) (events : list Event) : Event :=
  Log false (Summary endTime (msToHMS (endTime - startTime)) (msToHMS (waited events))
                     (tally isThrottleNotice events) (tally isDeleted events)
                     (tally isErrorDeleting events)).

(** ** What the loop puts out *)

(** The events of the loop, for an object with the settings [st]: requests
    with these settings, and each line in the log it belongs to. *)
Definition loop_event (st : optional * optional * optional) (e : Event) : Prop :=
  match e with
  | Fetch _ (SearchRequest channelId author_id _ authorization) =>
      (authorization, author_id, channelId) = st
  | Fetch _ (DeleteRequest channelId _ authorization) =>
      (authorization, channelId) = (fst (fst st), snd st)
  | Respond _ _ | Wait _ | Backup _ => True
  | Log false (NotIndexed _) | Log false (RateLimitReached _)
  | Log false (RateLimitOnDeletion _) | Log false (Deleted _)
  | Log false (TotalFound _) | Log false (Progress _ _ _) => True
  | Log true (ErrorDeleting _ _) => True
  | _ => False
  end.

(** From [s] to [s'] events of the loop were added, and the settings are
    the same. *)
Definition conducted (s s' : State) : Prop :=
  exists events,
    out s' = out s ++ events
    /\ settings (this s') = settings (this s)
    /\ Forall (loop_event (settings (this s))) events.

(** A request is for the channel and with the token of [env], and a search
    for the author of [env]. *)
Definition addressed (env : Env) (e : Event) : Prop :=
  match e with
  | Fetch _ (SearchRequest channelId author_id _ authorization) =>
      channelId = DISCORD_CHANNEL_ID env /\ author_id = DISCORD_AUTHOR_ID env
      /\ authorization = DISCORD_AUTH_TOKEN env
  | Fetch _ (DeleteRequest channelId _ authorization) =>
      channelId = DISCORD_CHANNEL_ID env /\ authorization = DISCORD_AUTH_TOKEN env
  | _ => True
  end.

(** ** The progress lines *)

(** Every progress line among [events] counts one more than the lines of a
    deletion before it, [done] being those before [events], and shows the
    total [grandTotal], which is not 0. *)
Fixpoint progress_counts (grandTotal done : Z) (events : list Event) : Prop :=
  match events with
  | [] => True
  | Log _ (Progress nth total _) :: events =>
      (nth = done + 1 /\ total = grandTotal /\ grandTotal <> 0)
      /\ progress_counts grandTotal done events
  | Log _ (Deleted _) :: events => progress_counts grandTotal (done + 1) events
  | _ :: events => progress_counts grandTotal done events
  end.

(** From [s] to [s'] [delCount] went up with the lines of a deletion, a
    total that was latched stayed, and the progress lines counted from the
    [delCount] of [s] and showed the total of [s']. *)
Definition progressing (s s' : State) : Prop :=
  exists events,
    out s' = out s ++ events
    /\ Stats.delCount (stats s') = Stats.delCount (stats s) + tally isDeleted events
    /\ (Stats.grandTotal (stats s) <> 0 ->
        Stats.grandTotal (stats s') = Stats.grandTotal (stats s))
    /\ progress_counts (Stats.grandTotal (stats s')) (Stats.delCount (stats s)) events.

(** ** A sample run *)

(** The replies to a search that finds two messages of [someone] and to
    the two delete calls. *)
Definition twoDeleted : list Exchange :=
  [answered 200 (page 2 [[plain "m1"; plain "m2"]]);
   answered 204 (retryIn 0); answered 204 (retryIn 0)].

(** ** A page with nothing to delete *)

(** A reply whose body [fetchMessages] returns: a status of success other
    than 202. *)
Definition returnsPage (x : Exchange) (result : SearchResponse.t) : Prop :=
  exists status data,
    reply x = Response status data
    /\ ok status = true /\ status <> 202
    /\ json data = result.

(** No message of the page passes the test of the inner loop. *)
Definition noneSelected (d : DiscordMessageDeleter.t) (result : SearchResponse.t) : bool :=
  forallb (forallb (fun message => negb (selected d message))) (SearchResponse.messages result).

(** A request, if it is one, is [req]. *)
Definition same_request (req : Request) (e : Event) : Prop :=
  match e with
  | Fetch _ q => q = req
  | _ => True
  end.

(** A page of two messages none of which is selected: a system message of
    [someone] and a message the search did not hit. *)
Definition nothingToDelete : Exchange :=
  answered 200 (page 2 [[pinned "m7"; Message.mk "m8" someone 0 false None None None]]).

(** ** Attempts and their outcome *)

(** [R] holds from [s] to where the call [r] ended, or [Q] to where it
    awaits a reply. *)
Definition reaches {A} (R Q : State -> State -> Prop) (s : State) (r : Async A) : Prop :=
  match completion_of r with
  | Awaiting => Q s (state_of r)
  | _ => R s (state_of r)
  end.

(** The attempts begun among [events] that have not come to an end: the
    progress lines, less the lines of a deletion and of a failed
    deletion. *)
Definition unfinished (events : list Event) : Z :=
  tally isProgress events - tally isDeleted events - tally isErrorDeleting events.

(** From [s] to [s'] every attempt begun came to an end. *)
Definition accounted (s s' : State) : Prop :=
  exists events, out s' = out s ++ events /\ unfinished events = 0.

(** From [s] to [s'] every attempt begun came to an end, but perhaps one. *)
Definition accounted_but_one (s s' : State) : Prop :=
  exists events, out s' = out s ++ events /\ (unfinished events = 0 \/ unfinished events = 1).

(** * Properties *)

(** ** Projections *)

Lemma completion_of_triple {A} (c : Completion A) s net : completion_of (c, s, net) = c.
Proof. reflexivity. Qed.
Lemma state_of_triple {A} (c : Completion A) s net : state_of (c, s, net) = s.
Proof. reflexivity. Qed.
Lemma unread_triple {A} (c : Completion A) s net : unread (c, s, net) = net.
Proof. reflexivity. Qed.

Ltac destruct_if :=
  match goal with
  | |- context [if ?c then _ else _] => destruct c eqn:?
  end.

(** ** What each state update leaves alone *)

Lemma out_emit e s : out (emit e s) = out s ++ [e].
Proof. reflexivity. Qed.
Lemma out_elapse ms s : out (elapse ms s) = out s.
Proof. reflexivity. Qed.
Lemma out_update f s : out (update f s) = out s.
Proof. reflexivity. Qed.
Lemma out_writeToLog l b s : out (writeToLog l b s) = out s ++ [Log b l].
Proof. reflexivity. Qed.
Lemma out_wait ms s : out (wait ms s) = out s ++ [Wait ms].
Proof. reflexivity. Qed.
Lemma out_settle x s :
  out (settle x s) = out s ++ [Respond (now s + Z.of_N (latency x)) (reply x)].
Proof. reflexivity. Qed.

Lemma now_emit e s : now (emit e s) = now s.
Proof. reflexivity. Qed.
Lemma now_update f s : now (update f s) = now s.
Proof. reflexivity. Qed.
Lemma now_writeToLog l b s : now (writeToLog l b s) = now s.
Proof. reflexivity. Qed.
Lemma now_wait ms s : now (wait ms s) = now s + setTimeout ms.
Proof. reflexivity. Qed.
Lemma now_settle x s : now (settle x s) = now s + Z.of_N (latency x).
Proof. reflexivity. Qed.

Lemma this_emit e s : this (emit e s) = this s.
Proof. reflexivity. Qed.
Lemma this_update f s : this (update f s) = f (this s).
Proof. reflexivity. Qed.
Lemma this_writeToLog l b s : this (writeToLog l b s) = this s.
Proof. reflexivity. Qed.
Lemma this_wait ms s : this (wait ms s) = this s.
Proof. reflexivity. Qed.
Lemma this_settle x s : this (settle x s) = this s.
Proof. reflexivity. Qed.

Lemma stats_emit e s : stats (emit e s) = stats s.
Proof. reflexivity. Qed.
Lemma stats_writeToLog l b s : stats (writeToLog l b s) = stats s.
Proof. reflexivity. Qed.
Lemma stats_wait ms s : stats (wait ms s) = stats s.
Proof. reflexivity. Qed.
Lemma stats_settle x s : stats (settle x s) = stats s.
Proof. reflexivity. Qed.
Lemma stats_with_stats f s : stats (update (with_stats f) s) = f (stats s).
Proof. reflexivity. Qed.
Lemma stats_set_lastApiCall v s : stats (update (set_lastApiCall v) s) = stats s.
Proof. reflexivity. Qed.
Lemma stats_set_beforeMessageId v s : stats (update (set_beforeMessageId v) s) = stats s.
Proof. reflexivity. Qed.

Lemma settings_set_beforeMessageId v d : settings (set_beforeMessageId v d) = settings d.
Proof. reflexivity. Qed.
Lemma settings_with_stats f d : settings (with_stats f d) = settings d.
Proof. reflexivity. Qed.
Lemma settings_set_lastApiCall v d : settings (set_lastApiCall v d) = settings d.
Proof. reflexivity. Qed.
Lemma cursor_set_beforeMessageId v d :
  DiscordMessageDeleter.beforeMessageId (set_beforeMessageId v d) = Some v.
Proof. reflexivity. Qed.
Lemma cursor_with_stats f d :
  DiscordMessageDeleter.beforeMessageId (with_stats f d)
  = DiscordMessageDeleter.beforeMessageId d.
Proof. reflexivity. Qed.
Lemma cursor_set_lastApiCall v d :
  DiscordMessageDeleter.beforeMessageId (set_lastApiCall v d)
  = DiscordMessageDeleter.beforeMessageId d.
Proof. reflexivity. Qed.

Create Rewrite HintDb state.
#[local] Hint Rewrite @completion_of_triple @state_of_triple @unread_triple
  out_emit out_elapse out_update out_writeToLog out_wait out_settle
  now_emit now_update now_writeToLog now_wait now_settle
  this_emit this_update this_writeToLog this_wait this_settle
  stats_emit stats_writeToLog stats_wait stats_settle
  stats_with_stats stats_set_lastApiCall stats_set_beforeMessageId
  settings_set_beforeMessageId settings_with_stats settings_set_lastApiCall
  cursor_set_beforeMessageId cursor_with_stats cursor_set_lastApiCall : state.

(** ** Timers *)

(** A timer lasts at least 1 ms. *)
Lemma setTimeout_pos ms : 1 <= setTimeout ms.
Proof.
  unfold setTimeout. destruct (1 <=? ms) eqn:E; cbn [andb]; [|lia].
  destruct (ms <=? TIMEOUT_MAX); [now apply Z.leb_le in E|lia].
Qed.

(** A delay from 1 to [TIMEOUT_MAX] is the delay of the timer. *)
Lemma setTimeout_fits ms : 1 <= ms <= TIMEOUT_MAX -> setTimeout ms = ms.
Proof.
  intros [H1 H2]. unfold setTimeout.
  apply Z.leb_le in H1, H2. now rewrite H1, H2.
Qed.

(** A delay beyond [TIMEOUT_MAX] gives a timer of 1 ms. *)
Lemma setTimeout_overflow ms : TIMEOUT_MAX < ms -> setTimeout ms = 1.
Proof.
  intros H. unfold setTimeout. apply Z.leb_gt in H. rewrite H. now rewrite andb_false_r.
Qed.


Arguments setTimeout : simpl never.

(** ** Building the backup record *)

Lemma backupEntry_id m entry : backupEntry m = Some entry -> entry_id entry = Message.id m.
Proof.
  unfold backupEntry. destruct (match Message.attachments m with
                                | Some l => attachmentLines l
                                | None => Some []
                                end); [|discriminate].
  intros H. injection H as <-. reflexivity.
Qed.

Lemma saveMessageContent_done m entry s :
  backupEntry m = Some entry -> saveMessageContent m s = Done (emit (Backup entry) s).
Proof. unfold saveMessageContent. now intros ->. Qed.

Lemma saveMessageContent_raised m s :
  backupEntry m = None -> saveMessageContent m s = Raised TypeError.
Proof. unfold saveMessageContent. now intros ->. Qed.

(** ** The rate-limit gate *)


Lemma enforceRateLimit_out s : out (enforceRateLimit s) = out s ++ gate s.
Proof.
  unfold enforceRateLimit, gate. destruct_if; simpl.
  - reflexivity.
  - now rewrite app_nil_r.
Qed.


Lemma enforceRateLimit_stats s : stats (enforceRateLimit s) = stats s.
Proof. unfold enforceRateLimit. destruct_if; reflexivity. Qed.

Lemma enforceRateLimit_cursor s :
  DiscordMessageDeleter.beforeMessageId (this (enforceRateLimit s))
  = DiscordMessageDeleter.beforeMessageId (this s).
Proof. unfold enforceRateLimit. destruct_if; reflexivity. Qed.

Lemma enforceRateLimit_settings s :
  settings (this (enforceRateLimit s)) = settings (this s).
Proof. unfold enforceRateLimit. destruct_if; reflexivity. Qed.

Lemma enforceRateLimit_searchRequest s :
  searchRequest (this (enforceRateLimit s)) = searchRequest (this s).
Proof. unfold enforceRateLimit. destruct_if; reflexivity. Qed.

Lemma enforceRateLimit_deleteRequest s messageId :
  deleteRequest (this (enforceRateLimit s)) messageId = deleteRequest (this s) messageId.
Proof. unfold enforceRateLimit. destruct_if; reflexivity. Qed.

#[local] Hint Rewrite enforceRateLimit_out enforceRateLimit_stats enforceRateLimit_cursor
  enforceRateLimit_settings enforceRateLimit_searchRequest enforceRateLimit_deleteRequest : state.

Arguments enforceRateLimit : simpl never.
Arguments gate : simpl never.
Arguments wait : simpl never.
Arguments settle : simpl never.
Arguments emit : simpl never.
Arguments update : simpl never.
Arguments writeToLog : simpl never.
Arguments saveMessageContent : simpl never.

(** ** One reply at a time *)
Lemma fetchMessages_nil s :
  fetchMessages [] s
  = (Awaiting,
     emit (Fetch (now (enforceRateLimit s)) (searchRequest (this (enforceRateLimit s))))
          (enforceRateLimit s), []).
Proof. reflexivity. Qed.

Lemma fetchMessages_cons x net s :
  fetchMessages (x :: net) s
  = let s := replied searchRequest x s in
    match reply x with
    | Rejected reason => (Thrown (FetchError reason), s, net)
    | Response status data =>
        if status =? 202 then
          fetchMessages net
            (wait (retry_after data) (writeToLog (NotIndexed (retry_after data)) false s))
        else if status =? 429 then
          fetchMessages net (backoff RateLimitReached (retry_after data) s)
        else if negb (ok status) then (Thrown (ApiStatus status), s, net)
        else (Returned (json data), s, net)
    end.
Proof. reflexivity. Qed.

Lemma deleteMessage_nil messageId s :
  deleteMessage messageId [] s
  = (Awaiting,
     emit (Fetch (now (enforceRateLimit s))
                 (deleteRequest (this (enforceRateLimit s)) messageId))
          (enforceRateLimit s), []).
Proof. reflexivity. Qed.

Lemma deleteMessage_cons messageId x net s :
  deleteMessage messageId (x :: net) s
  = let s := replied (fun d => deleteRequest d messageId) x s in
    match reply x with
    | Rejected reason => (Thrown (FetchError reason), s, net)
    | Response status data =>
        if status =? 429 then
          deleteMessage messageId net (backoff RateLimitOnDeletion (retry_after data) s)
        else if negb (ok status) then (Thrown (DeleteFailed messageId status), s, net)
        else
          (Returned tt,
           writeToLog (Deleted messageId) false (update (set_beforeMessageId messageId) s),
           net)
    end.
Proof. reflexivity. Qed.

Lemma out_replied req x s :
  (forall s, req (this (enforceRateLimit s)) = req (this s)) ->
  out (replied req x s)
  = out s ++ gate s
    ++ [Fetch (now (enforceRateLimit s)) (req (this s));
        Respond (now (enforceRateLimit s) + Z.of_N (latency x)) (reply x)].
Proof.
  intros Hreq. unfold replied. cbv zeta.
  autorewrite with state. rewrite Hreq. now rewrite <- !app_assoc.
Qed.

Lemma now_replied req x s : now (replied req x s) = now (enforceRateLimit s) + Z.of_N (latency x).
Proof. reflexivity. Qed.

Lemma stats_replied req x s : stats (replied req x s) = stats s.
Proof. unfold replied. cbv zeta. now autorewrite with state. Qed.

Lemma cursor_replied req x s :
  DiscordMessageDeleter.beforeMessageId (this (replied req x s))
  = DiscordMessageDeleter.beforeMessageId (this s).
Proof. unfold replied. cbv zeta. now autorewrite with state. Qed.

Lemma settings_replied req x s : settings (this (replied req x s)) = settings (this s).
Proof. unfold replied. cbv zeta. now autorewrite with state. Qed.

Lemma out_backoff notice retry s :
  out (backoff notice retry s) = out s ++ [Log false (notice retry); Wait retry].
Proof. unfold backoff. cbv zeta. autorewrite with state. now rewrite <- app_assoc. Qed.

Lemma now_backoff notice retry s : now (backoff notice retry s) = now s + setTimeout retry.
Proof. reflexivity. Qed.

Lemma stats_backoff notice retry s : stats (backoff notice retry s) = throttled retry (stats s).
Proof. reflexivity. Qed.

Lemma cursor_backoff notice retry s :
  DiscordMessageDeleter.beforeMessageId (this (backoff notice retry s))
  = DiscordMessageDeleter.beforeMessageId (this s).
Proof. reflexivity. Qed.

Lemma settings_backoff notice retry s : settings (this (backoff notice retry s)) = settings (this s).
Proof. reflexivity. Qed.

Lemma searchRequest_settings d d' :
  settings d = settings d' ->
  DiscordMessageDeleter.beforeMessageId d = DiscordMessageDeleter.beforeMessageId d' ->
  searchRequest d = searchRequest d'.
Proof.
  destruct d, d'; unfold settings, searchRequest; simpl.
  intros H Hc. injection H as -> -> ->. now rewrite Hc.
Qed.

Lemma deleteRequest_settings d d' messageId :
  settings d = settings d' -> deleteRequest d messageId = deleteRequest d' messageId.
Proof.
  destruct d, d'; unfold settings, deleteRequest; simpl.
  intros H. now injection H as -> -> ->.
Qed.

#[local] Hint Rewrite now_replied stats_replied cursor_replied settings_replied
  out_backoff now_backoff stats_backoff cursor_backoff settings_backoff : state.

(** Both HTTP methods start the same way: the gate, then the request. *)
Lemma fetchMessages_first net s :
  exists more,
    out (state_of (fetchMessages net s))
    = out s ++ gate s ++ Fetch (now (enforceRateLimit s)) (searchRequest (this s)) :: more.
Proof.
  revert s. induction net as [|x net IH]; intros s.
  - rewrite fetchMessages_nil. exists []. autorewrite with state.
    autorewrite with state. now rewrite <- app_assoc.
  - rewrite fetchMessages_cons. cbv zeta.
    pose proof (out_replied searchRequest x s enforceRateLimit_searchRequest) as Hs1.
    destruct (reply x) as [status data|reason].
    + destruct (status =? 202).
      { match goal with |- context [fetchMessages net ?s2] =>
          destruct (IH s2) as [more Hmore]; rewrite Hmore end.
        autorewrite with state. rewrite Hs1, <- !app_assoc. simpl.
        eexists. reflexivity. }
      destruct (status =? 429).
      { match goal with |- context [fetchMessages net ?s2] =>
          destruct (IH s2) as [more Hmore]; rewrite Hmore end.
        autorewrite with state. rewrite Hs1, <- !app_assoc. simpl.
        eexists. reflexivity. }
      destruct (negb (ok status)); autorewrite with state;
        rewrite Hs1; eexists; reflexivity.
    + autorewrite with state. rewrite Hs1. eexists. reflexivity.
Qed.

Lemma deleteMessage_first messageId net s :
  exists more,
    out (state_of (deleteMessage messageId net s))
    = out s ++ gate s
      ++ Fetch (now (enforceRateLimit s)) (deleteRequest (this s) messageId) :: more.
Proof.
  revert s. induction net as [|x net IH]; intros s.
  - rewrite deleteMessage_nil. exists []. autorewrite with state.
    autorewrite with state. now rewrite <- app_assoc.
  - rewrite deleteMessage_cons. cbv zeta.
    pose proof (out_replied (fun d => deleteRequest d messageId) x s
                  (fun s => enforceRateLimit_deleteRequest s messageId)) as Hs1.
    cbv beta in Hs1.
    destruct (reply x) as [status data|reason].
    + destruct (status =? 429).
      { match goal with |- context [deleteMessage messageId net ?s2] =>
          destruct (IH s2) as [more Hmore]; rewrite Hmore end.
        autorewrite with state. rewrite Hs1, <- !app_assoc. simpl.
        eexists. reflexivity. }
      destruct (negb (ok status)); autorewrite with state;
        autorewrite with state; rewrite Hs1, <- ?app_assoc; simpl;
        eexists; reflexivity.
    + autorewrite with state. rewrite Hs1. eexists. reflexivity.
Qed.

(** ** Retry after 429 and 202 *)







(** ** What the HTTP methods change, and what they leave *)

Lemma counts_kept_trans s1 s2 s3 : counts_kept s1 s2 -> counts_kept s2 s3 -> counts_kept s1 s3.
Proof. unfold counts_kept. intuition congruence. Qed.

Lemma counts_kept_stats s s' : stats s' = stats s -> counts_kept s s'.
Proof. unfold counts_kept. intros ->. repeat split. Qed.

Lemma throttled_by_nil s s' : stats s' = stats s -> throttled_by [] s s'.
Proof. unfold throttled_by. intros ->. simpl. split; lia. Qed.

Lemma throttles_app l1 l2 : throttles (l1 ++ l2) = throttles l1 ++ throttles l2.
Proof. apply flat_map_app. Qed.

Lemma total_app l1 l2 : total (l1 ++ l2) = total l1 + total l2.
Proof. induction l1 as [|a l1 IH]; simpl; [reflexivity|rewrite IH; lia]. Qed.

Lemma gate_delete_event req s : Forall (delete_event req) (gate s).
Proof. unfold gate. destruct_if; repeat constructor. Qed.

Lemma gate_search_event req s : Forall (search_event req) (gate s).
Proof. unfold gate. destruct_if; repeat constructor. Qed.

Ltac split5 := split; [|split; [|split; [|split]]].

Lemma deleteMessage_spec messageId net s :
  let r := deleteMessage messageId net s in
  settings (this (state_of r)) = settings (this s)
  /\ counts_kept s (state_of r)
  /\ (exists consumed, net = consumed ++ unread r /\ throttled_by consumed s (state_of r))
  /\ (exists evs, out (state_of r) = out s ++ evs
                  /\ Forall (delete_event (deleteRequest (this s) messageId)) evs)
  /\ cursor (state_of r)
     = match completion_of r with
       | Returned _ => Some messageId
       | _ => cursor s
       end.
Proof.
  revert s. induction net as [|x net IH]; intros s; cbv zeta.
  - rewrite deleteMessage_nil. unfold cursor. autorewrite with state.
    split5.
    + reflexivity.
    + apply counts_kept_stats. now autorewrite with state.
    + exists []. split; [reflexivity|]. apply throttled_by_nil. now autorewrite with state.
    + eexists. split; [rewrite <- app_assoc; reflexivity|].
      apply Forall_app. split; [apply gate_delete_event|]. now repeat constructor.
    + reflexivity.
  - rewrite deleteMessage_cons. cbv zeta.
    set (req := fun d => deleteRequest d messageId).
    pose proof (out_replied req x s (fun s => enforceRateLimit_deleteRequest s messageId)) as Hout.
    assert (Hev : Forall (delete_event (deleteRequest (this s) messageId))
                    (gate s ++ [Fetch (now (enforceRateLimit s)) (req (this s));
                                Respond (now (enforceRateLimit s) + Z.of_N (latency x)) (reply x)])).
    { apply Forall_app. split; [apply gate_delete_event|]. now repeat constructor. }
    assert (Hone : forall s', stats s' = stats s ->
                     (forall data, reply x = Response 429 data -> False) ->
                     throttled_by [x] s s').
    { intros s' Hs' Hno. unfold throttled_by. simpl throttles. rewrite Hs'.
      destruct (reply x) as [status data|reason]; [|simpl; split; lia].
      destruct (status =? 429) eqn:E; [|simpl; split; lia].
      apply Z.eqb_eq in E. subst status. now destruct (Hno data). }
    destruct (reply x) as [status data|reason] eqn:Hreply.
    + destruct (status =? 429) eqn:H429.
      { specialize (IH (backoff RateLimitOnDeletion (retry_after data) (replied req x s))).
        cbv zeta in IH.
        destruct IH as (Hset & Hkept & (consumed & Hnet & Hthr) & (evs & Hevs & Hall) & Hcur).
        split5.
        - rewrite Hset. now autorewrite with state.
        - eapply counts_kept_trans; [|exact Hkept].
          unfold counts_kept. autorewrite with state. repeat split.
        - exists (x :: consumed). split; [simpl; now f_equal|].
          unfold throttled_by in *. simpl throttles. rewrite Hreply, H429.
          destruct Hthr as [-> ->]. autorewrite with state.
          cbn [app List.length total fold_right throttled Stats.throttledCount
                   Stats.throttledTotalTime].
          fold (total (throttles consumed)). split; lia.
        - eexists. split.
          + rewrite Hevs. autorewrite with state. rewrite Hout.
            rewrite <- !app_assoc. reflexivity.
          + rewrite Forall_app in Hev. destruct Hev as [Hg Hl].
            apply Forall_app. split; [exact Hg|].
            inversion Hl as [|? ? Hf Hl']; subst. inversion Hl' as [|? ? Hr _]; subst.
            constructor; [exact Hf|]. constructor; [exact Hr|].
            constructor; [exact I|]. constructor; [exact I|].
            erewrite deleteRequest_settings; [exact Hall|]. now autorewrite with state.
        - rewrite Hcur. unfold cursor. now autorewrite with state. }
      assert (Hno : forall data', Response status data = Response 429 data' -> False).
      { intros data' E. injection E as -> _. discriminate. }
      destruct (negb (ok status)); unfold cursor; autorewrite with state.
      * split5.
        -- reflexivity.
        -- apply counts_kept_stats. now autorewrite with state.
        -- exists [x]. split; [reflexivity|]. apply Hone; [now autorewrite with state|exact Hno].
        -- eexists. split; [exact Hout|exact Hev].
        -- reflexivity.
      * rewrite Hout. split5.
        -- reflexivity.
        -- apply counts_kept_stats. now autorewrite with state.
        -- exists [x]. split; [reflexivity|]. apply Hone; [now autorewrite with state|exact Hno].
        -- eexists. split; [rewrite <- !app_assoc; reflexivity|].
           rewrite app_assoc. apply Forall_app. split; [exact Hev|]. now repeat constructor.
        -- reflexivity.
    + unfold cursor; autorewrite with state. split5.
      * reflexivity.
      * apply counts_kept_stats. now autorewrite with state.
      * exists [x]. split; [reflexivity|]. apply Hone; [now autorewrite with state|].
        intros data' E. discriminate.
      * eexists. split; [exact Hout|exact Hev].
      * reflexivity.
Qed.

Lemma fetchMessages_spec net s :
  let r := fetchMessages net s in
  settings (this (state_of r)) = settings (this s)
  /\ counts_kept s (state_of r)
  /\ (exists consumed, net = consumed ++ unread r /\ throttled_by consumed s (state_of r))
  /\ (exists evs, out (state_of r) = out s ++ evs
                  /\ Forall (search_event (searchRequest (this s))) evs)
  /\ cursor (state_of r) = cursor s.
Proof.
  revert s. induction net as [|x net IH]; intros s; cbv zeta.
  - rewrite fetchMessages_nil. unfold cursor. autorewrite with state.
    split5.
    + reflexivity.
    + apply counts_kept_stats. now autorewrite with state.
    + exists []. split; [reflexivity|]. apply throttled_by_nil. now autorewrite with state.
    + eexists. split; [rewrite <- app_assoc; reflexivity|].
      apply Forall_app. split; [apply gate_search_event|]. now repeat constructor.
    + reflexivity.
  - rewrite fetchMessages_cons. cbv zeta.
    pose proof (out_replied searchRequest x s enforceRateLimit_searchRequest) as Hout.
    assert (Hev : Forall (search_event (searchRequest (this s)))
                    (gate s ++ [Fetch (now (enforceRateLimit s)) (searchRequest (this s));
                                Respond (now (enforceRateLimit s) + Z.of_N (latency x)) (reply x)])).
    { apply Forall_app. split; [apply gate_search_event|]. now repeat constructor. }
    assert (Hone : forall s', stats s' = stats s ->
                     (forall data, reply x = Response 429 data -> False) ->
                     throttled_by [x] s s').
    { intros s' Hs' Hno. unfold throttled_by. simpl throttles. rewrite Hs'.
      destruct (reply x) as [status data|reason]; [|simpl; split; lia].
      destruct (status =? 429) eqn:E; [|simpl; split; lia].
      apply Z.eqb_eq in E. subst status. now destruct (Hno data). }
    assert (Hgo : forall s2 notice R,
               out s2 = out (replied searchRequest x s) ++ [Log false notice; Wait R] ->
               search_event (searchRequest (this s)) (Log false notice) ->
               settings (this s2) = settings (this s) ->
               cursor s2 = cursor s ->
               counts_kept s s2 ->
               throttled_by [x] s s2 ->
               let r := fetchMessages net s2 in
               settings (this (state_of r)) = settings (this s)
               /\ counts_kept s (state_of r)
               /\ (exists consumed, x :: net = consumed ++ unread r
                                    /\ throttled_by consumed s (state_of r))
               /\ (exists evs, out (state_of r) = out s ++ evs
                               /\ Forall (search_event (searchRequest (this s))) evs)
               /\ cursor (state_of r) = cursor s).
    { intros s2 notice R Hout2 Hnotice Hset2 Hcur2 Hkept2 Hthr2.
      specialize (IH s2). cbv zeta in IH.
      destruct IH as (Hset & Hkept & (consumed & Hnet & Hthr) & (evs & Hevs & Hall) & Hcur).
      cbv zeta. split5.
      - congruence.
      - eapply counts_kept_trans; eassumption.
      - exists (x :: consumed). split; [simpl; now f_equal|].
        unfold throttled_by in *. destruct Hthr as [-> ->]. destruct Hthr2 as [-> ->].
        change (x :: consumed) with ([x] ++ consumed).
        rewrite (throttles_app [x] consumed), length_app, Nat2Z.inj_add, total_app.
        split; lia.
      - eexists. split.
        + rewrite Hevs, Hout2, Hout. rewrite <- !app_assoc. reflexivity.
        + rewrite Forall_app in Hev. destruct Hev as [Hg Hl].
          apply Forall_app. split; [exact Hg|].
          inversion Hl as [|? ? Hf Hl']; subst. inversion Hl' as [|? ? Hr _]; subst.
          constructor; [exact Hf|]. constructor; [exact Hr|].
          constructor; [exact Hnotice|]. constructor; [exact I|].
          erewrite (searchRequest_settings (this s)); [exact Hall|congruence|].
          symmetry. exact Hcur2.
      - congruence. }
    destruct (reply x) as [status data|reason] eqn:Hreply.
    + destruct (status =? 202) eqn:H202.
      { apply (Hgo _ (NotIndexed (retry_after data)) (retry_after data)).
        - autorewrite with state. now rewrite <- app_assoc.
        - exact I.
        - now autorewrite with state.
        - unfold cursor. now autorewrite with state.
        - apply counts_kept_stats. now autorewrite with state.
        - apply Hone; [now autorewrite with state|].
          intros data' E. injection E as -> _. discriminate. }
      destruct (status =? 429) eqn:H429.
      { apply (Hgo _ (RateLimitReached (retry_after data)) (retry_after data)).
        - now autorewrite with state.
        - exact I.
        - now autorewrite with state.
        - unfold cursor. now autorewrite with state.
        - unfold counts_kept. autorewrite with state. repeat split.
        - unfold throttled_by. simpl throttles. rewrite Hreply, H429.
          autorewrite with state. simpl. split; lia. }
      assert (Hno : forall data', Response status data = Response 429 data' -> False).
      { intros data' E. injection E as -> _. discriminate. }
      destruct (negb (ok status)); unfold cursor; autorewrite with state.
      * split5.
        -- reflexivity.
        -- apply counts_kept_stats. now autorewrite with state.
        -- exists [x]. split; [reflexivity|]. apply Hone; [now autorewrite with state|exact Hno].
        -- eexists. split; [exact Hout|exact Hev].
        -- reflexivity.
      * split5.
        -- reflexivity.
        -- apply counts_kept_stats. now autorewrite with state.
        -- exists [x]. split; [reflexivity|]. apply Hone; [now autorewrite with state|exact Hno].
        -- eexists. split; [exact Hout|exact Hev].
        -- reflexivity.
    + unfold cursor; autorewrite with state. split5.
      * reflexivity.
      * apply counts_kept_stats. now autorewrite with state.
      * exists [x]. split; [reflexivity|]. apply Hone; [now autorewrite with state|].
        intros data' E. discriminate.
      * eexists. split; [exact Hout|exact Hev].
      * reflexivity.
Qed.

(** A call that is not left waiting has read at least one reply. *)
Lemma fetchMessages_reads net s :
  completion_of (fetchMessages net s) <> Awaiting ->
  (List.length (unread (fetchMessages net s)) < List.length net)%nat.
Proof.
  revert s. induction net as [|x net IH]; intros s.
  - rewrite fetchMessages_nil. autorewrite with state. congruence.
  - rewrite fetchMessages_cons. cbv zeta. intros H.
    destruct (reply x) as [status data|reason].
    + destruct (status =? 202); [apply IH in H; simpl; lia|].
      destruct (status =? 429); [apply IH in H; simpl; lia|].
      destruct (negb (ok status)); autorewrite with state; simpl; lia.
    + autorewrite with state. simpl. lia.
Qed.

(** ** One message *)

Lemma processMessage_skip message net s :
  selected (this s) message = false ->
  processMessage message net s = (Returned tt, s, net).
Proof.
  unfold selected, processMessage. intros H.
  destruct (Message.type message =? 3); [reflexivity|].
  simpl in H. now rewrite H.
Qed.

Lemma processMessage_selected message entry net s :
  selected (this s) message = true ->
  backupEntry message = Some entry ->
  processMessage message net s
  = match deleteMessage (Message.id message) net (attempted message entry s) with
    | (Returned _, s', net') =>
        (Returned tt, wait delayDelete (update (with_stats incr_delCount) s'), net')
    | (Thrown error, s', net') =>
        (Returned tt,
         update (with_stats incr_failCount)
                (writeToLog (ErrorDeleting (Message.id message) error) true s'),
         net')
    | (Awaiting, s', net') => (Awaiting, s', net')
    end.
Proof.
  unfold selected, processMessage, tryDelete. intros H Hentry.
  destruct (Message.type message =? 3); [discriminate|].
  simpl in H. rewrite H. rewrite (saveMessageContent_done _ _ _ Hentry).
  fold (announced message s). fold (attempted message entry s).
  now destruct (deleteMessage _ _ _) as [[[[]|error|] s'] net'].
Qed.

(** The turn of a selected message whose record cannot be built: the
    [catch] branch, from the state in which the progress line is logged. *)
Lemma processMessage_unrecorded message net s :
  selected (this s) message = true ->
  backupEntry message = None ->
  processMessage message net s
  = (Returned tt,
     update (with_stats incr_failCount)
            (writeToLog (ErrorDeleting (Message.id message) TypeError) true
                        (announced message s)),
     net).
Proof.
  unfold selected, processMessage, tryDelete. intros H Hentry.
  destruct (Message.type message =? 3); [discriminate|].
  simpl in H. rewrite H. now rewrite (saveMessageContent_raised _ _ Hentry).
Qed.

Lemma out_announced message s :
  out (announced message s)
  = out s ++ [Log false (Progress (Stats.delCount (stats s) + 1) (Stats.grandTotal (stats s))
                                  (Message.id message))].
Proof. reflexivity. Qed.

Lemma stats_announced message s : stats (announced message s) = stats s.
Proof. reflexivity. Qed.

Lemma this_announced message s : this (announced message s) = this s.
Proof. reflexivity. Qed.

Lemma now_announced message s : now (announced message s) = now s.
Proof. reflexivity. Qed.

Lemma out_attempted message entry s :
  out (attempted message entry s)
  = out s ++ [Log false (Progress (Stats.delCount (stats s) + 1) (Stats.grandTotal (stats s))
                                  (Message.id message));
              Backup entry].
Proof. unfold attempted. rewrite out_emit, out_announced. now rewrite <- app_assoc. Qed.

Lemma stats_attempted message entry s : stats (attempted message entry s) = stats s.
Proof. reflexivity. Qed.

Lemma this_attempted message entry s : this (attempted message entry s) = this s.
Proof. reflexivity. Qed.

Lemma now_attempted message entry s : now (attempted message entry s) = now s.
Proof. reflexivity. Qed.

#[local] Hint Rewrite out_announced stats_announced this_announced now_announced
  out_attempted stats_attempted this_attempted now_attempted : state.

Arguments announced : simpl never.
Arguments attempted : simpl never.

(** The events of the turn of a selected message whose record cannot be
    built. *)
Lemma out_unrecorded message s :
  out (update (with_stats incr_failCount)
              (writeToLog (ErrorDeleting (Message.id message) TypeError) true
                          (announced message s)))
  = out s ++ [Log false (Progress (Stats.delCount (stats s) + 1) (Stats.grandTotal (stats s))
                                  (Message.id message));
              Log true (ErrorDeleting (Message.id message) TypeError)].
Proof. autorewrite with state. now rewrite <- app_assoc. Qed.

Lemma delete_event_after_backup req e : delete_event req e -> after_backup req e.
Proof.
  destruct e as [b []| | | | | |]; simpl; try tauto; destruct b; tauto.
Qed.

(** What [deleteMessage] throws: the error of the status or that of the
    request, never a [TypeError]. *)
Lemma deleteMessage_throws messageId net s error s1 net1 :
  deleteMessage messageId net s = (Thrown error, s1, net1) -> error <> TypeError.
Proof.
  revert s. induction net as [|x net IH]; intros s.
  - rewrite deleteMessage_nil. discriminate.
  - rewrite deleteMessage_cons. cbv zeta.
    destruct (reply x) as [status data|reason].
    + destruct (status =? 429); [apply IH|].
      destruct (negb (ok status)); intros H; inversion H; discriminate.
    + intros H. inversion H. discriminate.
Qed.

(** The events of a turn on a selected message whose record is [entry],
    whatever comes of the delete call. *)
Lemma processMessage_attempt message entry net s :
  selected (this s) message = true ->
  backupEntry message = Some entry ->
  exists block,
    out (state_of (processMessage message net s)) = out s ++ block
    /\ attempt (this s) message entry block.
Proof.
  intros Hsel Hentry. rewrite (processMessage_selected _ _ _ _ Hsel Hentry).
  pose proof (deleteMessage_spec (Message.id message) net (attempted message entry s)) as Hspec.
  pose proof (deleteMessage_first (Message.id message) net (attempted message entry s)) as Hfirst.
  cbv zeta in Hspec. destruct Hspec as (_ & _ & _ & (evs & Hevs & Hall) & _).
  destruct Hfirst as (more & Hmore).
  rewrite this_attempted in Hall, Hmore.
  assert (Hin : exists t, In (Fetch t (deleteRequest (this s) (Message.id message))) evs).
  { rewrite Hevs in Hmore. apply app_inv_head in Hmore. subst evs.
    eexists. apply in_or_app. right. left. reflexivity. }
  assert (Hall' : Forall (after_backup (deleteRequest (this s) (Message.id message))) evs).
  { eapply Forall_impl; [|exact Hall]. apply delete_event_after_backup. }
  destruct Hin as [t Hin].
  pose proof (deleteMessage_throws (Message.id message) net (attempted message entry s)) as Hth.
  destruct (deleteMessage (Message.id message) net (attempted message entry s)) as [[c s'] net'].
  autorewrite with state in Hevs.
  destruct c as [[]|error|]; autorewrite with state; rewrite Hevs;
    rewrite <- ?app_assoc; simpl; eexists; (split; [reflexivity|]);
    do 3 eexists; (split; [reflexivity|]); split.
  - apply Forall_app. split; [exact Hall'|]. now repeat constructor.
  - exists t. apply in_or_app. now left.
  - apply Forall_app. split; [exact Hall'|]. repeat constructor.
    specialize (Hth error s' net' eq_refl). now destruct error.
  - exists t. apply in_or_app. now left.
  - exact Hall'.
  - exists t. exact Hin.
Qed.

Lemma selected_settings d d' message :
  settings d = settings d' -> selected d message = selected d' message.
Proof.
  destruct d, d'; unfold settings, selected; simpl. intros H. now injection H as -> -> ->.
Qed.

Lemma handled_settings d d' message block :
  settings d = settings d' -> handled d message block -> handled d' message block.
Proof.
  intros H. unfold handled, attempt.
  rewrite (selected_settings d d' message H), (deleteRequest_settings d d' _ H). tauto.
Qed.

Lemma handled_selected d message entry block :
  selected d message = true -> backupEntry message = Some entry ->
  attempt d message entry block -> handled d message block.
Proof. intros Hsel Hentry H. unfold handled. now rewrite Hsel, Hentry. Qed.

Lemma handled_unrecorded d message block :
  selected d message = true -> backupEntry message = None ->
  unrecorded message block -> handled d message block.
Proof. intros Hsel Hentry H. unfold handled. now rewrite Hsel, Hentry. Qed.

Lemma page_kept_refl s : page_kept s s.
Proof. repeat split. Qed.

Lemma page_kept_trans s1 s2 s3 : page_kept s1 s2 -> page_kept s2 s3 -> page_kept s1 s3.
Proof. unfold page_kept. intuition congruence. Qed.

Lemma delete_event_not_total req e : delete_event req e -> isTotalFound e = false.
Proof. destruct e as [b [] | | | | | |]; simpl; try tauto; destruct b; tauto. Qed.

Lemma search_event_not_total req e : search_event req e -> isTotalFound e = false.
Proof. destruct e as [b [] | | | | | |]; simpl; try tauto; destruct b; tauto. Qed.

Lemma processMessage_spec message net s :
  let r := processMessage message net s in
  (forall e, completion_of r <> Thrown e)
  /\ page_kept s (state_of r)
  /\ (exists consumed, net = consumed ++ unread r)
  /\ (exists block, out (state_of r) = out s ++ block
                    /\ handled (this s) message block
                    /\ Forall (fun e => isTotalFound e = false) block).
Proof.
  cbv zeta. destruct (selected (this s) message) eqn:Hsel;
    [destruct (backupEntry message) as [entry|] eqn:Hentry|].
  - destruct (processMessage_attempt message entry net s Hsel Hentry) as (block & Hout & Hatt).
    pose proof (handled_selected _ _ _ _ Hsel Hentry Hatt) as Hh.
    clear Hatt.
    rewrite (processMessage_selected _ _ _ _ Hsel Hentry) in *.
    pose proof (deleteMessage_spec (Message.id message) net (attempted message entry s)) as Hspec.
    cbv zeta in Hspec.
    destruct Hspec as (Hset & Hkept & (consumed & Hnet & _) & (evs & Hevs & Hall) & _).
    assert (Hnt : Forall (fun e => isTotalFound e = false) evs).
    { eapply Forall_impl; [|exact Hall]. apply delete_event_not_total. }
    destruct Hkept as (_ & _ & Hg & Hst).
    destruct (deleteMessage (Message.id message) net (attempted message entry s))
      as [[c s'] net'].
    autorewrite with state in *.
    assert (Hpk : page_kept s s') by (repeat split; assumption).
    destruct c as [[]|error|]; autorewrite with state in *.
    + split; [discriminate|]. split; [exact Hpk|]. split; [now exists consumed|].
      exists block. split; [exact Hout|]. split; [exact Hh|].
      rewrite Hevs, <- !app_assoc in Hout. apply app_inv_head in Hout. subst block.
      repeat (apply Forall_app; split); try assumption; now repeat constructor.
    + split; [discriminate|]. split; [exact Hpk|]. split; [now exists consumed|].
      exists block. split; [exact Hout|]. split; [exact Hh|].
      rewrite Hevs, <- !app_assoc in Hout. apply app_inv_head in Hout. subst block.
      repeat (apply Forall_app; split); try assumption; now repeat constructor.
    + split; [discriminate|]. split; [exact Hpk|]. split; [now exists consumed|].
      exists block. split; [exact Hout|]. split; [exact Hh|].
      rewrite Hevs, <- !app_assoc in Hout. apply app_inv_head in Hout. subst block.
      repeat (apply Forall_app; split); try assumption; now repeat constructor.
  - rewrite (processMessage_unrecorded _ _ _ Hsel Hentry).
    rewrite state_of_triple, completion_of_triple, unread_triple.
    split; [discriminate|]. split; [now repeat split|]. split; [now exists []|].
    eexists. split; [apply out_unrecorded|]. split; [|now repeat constructor].
    apply (handled_unrecorded _ _ _ Hsel Hentry). now do 2 eexists.
  - rewrite (processMessage_skip _ _ _ Hsel). autorewrite with state.
    split; [discriminate|]. split; [apply page_kept_refl|]. split; [now exists []|].
    exists []. split; [now rewrite app_nil_r|]. split; [|constructor].
    unfold handled. now rewrite Hsel.
Qed.

(** ** A page *)

Lemma page_events_nil d : page_events d [] [].
Proof. exists []. split; [constructor|reflexivity]. Qed.

Lemma page_events_one d message block :
  handled d message block -> page_events d [message] block.
Proof.
  intros H. exists [block]. split; [now repeat constructor|]. simpl. now rewrite app_nil_r.
Qed.

Lemma page_events_app d r1 r2 e1 e2 :
  page_events d r1 e1 -> page_events d r2 e2 -> page_events d (r1 ++ r2) (e1 ++ e2).
Proof.
  intros (b1 & H1 & ->) (b2 & H2 & ->). exists (b1 ++ b2). split.
  - now apply Forall2_app.
  - now rewrite concat_app.
Qed.

Lemma page_events_settings d d' reached events :
  settings d = settings d' -> page_events d reached events -> page_events d' reached events.
Proof.
  intros H (blocks & Hb & ->). exists blocks. split; [|reflexivity].
  eapply Forall2_impl; [|exact Hb]. intros a b. now apply handled_settings.
Qed.

Lemma loop_spec_nil net s : loop_spec [] net s (Returned tt, s, net).
Proof.
  unfold loop_spec. autorewrite with state.
  split; [discriminate|]. split; [apply page_kept_refl|]. split; [now exists []|].
  exists [], [], [].
  split5; [reflexivity|now rewrite app_nil_r|apply page_events_nil|constructor|reflexivity].
Qed.

(** Two loops one after the other. *)
Lemma loop_spec_seq all1 all2 net s (r1 r2 : Async unit) :
  loop_spec all1 net s r1 ->
  completion_of r1 = Returned tt ->
  loop_spec all2 (unread r1) (state_of r1) r2 ->
  loop_spec (all1 ++ all2) net s r2.
Proof.
  intros (_ & Hk1 & (c1 & Hn1) & (re1 & rest1 & ev1 & Ha1 & Ho1 & Hp1 & Ht1 & Hr1)) Hc1
         (Hth2 & Hk2 & (c2 & Hn2) & (re2 & rest2 & ev2 & Ha2 & Ho2 & Hp2 & Ht2 & Hr2)).
  assert (rest1 = []) as -> by (apply Hr1; rewrite Hc1; discriminate).
  rewrite app_nil_r in Ha1. subst all1.
  split; [exact Hth2|]. split; [eapply page_kept_trans; eassumption|].
  split; [exists (c1 ++ c2); rewrite <- app_assoc; congruence|].
  exists (re1 ++ re2), rest2, (ev1 ++ ev2). split5.
  - rewrite <- app_assoc. now f_equal.
  - rewrite Ho2, Ho1. now rewrite app_assoc.
  - apply page_events_app; [exact Hp1|].
    eapply page_events_settings; [|exact Hp2]. apply Hk1.
  - apply Forall_app. now split.
  - exact Hr2.
Qed.

(** A loop that stops in its first part because a reply is awaited. *)
Lemma loop_spec_awaiting all1 all2 net s (r1 : Async unit) :
  loop_spec all1 net s r1 ->
  completion_of r1 = Awaiting ->
  loop_spec (all1 ++ all2) net s r1.
Proof.
  intros (Hth & Hk1 & Hn1 & (re1 & rest1 & ev1 & Ha1 & Ho1 & Hp1 & Ht1 & Hr1)) Hc1.
  split; [exact Hth|]. split; [exact Hk1|]. split; [exact Hn1|].
  exists re1, (rest1 ++ all2), ev1. split5; try assumption.
  - rewrite app_assoc. now f_equal.
  - intros H. now rewrite Hc1 in H.
Qed.

Lemma processMessage_loop_spec message net s :
  loop_spec [message] net s (processMessage message net s).
Proof.
  destruct (processMessage_spec message net s) as (Hth & Hk & Hn & (block & Ho & Hh & Ht)).
  split; [exact Hth|]. split; [exact Hk|]. split; [exact Hn|].
  exists [message], [], block. split5; try assumption; try reflexivity.
  now apply page_events_one.
Qed.

Lemma processGroup_spec messageGroup net s :
  loop_spec messageGroup net s (processGroup messageGroup net s).
Proof.
  revert net s. induction messageGroup as [|message messageGroup IH]; intros net s.
  - apply loop_spec_nil.
  - simpl processGroup.
    pose proof (processMessage_loop_spec message net s) as H1.
    destruct (processMessage message net s) as [[c s1] net1] eqn:E.
    change (message :: messageGroup) with ([message] ++ messageGroup).
    destruct c as [[]|e|].
    + eapply loop_spec_seq; [exact H1|reflexivity|]. apply IH.
    + destruct H1 as (Hth & _). now destruct (Hth e).
    + now apply loop_spec_awaiting.
Qed.

Lemma processPage_spec messages net s :
  loop_spec (concat messages) net s (processPage messages net s).
Proof.
  revert net s. induction messages as [|messageGroup messages IH]; intros net s.
  - apply loop_spec_nil.
  - simpl processPage. simpl concat.
    pose proof (processGroup_spec messageGroup net s) as H1.
    destruct (processGroup messageGroup net s) as [[c s1] net1] eqn:E.
    destruct c as [[]|e|].
    + eapply loop_spec_seq; [exact H1|reflexivity|]. apply IH.
    + destruct H1 as (Hth & _). now destruct (Hth e).
    + now apply loop_spec_awaiting.
Qed.

(** ** The messages of a page *)

Lemma settings_latch result s : settings (this (latch result s)) = settings (this s).
Proof. unfold latch. destruct_if; reflexivity. Qed.

Lemma cursor_latch result s : cursor (latch result s) = cursor s.
Proof. unfold latch. destruct_if; reflexivity. Qed.

Lemma out_latch result s :
  out (latch result s)
  = out s ++ (if Stats.grandTotal (stats s) =? 0
              then [Log false (TotalFound (SearchResponse.total_results result))]
              else []).
Proof.
  unfold latch. destruct_if.
  - now autorewrite with state.
  - now rewrite app_nil_r.
Qed.

Lemma processResult_zero result net s :
  SearchResponse.total_results result = 0 ->
  processResult result net s = (Returned Break, latch result s, net).
Proof. unfold processResult. now intros ->. Qed.

Lemma processResult_page result net s :
  SearchResponse.total_results result <> 0 ->
  processResult result net s
  = match processPage (SearchResponse.messages result) net (latch result s) with
    | (Returned _, s', net') =>
        (Returned (if Stats.delCount (stats s') >=? Stats.grandTotal (stats s')
                   then Break else Continue),
         wait delaySearch s', net')
    | (Thrown e, s', net') => (Thrown e, s', net')
    | (Awaiting, s', net') => (Awaiting, s', net')
    end.
Proof.
  unfold processResult. intros H. apply Z.eqb_neq in H. rewrite H.
  destruct (processPage _ _ _) as [[[[]|e|] s'] net']; try reflexivity.
  autorewrite with state. now destruct_if.
Qed.

(** C1, as amended.  A search result whose [total_results] is 0 ends the
    turn at once: its page is not looked at, and nothing is written but, the
    first time, the log line of the total.  A search result whose
    [total_results] is not 0: the messages of its page are gone through in
    order, all of them unless a reply is awaited ([rest] is what is not
    reached yet), and the events are one block for each message reached.
    For a message that is not of type 3, is by the configured author and is
    a hit, the block is that of an attempt (its backup record and its delete
    call) if its record can be built; if it cannot, a [null] being among the
    attachments, the block is the progress line and the line of the error,
    with no backup record and no delete call.  For any other message there
    is no event at all.  After the page, the wait before the next search. *)
Theorem selected_messages_only :
  forall (result : SearchResponse.t) (net : list Exchange) (s : State),
    let r := processResult result net s in
    (SearchResponse.total_results result = 0 ->
     completion_of r = Returned Break
     /\ unread r = net
     /\ out (state_of r)
        = out s ++ (if Stats.grandTotal (stats s) =? 0
                    then [Log false (TotalFound 0)] else []))
    /\ (SearchResponse.total_results result <> 0 ->
        exists reached rest blocks tail,
          concat (SearchResponse.messages result) = reached ++ rest
          /\ (completion_of r <> Awaiting -> rest = [])
          /\ out (state_of r) = out (latch result s) ++ concat blocks ++ tail
          /\ Forall2 (fun message block =>
                        if selected (this s) message then
                          match backupEntry message with
                          | Some entry => attempt (this s) message entry block
                          | None => unrecorded message block
                          end
                        else block = [])
                     reached blocks
          /\ (tail = [] \/ tail = [Wait delaySearch])).
Proof.
  intros result net s. cbv zeta. split.
  { intros Hz. rewrite (processResult_zero _ _ _ Hz). autorewrite with state.
    split; [reflexivity|]. split; [reflexivity|]. now rewrite out_latch, Hz. }
  intros Hnz. rewrite (processResult_page _ _ _ Hnz).
  destruct (processPage_spec (SearchResponse.messages result) net (latch result s))
    as (Hth & _ & _ & (reached & rest & events & Hall & Hout & (blocks & Hb & ->) & _ & Hrest)).
  exists reached, rest, blocks.
  assert (Hb' : Forall2 (handled (this s)) reached blocks).
  { eapply Forall2_impl; [|exact Hb]. intros message block H.
    apply (handled_settings _ (this s)) in H; [exact H|apply settings_latch]. }
  destruct (processPage _ _ _) as [[c s'] net'].
  autorewrite with state in *.
  destruct c as [[]|e|]; autorewrite with state.
  - exists [Wait delaySearch]. rewrite Hout, <- app_assoc. split5; auto.
    intros _. apply Hrest. discriminate.
  - now destruct (Hth e).
  - exists []. rewrite Hout, app_nil_r. split5; auto.
Qed.

(** C1, counterexample.  A search result that reports [total_results = 0]
    and yet carries a message that passes the three tests: the loop ends on
    the total, before the page is looked at, so the message is neither backed
    up nor deleted. *)
Lemma zero_total_page_not_processed :
  let message := plain "m1" in
  let result := SearchResponse.mk 0 [[message]] in
  let r := run sampleEnv [answered 200 (mkBody 0 result)] 5000 in
  In message (concat (SearchResponse.messages result))
  /\ selected (this fresh) message = true
  /\ completion_of r = Returned tt
  /\ filter (fun e => isBackup e || isDeleteCall e) (out (state_of r)) = [].
Proof.
  cbv zeta. split; [now left|]. split; [reflexivity|]. split; vm_compute; reflexivity.
Qed.

Lemma selected_messages_only_witness :
  let result := SearchResponse.mk 3 [[pinned "m2"; broken "m9"; plain "m3"]] in
  let net := [answered 204 (retryIn 0)] in
  SearchResponse.total_results result <> 0
  /\ exists reached rest blocks tail,
      concat (SearchResponse.messages result) = reached ++ rest
      /\ (completion_of (processResult result net fresh) <> Awaiting -> rest = [])
      /\ out (state_of (processResult result net fresh))
         = out (latch result fresh) ++ concat blocks ++ tail
      /\ Forall2 (fun message block =>
                    if selected (this fresh) message then
                      match backupEntry message with
                      | Some entry => attempt (this fresh) message entry block
                      | None => unrecorded message block
                      end
                    else block = [])
                 reached blocks
      /\ (tail = [] \/ tail = [Wait delaySearch]).
Proof.
  cbv zeta. split; [discriminate|].
  apply (proj2 (selected_messages_only
                  (SearchResponse.mk 3 [[pinned "m2"; broken "m9"; plain "m3"]])
                  [answered 204 (retryIn 0)] fresh)).
  discriminate.
Defined.

(** ** The loop *)

Lemma processResult_unread result net s :
  (List.length (unread (processResult result net s)) <= List.length net)%nat.
Proof.
  destruct (Z.eq_dec (SearchResponse.total_results result) 0) as [Hz|Hnz].
  - rewrite (processResult_zero _ _ _ Hz). autorewrite with state. lia.
  - rewrite (processResult_page _ _ _ Hnz).
    destruct (processPage_spec (SearchResponse.messages result) net (latch result s))
      as (_ & _ & (consumed & Hnet) & _).
    destruct (processPage _ _ _) as [[c s'] net'].
    autorewrite with state in Hnet.
    assert (List.length net' <= List.length net)%nat by (rewrite Hnet, length_app; lia).
    destruct c as [[]|e|]; now autorewrite with state.
Qed.

Lemma loopBody_returned net s result s1 net1 :
  fetchMessages net s = (Returned result, s1, net1) ->
  loopBody net s = processResult result net1 s1.
Proof. unfold loopBody. now intros ->. Qed.

Lemma loopBody_thrown net s error s1 net1 :
  fetchMessages net s = (Thrown error, s1, net1) ->
  loopBody net s = (Thrown error, s1, net1).
Proof. unfold loopBody. now intros ->. Qed.

Lemma loopBody_awaiting net s s1 net1 :
  fetchMessages net s = (Awaiting, s1, net1) ->
  loopBody net s = (Awaiting, s1, net1).
Proof. unfold loopBody. now intros ->. Qed.

(** A turn that is not left waiting has read at least one reply. *)
Lemma loopBody_reads net s :
  completion_of (loopBody net s) <> Awaiting ->
  (List.length (unread (loopBody net s)) < List.length net)%nat.
Proof.
  pose proof (fetchMessages_reads net s) as Hf.
  destruct (fetchMessages net s) as [[c s1] net1] eqn:E.
  autorewrite with state in Hf.
  destruct c as [result|e|].
  - rewrite (loopBody_returned _ _ _ _ _ E). intros _.
    pose proof (processResult_unread result net1 s1).
    assert (List.length net1 < List.length net)%nat by (apply Hf; discriminate). lia.
  - rewrite (loopBody_thrown _ _ _ _ _ E). autorewrite with state. intros _.
    apply Hf. discriminate.
  - rewrite (loopBody_awaiting _ _ _ _ E). autorewrite with state. congruence.
Qed.

(** The bound of [loop] is never reached, and any larger bound gives the
    same result. *)
Lemma whileTrue_total turns net s :
  (List.length net < turns)%nat ->
  exists r, whileTrue turns net s = Some r
            /\ forall turns', (List.length net < turns')%nat -> whileTrue turns' net s = Some r.
Proof.
  revert net s. induction turns as [|turns IH]; intros net s Hlt; [lia|].
  pose proof (loopBody_reads net s) as Hr.
  simpl whileTrue. destruct (loopBody net s) as [[c s1] net1] eqn:E.
  autorewrite with state in Hr.
  destruct c as [[|]|e|].
  - eexists. split; [reflexivity|]. intros [|turns'] H; [lia|]. simpl. now rewrite E.
  - assert (Hlt1 : (List.length net1 < List.length net)%nat) by (apply Hr; discriminate).
    destruct (IH net1 s1) as (r & Hr1 & Hr2); [lia|].
    exists r. split; [exact Hr1|]. intros [|turns'] H; [lia|]. simpl. rewrite E.
    apply Hr2. lia.
  - eexists. split; [reflexivity|]. intros [|turns'] H; [lia|]. simpl. now rewrite E.
  - eexists. split; [reflexivity|]. intros [|turns'] H; [lia|]. simpl. now rewrite E.
Qed.

(** [loop] is [while (true)]: it does a turn and, if the turn says so, goes
    round again. *)
Lemma loop_unfold net s :
  loop net s
  = match loopBody net s with
    | (Returned Continue, s1, net1) => loop net1 s1
    | (Returned Break, s1, net1) => (Returned tt, s1, net1)
    | (Thrown e, s1, net1) => (Thrown e, s1, net1)
    | (Awaiting, s1, net1) => (Awaiting, s1, net1)
    end.
Proof.
  unfold loop at 1. simpl whileTrue.
  pose proof (loopBody_reads net s) as Hr.
  destruct (loopBody net s) as [[c s1] net1] eqn:E.
  autorewrite with state in Hr.
  destruct c as [[|]|e|]; try reflexivity.
  assert (Hlt1 : (List.length net1 < List.length net)%nat) by (apply Hr; discriminate).
  destruct (whileTrue_total (List.length net) net1 s1 Hlt1) as (r & Hr1 & Hr2).
  rewrite Hr1. unfold loop. rewrite (Hr2 (S (List.length net1))); [reflexivity|lia].
Qed.

(** Induction on the turns of the loop. *)
Lemma loop_induction (P : list Exchange -> State -> Async unit -> Prop) :
  (forall net s s1 net1,
      loopBody net s = (Returned Break, s1, net1) -> P net s (Returned tt, s1, net1)) ->
  (forall net s e s1 net1,
      loopBody net s = (Thrown e, s1, net1) -> P net s (Thrown e, s1, net1)) ->
  (forall net s s1 net1,
      loopBody net s = (Awaiting, s1, net1) -> P net s (Awaiting, s1, net1)) ->
  (forall net s s1 net1 r,
      loopBody net s = (Returned Continue, s1, net1) -> P net1 s1 r -> P net s r) ->
  forall net s, P net s (loop net s).
Proof.
  intros Hbreak Hthrow Hawait Hnext net.
  remember (List.length net) as n eqn:Hn. revert net Hn.
  induction n as [n IH] using lt_wf_ind. intros net Hn s.
  rewrite loop_unfold.
  pose proof (loopBody_reads net s) as Hr.
  destruct (loopBody net s) as [[c s1] net1] eqn:E.
  autorewrite with state in Hr.
  destruct c as [[|]|e|].
  - now apply Hbreak.
  - apply (Hnext net s s1 net1); [exact E|].
    apply (IH (List.length net1)); [|reflexivity].
    subst n. apply Hr. discriminate.
  - now apply Hthrow.
  - now apply Hawait.
Qed.

Lemma loop_turns net s net' s' : Turns net s net' s' -> loop net s = loop net' s'.
Proof.
  induction 1 as [|net s net1 s1 net' s' E _ IH]; [reflexivity|].
  rewrite loop_unfold, E. exact IH.
Qed.

(** How the loop ends: at the first turn that does not go round again. *)
Lemma loop_ends net s :
  exists netk sk,
    Turns net s netk sk
    /\ match loopBody netk sk with
       | (Returned Continue, _, _) => False
       | (Returned Break, s1, net1) => loop net s = (Returned tt, s1, net1)
       | (Thrown e, s1, net1) => loop net s = (Thrown e, s1, net1)
       | (Awaiting, s1, net1) => loop net s = (Awaiting, s1, net1)
       end.
Proof.
  apply (loop_induction
           (fun net s r =>
              exists netk sk,
                Turns net s netk sk
                /\ match loopBody netk sk with
                   | (Returned Continue, _, _) => False
                   | (Returned Break, s1, net1) => r = (Returned tt, s1, net1)
                   | (Thrown e, s1, net1) => r = (Thrown e, s1, net1)
                   | (Awaiting, s1, net1) => r = (Awaiting, s1, net1)
                   end)).
  - intros net0 s0 s1 net1 E. exists net0, s0. split; [constructor|]. now rewrite E.
  - intros net0 s0 e s1 net1 E. exists net0, s0. split; [constructor|]. now rewrite E.
  - intros net0 s0 s1 net1 E. exists net0, s0. split; [constructor|]. now rewrite E.
  - intros net0 s0 s1 net1 r E (netk & sk & Ht & Hk). exists netk, sk.
    split; [eapply Turns_next; eassumption|exact Hk].
Qed.

(** ** When the loop ends *)

Lemma out_printSummary s :
  out (printSummary s)
  = out s ++ [Log false (Summary (now s)
                                 (msToHMS (now s - Stats.startTime (stats s)))
                                 (msToHMS (Stats.throttledTotalTime (stats s)))
                                 (Stats.throttledCount (stats s))
                                 (Stats.delCount (stats s))
                                 (Stats.failCount (stats s)))].
Proof. reflexivity. Qed.

(** One turn, once the search has returned [result]. *)
Lemma turn_breaks net s result s1 net1 c s2 net2 :
  fetchMessages net s = (Returned result, s1, net1) ->
  loopBody net s = (Returned c, s2, net2) ->
  (c = Break <->
   SearchResponse.total_results result = 0
   \/ Stats.grandTotal (stats s2) <= Stats.delCount (stats s2))
  /\ (SearchResponse.total_results result = 0 -> s2 = latch result s1 /\ net2 = net1)
  /\ (SearchResponse.total_results result <> 0 ->
      exists s', processPage (SearchResponse.messages result) net1 (latch result s1)
                 = (Returned tt, s', net2)
                 /\ s2 = wait delaySearch s').
Proof.
  intros Hf Hb. rewrite (loopBody_returned _ _ _ _ _ Hf) in Hb.
  destruct (Z.eq_dec (SearchResponse.total_results result) 0) as [Hz|Hnz].
  - rewrite (processResult_zero _ _ _ Hz) in Hb. injection Hb as <- <- <-.
    split; [tauto|]. split; [tauto|]. intros H. now destruct H.
  - rewrite (processResult_page _ _ _ Hnz) in Hb.
    destruct (processPage _ _ _) as [[[[]|e|] s'] net'] eqn:E; try discriminate.
    injection Hb as <- <- <-. autorewrite with state.
    split; [|split; [tauto|intros _; now exists s']].
    destruct (Stats.delCount (stats s') >=? Stats.grandTotal (stats s')) eqn:Hc.
    + split; [|reflexivity]. intros _. right. apply Z.geb_le in Hc. lia.
    + split; [discriminate|]. intros [H|H]; [contradiction|].
      assert (Hge : (Stats.delCount (stats s') >=? Stats.grandTotal (stats s')) = true)
        by (apply Z.geb_le; lia).
      congruence.
Qed.

Lemma loop_returns net s s' net' :
  loop net s = (Returned tt, s', net') <->
  exists netk sk, Turns net s netk sk /\ loopBody netk sk = (Returned Break, s', net').
Proof.
  split.
  - intros H. destruct (loop_ends net s) as (netk & sk & Ht & Hk).
    exists netk, sk. split; [exact Ht|].
    destruct (loopBody netk sk) as [[[[|]|e|] s1] net1]; try contradiction;
      rewrite Hk in H; try discriminate.
    now injection H as -> ->.
  - intros (netk & sk & Ht & Hk). rewrite (loop_turns _ _ _ _ Ht), loop_unfold. now rewrite Hk.
Qed.

Lemma loopBody_throws net s e s' net' :
  loopBody net s = (Thrown e, s', net') <-> fetchMessages net s = (Thrown e, s', net').
Proof.
  split; [|apply loopBody_thrown].
  unfold loopBody. destruct (fetchMessages net s) as [[[result|e1|] s1] net1] eqn:E;
    try (intros H; now inversion H).
  intros H.
  destruct (Z.eq_dec (SearchResponse.total_results result) 0) as [Hz|Hnz].
  - rewrite (processResult_zero _ _ _ Hz) in H. discriminate.
  - rewrite (processResult_page _ _ _ Hnz) in H.
    destruct (processPage_spec (SearchResponse.messages result) net1 (latch result s1))
      as (Hth & _).
    destruct (processPage _ _ _) as [[[[]|e2|] s2] net2]; try discriminate.
    now destruct (Hth e2).
Qed.

Lemma loop_throws net s e s' net' :
  loop net s = (Thrown e, s', net') <->
  exists netk sk, Turns net s netk sk /\ fetchMessages netk sk = (Thrown e, s', net').
Proof.
  split.
  - intros H. destruct (loop_ends net s) as (netk & sk & Ht & Hk).
    exists netk, sk. split; [exact Ht|]. apply loopBody_throws.
    destruct (loopBody netk sk) as [[[[|]|e1|] s1] net1]; try contradiction;
      rewrite Hk in H; try discriminate.
    now injection H as -> -> ->.
  - intros (netk & sk & Ht & Hk). rewrite (loop_turns _ _ _ _ Ht), loop_unfold.
    now rewrite (loopBody_thrown _ _ _ _ _ Hk).
Qed.

Lemma deleteMessages_returned net s s' net' :
  loop net (entered s) = (Returned tt, s', net') ->
  deleteMessages net s = (Returned tt, printSummary s', net').
Proof. unfold deleteMessages, entered. cbv zeta. now intros ->. Qed.

Lemma deleteMessages_thrown net s error s' net' :
  loop net (entered s) = (Thrown error, s', net') ->
  deleteMessages net s
  = (Thrown error, printSummary (writeToLog (ErrorProcessing error) true s'), net').
Proof. unfold deleteMessages, entered. cbv zeta. now intros ->. Qed.

(** C4. In a turn whose search returned [result], the loop is left ([Break])
    exactly when [total_results] is 0 or, the page gone through, the deleted
    count has reached the latched total; with a total of 0 the page is not
    looked at ([latch] logs at most the total).  The loop returns exactly
    when, after turns that all went round again, a turn says [Break], and it
    returns in the state that turn ended in; [deleteMessages] then only
    prints the summary.  The one other way out of the loop is a search that
    throws. *)
Theorem loop_ends_on_zero_or_done :
  forall (net : list Exchange) (s : State),
    (forall result s1 net1 c s2 net2,
        fetchMessages net s = (Returned result, s1, net1) ->
        loopBody net s = (Returned c, s2, net2) ->
        (c = Break <->
         SearchResponse.total_results result = 0
         \/ Stats.grandTotal (stats s2) <= Stats.delCount (stats s2))
        /\ (SearchResponse.total_results result = 0 ->
            net2 = net1
            /\ out s2 = out s1 ++ (if Stats.grandTotal (stats s1) =? 0
                                   then [Log false (TotalFound 0)] else []))
        /\ (SearchResponse.total_results result <> 0 ->
            exists s', processPage (SearchResponse.messages result) net1 (latch result s1)
                       = (Returned tt, s', net2)
                       /\ s2 = wait delaySearch s'))
    /\ (forall s' net',
           loop net s = (Returned tt, s', net') <->
           exists netk sk,
             Turns net s netk sk /\ loopBody netk sk = (Returned Break, s', net'))
    /\ (forall e s' net',
           loop net s = (Thrown e, s', net') <->
           exists netk sk,
             Turns net s netk sk /\ fetchMessages netk sk = (Thrown e, s', net'))
    /\ (forall s' net',
           loop net (entered s) = (Returned tt, s', net') ->
           exists summary,
             deleteMessages net s = (Returned tt, emit (Log false summary) s', net')).
Proof.
  intros net s. split; [|split; [|split]].
  - intros result s1 net1 c s2 net2 Hf Hb.
    destruct (turn_breaks _ _ _ _ _ _ _ _ Hf Hb) as (H1 & H2 & H3).
    split; [exact H1|]. split; [|exact H3].
    intros Hz. destruct (H2 Hz) as [-> ->]. split; [reflexivity|].
    now rewrite out_latch, Hz.
  - intros s' net'. apply loop_returns.
  - intros e s' net'. apply loop_throws.
  - intros s' net' H. eexists. rewrite (deleteMessages_returned _ _ _ _ H). reflexivity.
Qed.

Lemma loop_ends_on_zero_or_done_witness :
  let net := [answered 200 (page 1 [[plain "m1"]]); answered 204 (retryIn 0)] in
  let s := entered fresh in
  exists netk sk,
    Turns net s netk sk
    /\ loopBody netk sk = (Returned Break, state_of (loop net s), unread (loop net s)).
Proof.
  cbv zeta.
  apply (proj1 (proj2 (loop_ends_on_zero_or_done
                         [answered 200 (page 1 [[plain "m1"]]); answered 204 (retryIn 0)]
                         (entered fresh)))).
  vm_compute. reflexivity.
Defined.

(** ** Errors *)

(** A delete call that throws, seen from the turn of its message. *)
Lemma processMessage_failed message entry net s error s1 net1 :
  selected (this s) message = true ->
  backupEntry message = Some entry ->
  deleteMessage (Message.id message) net (attempted message entry s)
  = (Thrown error, s1, net1) ->
  processMessage message net s
  = (Returned tt,
     update (with_stats incr_failCount)
            (writeToLog (ErrorDeleting (Message.id message) error) true s1),
     net1).
Proof.
  intros Hsel Hentry Hd. now rewrite (processMessage_selected _ _ _ _ Hsel Hentry), Hd.
Qed.

Lemma deleteMessage_thrown_frame messageId net s error s1 net1 :
  deleteMessage messageId net s = (Thrown error, s1, net1) ->
  cursor s1 = cursor s
  /\ counts_kept s s1
  /\ exists consumed, net = consumed ++ net1 /\ throttled_by consumed s s1.
Proof.
  intros H. pose proof (deleteMessage_spec messageId net s) as Hspec.
  cbv zeta in Hspec. rewrite H in Hspec. autorewrite with state in Hspec.
  tauto.
Qed.

(** C10. An attempt whose delete call throws, the call being made once
    the backup record [entry] of the message is written: after the turn of
    the message the cursor and the deleted count are what they were, and so
    are the latched total and the start time; the failed count is one more;
    the throttle counters are up by the replies 429 that the call read
    before the reply that made it throw, and by nothing else.  The other
    attempt that ends in failure is that of a message whose record cannot
    be built; the delete call is not made then, no reply is read, and of the
    statistics the failed count alone changes, by one. *)
Theorem failed_delete_changes_failCount_only :
  (forall (message : Message.t) (entry : BackupEntry) (net : list Exchange) (s : State)
          (error : Error) (s1 : State) (net1 : list Exchange),
      selected (this s) message = true ->
      backupEntry message = Some entry ->
      deleteMessage (Message.id message) net (attempted message entry s)
      = (Thrown error, s1, net1) ->
      let s2 := state_of (processMessage message net s) in
      cursor s2 = cursor s
      /\ Stats.delCount (stats s2) = Stats.delCount (stats s)
      /\ Stats.failCount (stats s2) = Stats.failCount (stats s) + 1
      /\ Stats.grandTotal (stats s2) = Stats.grandTotal (stats s)
      /\ Stats.startTime (stats s2) = Stats.startTime (stats s)
      /\ exists consumed,
          net = consumed ++ net1
          /\ Stats.throttledCount (stats s2)
             = Stats.throttledCount (stats s) + Z.of_nat (List.length (throttles consumed))
          /\ Stats.throttledTotalTime (stats s2)
             = Stats.throttledTotalTime (stats s) + total (throttles consumed))
  /\ (forall (message : Message.t) (net : list Exchange) (s : State),
         selected (this s) message = true ->
         backupEntry message = None ->
         let r := processMessage message net s in
         unread r = net
         /\ cursor (state_of r) = cursor s
         /\ stats (state_of r) = incr_failCount (stats s)).
Proof.
  split.
  - intros message entry net s error s1 net1 Hsel Hentry Hd. cbv zeta.
    rewrite (processMessage_failed _ _ _ _ _ _ _ Hsel Hentry Hd). autorewrite with state.
    destruct (deleteMessage_thrown_frame _ _ _ _ _ _ Hd)
      as (Hcur & (Hdel & Hfail & Hg & Hst) & consumed & Hnet & Hcount & Htime).
    autorewrite with state in *. unfold cursor in *. autorewrite with state in *.
    simpl. repeat split; try congruence.
    exists consumed. repeat split; assumption.
  - intros message net s Hsel Hentry. cbv zeta.
    rewrite (processMessage_unrecorded _ _ _ Hsel Hentry). now repeat split.
Qed.

Lemma failed_delete_changes_failCount_only_witness :
  let message := plain "m5" in
  let net := [answered 429 (retryIn 5000); answered 403 (retryIn 0)] in
  let s2 := state_of (processMessage message net fresh) in
  (selected (this fresh) message = true
   /\ cursor s2 = cursor fresh
   /\ Stats.delCount (stats s2) = Stats.delCount (stats fresh)
   /\ Stats.failCount (stats s2) = Stats.failCount (stats fresh) + 1
   /\ Stats.grandTotal (stats s2) = Stats.grandTotal (stats fresh)
   /\ Stats.startTime (stats s2) = Stats.startTime (stats fresh)
   /\ exists consumed,
       net = consumed ++ []
       /\ Stats.throttledCount (stats s2)
          = Stats.throttledCount (stats fresh) + Z.of_nat (List.length (throttles consumed))
       /\ Stats.throttledTotalTime (stats s2)
          = Stats.throttledTotalTime (stats fresh) + total (throttles consumed))
  /\ (backupEntry (broken "m9") = None
      /\ stats (state_of (processMessage (broken "m9") net fresh))
         = incr_failCount (stats fresh)).
Proof.
  cbv zeta. split.
  - split; [reflexivity|].
    eapply (proj1 failed_delete_changes_failCount_only (plain "m5") (plainEntry "m5")
              [answered 429 (retryIn 5000); answered 403 (retryIn 0)] fresh).
    + reflexivity.
    + reflexivity.
    + vm_compute. reflexivity.
  - split; [reflexivity|].
    apply (proj2 failed_delete_changes_failCount_only (broken "m9")
             [answered 429 (retryIn 5000); answered 403 (retryIn 0)] fresh); reflexivity.
Defined.

Lemma loop_thrown net s netk sk error s1 net1 :
  Turns net s netk sk ->
  fetchMessages netk sk = (Thrown error, s1, net1) ->
  loop net s = (Thrown error, s1, net1).
Proof.
  intros Ht Hf. rewrite (loop_turns _ _ _ _ Ht), loop_unfold.
  now rewrite (loopBody_thrown _ _ _ _ _ Hf).
Qed.

(** C6. A delete call that throws does not stop the session: the turn of
    its message returns, having logged the error to the error log and
    counted one failure, the deleted count being what it was, and the loop
    over the group goes on with the next message; no loop over a page ever
    throws.  A search that throws, in whatever turn of the loop, ends the
    session: [deleteMessages] logs the error to the error log, prints the
    summary, which is the last line and reports the time and the counters
    of the state in which the search threw, and throws the same error to
    its caller; nothing else is written and the statistics are not
    changed. *)
Theorem delete_errors_counted_search_errors_fatal :
  (forall (message : Message.t) (entry : BackupEntry) (messageGroup : list Message.t)
          (net : list Exchange) (s : State) (error : Error) (s1 : State)
          (net1 : list Exchange),
      selected (this s) message = true ->
      backupEntry message = Some entry ->
      deleteMessage (Message.id message) net (attempted message entry s)
      = (Thrown error, s1, net1) ->
      exists s2,
        processMessage message net s = (Returned tt, s2, net1)
        /\ out s2 = out s1 ++ [Log true (ErrorDeleting (Message.id message) error)]
        /\ Stats.failCount (stats s2) = Stats.failCount (stats s) + 1
        /\ Stats.delCount (stats s2) = Stats.delCount (stats s)
        /\ processGroup (message :: messageGroup) net s = processGroup messageGroup net1 s2)
  /\ (forall (messages : list (list Message.t)) (net : list Exchange) (s : State) (error : Error),
         completion_of (processPage messages net s) <> Thrown error)
  /\ (forall (net : list Exchange) (s : State) (netk : list Exchange) (sk : State)
             (error : Error) (s1 : State) (net1 : list Exchange),
         Turns net (entered s) netk sk ->
         fetchMessages netk sk = (Thrown error, s1, net1) ->
         exists s2,
           deleteMessages net s = (Thrown error, s2, net1)
           /\ out s2
              = out s1
                ++ [Log true (ErrorProcessing error);
                    Log false (Summary (now s1)
                                       (msToHMS (now s1 - Stats.startTime (stats s1)))
                                       (msToHMS (Stats.throttledTotalTime (stats s1)))
                                       (Stats.throttledCount (stats s1))
                                       (Stats.delCount (stats s1))
                                       (Stats.failCount (stats s1)))]
           /\ stats s2 = stats s1
           /\ now s2 = now s1).
Proof.
  split; [|split].
  - intros message entry messageGroup net s error s1 net1 Hsel Hentry Hd.
    pose proof (processMessage_failed _ _ _ _ _ _ _ Hsel Hentry Hd) as Hp.
    destruct (deleteMessage_thrown_frame _ _ _ _ _ _ Hd) as (_ & (Hdel & Hfail & _) & _).
    autorewrite with state in Hdel, Hfail.
    eexists. split; [exact Hp|]. autorewrite with state. simpl.
    split; [reflexivity|]. split; [congruence|]. split; [congruence|].
    simpl processGroup. now rewrite Hp.
  - intros messages net s error. apply (processPage_spec messages net s).
  - intros net s netk sk error s1 net1 Ht Hf. eexists.
    rewrite (deleteMessages_thrown _ _ _ _ _ (loop_thrown _ _ _ _ _ _ _ Ht Hf)).
    split; [reflexivity|]. split; [|now split].
    rewrite out_printSummary, out_writeToLog, <- app_assoc. reflexivity.
Qed.

Lemma delete_errors_counted_search_errors_fatal_witness :
  let message := plain "m5" in
  (exists s2,
      processMessage message [answered 403 (retryIn 0)] fresh = (Returned tt, s2, [])
      /\ Stats.failCount (stats s2) = Stats.failCount (stats fresh) + 1
      /\ Stats.delCount (stats s2) = Stats.delCount (stats fresh))
  /\ (exists s2,
         deleteMessages [answered 500 (retryIn 0)] fresh = (Thrown (ApiStatus 500), s2, [])
         /\ skipn 9 (out s2)
            = [Log true (ErrorProcessing (ApiStatus 500));
               Log false (Summary 5020 (0, 0, 0) (0, 0, 0) 0 0 0)]).
Proof.
  cbv zeta. split.
  - destruct (proj1 delete_errors_counted_search_errors_fatal
                (plain "m5") (plainEntry "m5") [] [answered 403 (retryIn 0)] fresh
                (DeleteFailed "m5" 403)
                (replied (fun d => deleteRequest d "m5") (answered 403 (retryIn 0))
                         (attempted (plain "m5") (plainEntry "m5") fresh))
                [] eq_refl eq_refl eq_refl)
      as (s2 & Hp & _ & Hfail & Hdel & _).
    exists s2. repeat split; assumption.
  - destruct (proj2 (proj2 delete_errors_counted_search_errors_fatal)
                [answered 500 (retryIn 0)] fresh
                [answered 500 (retryIn 0)] (entered fresh)
                (ApiStatus 500)
                (replied searchRequest (answered 500 (retryIn 0)) (entered fresh))
                [] (Turns_here _ _) eq_refl)
      as (s2 & H & Ho & _).
    exists s2. split; [exact H|]. rewrite Ho. vm_compute. reflexivity.
Defined.

(** ** The cursor follows the deletions *)

Lemma latest_app c l1 l2 : latest c (l1 ++ l2) = latest (latest c l1) l2.
Proof.
  revert c. induction l1 as [|e l1 IH]; intros c; [reflexivity|].
  destruct e as [b []| | | | | |]; simpl; apply IH.
Qed.

Lemma cursor_followed_app c l1 l2 :
  cursor_followed c (l1 ++ l2) <-> cursor_followed c l1 /\ cursor_followed (latest c l1) l2.
Proof.
  revert c. induction l1 as [|e l1 IH]; intros c; [simpl; tauto|].
  destruct e as [b []| | | |t []| |]; simpl; rewrite ?IH; tauto.
Qed.

Lemma neutral_events c events :
  forallb neutral events = true -> cursor_followed c events /\ latest c events = c.
Proof.
  induction events as [|e events IH]; [now split|].
  simpl. intros H. apply andb_prop in H. destruct H as [He H]. specialize (IH H).
  destruct e as [b []| | | |t []| |]; simpl in *; try discriminate; exact IH.
Qed.

Lemma tracks_refl s : tracks s s.
Proof. exists []. rewrite app_nil_r. now repeat split. Qed.

Lemma tracks_trans s1 s2 s3 : tracks s1 s2 -> tracks s2 s3 -> tracks s1 s3.
Proof.
  intros (e1 & Ho1 & Hf1 & Hc1) (e2 & Ho2 & Hf2 & Hc2).
  exists (e1 ++ e2). split; [|split].
  - now rewrite Ho2, Ho1, app_assoc.
  - apply cursor_followed_app. split; [exact Hf1|]. now rewrite <- Hc1.
  - now rewrite latest_app, <- Hc1.
Qed.

Lemma tracks_neutral s s' events :
  out s' = out s ++ events ->
  forallb neutral events = true ->
  cursor s' = cursor s ->
  tracks s s'.
Proof.
  intros Ho Hn Hc. destruct (neutral_events (cursor s) events Hn) as [Hf Hl].
  exists events. split; [exact Ho|]. split; [exact Hf|]. congruence.
Qed.

Lemma search_events_followed c req events :
  (forall t, cursor_followed c [Fetch t req]) ->
  Forall (search_event req) events ->
  cursor_followed c events /\ latest c events = c.
Proof.
  intros Hreq. induction 1 as [|e events He _ IH]; [now split|].
  destruct e as [b []| | | |t q| |]; simpl in He |- *; try contradiction; try exact IH;
    try (destruct b; try contradiction; exact IH).
  subst q. specialize (Hreq t). destruct req; simpl in *; [|exact IH].
  split; [split; [apply Hreq|apply IH]|apply IH].
Qed.

Lemma fetchMessages_tracks net s : tracks s (state_of (fetchMessages net s)).
Proof.
  destruct (fetchMessages_spec net s) as (_ & _ & _ & (events & Ho & Hall) & Hc).
  destruct (search_events_followed (cursor s) (searchRequest (this s)) events)
    as [Hf Hl]; [|exact Hall|].
  - intros t. simpl. now split.
  - exists events. split; [exact Ho|]. split; [exact Hf|]. congruence.
Qed.

Lemma gate_neutral s : forallb neutral (gate s) = true.
Proof. unfold gate. destruct_if; reflexivity. Qed.

Lemma replied_delete_tracks messageId x s :
  tracks s (replied (fun d => deleteRequest d messageId) x s).
Proof.
  eapply tracks_neutral.
  - apply (out_replied (fun d => deleteRequest d messageId) x s).
    intros s0. apply enforceRateLimit_deleteRequest.
  - rewrite forallb_app, gate_neutral. reflexivity.
  - unfold cursor. now autorewrite with state.
Qed.

Lemma deleteMessage_tracks messageId net s :
  tracks s (state_of (deleteMessage messageId net s)).
Proof.
  revert s. induction net as [|x net IH]; intros s.
  - rewrite deleteMessage_nil. autorewrite with state.
    eapply tracks_neutral.
    + autorewrite with state. rewrite <- app_assoc. reflexivity.
    + rewrite forallb_app, gate_neutral. reflexivity.
    + unfold cursor. now autorewrite with state.
  - rewrite deleteMessage_cons. cbv zeta.
    pose proof (replied_delete_tracks messageId x s) as Hr.
    destruct (reply x) as [status data|reason].
    + destruct (status =? 429).
      { eapply tracks_trans; [exact Hr|]. eapply tracks_trans; [|apply IH].
        eapply tracks_neutral.
        - apply out_backoff.
        - reflexivity.
        - unfold cursor. now autorewrite with state. }
      destruct (negb (ok status)); autorewrite with state; [exact Hr|].
      eapply tracks_trans; [exact Hr|].
      exists [Log false (Deleted messageId)]. unfold cursor. autorewrite with state.
      split; [reflexivity|]. split; [exact I|reflexivity].
    + autorewrite with state. exact Hr.
Qed.

Lemma processMessage_tracks message net s :
  tracks s (state_of (processMessage message net s)).
Proof.
  destruct (selected (this s) message) eqn:Hsel;
    [destruct (backupEntry message) as [entry|] eqn:Hentry|].
  - rewrite (processMessage_selected _ _ _ _ Hsel Hentry).
    pose proof (deleteMessage_tracks (Message.id message) net (attempted message entry s)) as Hd.
    assert (Ha : tracks s (attempted message entry s)).
    { eapply tracks_neutral; [apply out_attempted|reflexivity|reflexivity]. }
    destruct (deleteMessage _ _ _) as [[c s'] net'].
    autorewrite with state in Hd.
    destruct c as [[]|error|]; autorewrite with state.
    + eapply tracks_trans; [exact Ha|]. eapply tracks_trans; [exact Hd|].
      eapply tracks_neutral; [now autorewrite with state|reflexivity|reflexivity].
    + eapply tracks_trans; [exact Ha|]. eapply tracks_trans; [exact Hd|].
      eapply tracks_neutral; [now autorewrite with state|reflexivity|reflexivity].
    + eapply tracks_trans; eassumption.
  - rewrite (processMessage_unrecorded _ _ _ Hsel Hentry), state_of_triple.
    eapply tracks_neutral; [apply out_unrecorded|reflexivity|reflexivity].
  - rewrite (processMessage_skip _ _ _ Hsel). autorewrite with state. apply tracks_refl.
Qed.

Lemma processGroup_tracks messageGroup net s :
  tracks s (state_of (processGroup messageGroup net s)).
Proof.
  revert net s. induction messageGroup as [|message messageGroup IH]; intros net s.
  - apply tracks_refl.
  - simpl processGroup. pose proof (processMessage_tracks message net s) as H.
    destruct (processMessage message net s) as [[[[]|e|] s1] net1];
      autorewrite with state in *; try exact H.
    eapply tracks_trans; [exact H|apply IH].
Qed.

Lemma processPage_tracks messages net s :
  tracks s (state_of (processPage messages net s)).
Proof.
  revert net s. induction messages as [|messageGroup messages IH]; intros net s.
  - apply tracks_refl.
  - simpl processPage. pose proof (processGroup_tracks messageGroup net s) as H.
    destruct (processGroup messageGroup net s) as [[[[]|e|] s1] net1];
      autorewrite with state in *; try exact H.
    eapply tracks_trans; [exact H|apply IH].
Qed.

Lemma latch_tracks result s : tracks s (latch result s).
Proof.
  eapply tracks_neutral; [apply out_latch| |apply cursor_latch].
  destruct_if; reflexivity.
Qed.

Lemma processResult_tracks result net s :
  tracks s (state_of (processResult result net s)).
Proof.
  destruct (Z.eq_dec (SearchResponse.total_results result) 0) as [Hz|Hnz].
  - rewrite (processResult_zero _ _ _ Hz). autorewrite with state. apply latch_tracks.
  - rewrite (processResult_page _ _ _ Hnz).
    pose proof (processPage_tracks (SearchResponse.messages result) net (latch result s)) as H.
    destruct (processPage _ _ _) as [[[[]|e|] s1] net1]; autorewrite with state in *.
    + eapply tracks_trans; [apply latch_tracks|]. eapply tracks_trans; [exact H|].
      eapply tracks_neutral; [apply out_wait|reflexivity|reflexivity].
    + eapply tracks_trans; [apply latch_tracks|exact H].
    + eapply tracks_trans; [apply latch_tracks|exact H].
Qed.

Lemma loopBody_tracks net s : tracks s (state_of (loopBody net s)).
Proof.
  pose proof (fetchMessages_tracks net s) as H. unfold loopBody.
  destruct (fetchMessages net s) as [[[result|e|] s1] net1]; autorewrite with state in *;
    try exact H.
  eapply tracks_trans; [exact H|apply processResult_tracks].
Qed.

Lemma loop_tracks net s : tracks s (state_of (loop net s)).
Proof.
  apply (loop_induction (fun net s r => tracks s (state_of r))).
  - intros net0 s0 s1 net1 E. pose proof (loopBody_tracks net0 s0) as H. now rewrite E in H.
  - intros net0 s0 e s1 net1 E. pose proof (loopBody_tracks net0 s0) as H. now rewrite E in H.
  - intros net0 s0 s1 net1 E. pose proof (loopBody_tracks net0 s0) as H. now rewrite E in H.
  - intros net0 s0 s1 net1 r E IH. pose proof (loopBody_tracks net0 s0) as H.
    rewrite E in H. eapply tracks_trans; eassumption.
Qed.

Lemma deleteMessages_tracks net s : tracks s (state_of (deleteMessages net s)).
Proof.
  pose proof (loop_tracks net (entered s)) as H.
  assert (He : tracks s (entered s)).
  { eapply tracks_neutral; [apply out_writeToLog|reflexivity|reflexivity]. }
  unfold deleteMessages. cbv zeta. fold (entered s).
  destruct (loop net (entered s)) as [[[[]|e|] s1] net1]; autorewrite with state in *.
  - eapply tracks_trans; [exact He|]. eapply tracks_trans; [exact H|].
    eapply tracks_neutral; [apply out_printSummary|reflexivity|reflexivity].
  - eapply tracks_trans; [exact He|]. eapply tracks_trans; [exact H|].
    eapply tracks_neutral;
      [rewrite out_printSummary, out_writeToLog, <- app_assoc; reflexivity
      |reflexivity|reflexivity].
  - eapply tracks_trans; eassumption.
Qed.

(** C5, counterexample.  A message whose identifier is the empty string is
    deleted: the cursor is that identifier, and the next search request has
    no [max_id]. *)
Lemma empty_id_gives_no_max_id :
  let env := mkEnv (Some "token") (Some "1001") (Some "2002") (Some "900") in
  let r := run env [answered 200 (page 2 [[plain ""]]); answered 204 (retryIn 0)] 5000 in
  In (Log false (Deleted "")) (out (state_of r))
  /\ cursor (state_of r) = Some ""
  /\ filter isFetch (out (state_of r))
     = [Fetch 5000 (SearchRequest (Some "2002") (Some "1001") (Some "900") (Some "token"));
        Fetch 6000 (DeleteRequest (Some "2002") "" (Some "token"));
        Fetch 8520 (SearchRequest (Some "2002") (Some "1001") None (Some "token"))].
Proof.
  cbv zeta. split; [|split].
  - vm_compute. tauto.
  - vm_compute. reflexivity.
  - vm_compute. reflexivity.
Qed.

Lemma constructor_neutral authToken authorId channelId beforeMessageId t0 :
  forallb neutral (out (constructor authToken authorId channelId beforeMessageId t0)) = true
  /\ cursor (constructor authToken authorId channelId beforeMessageId t0) = beforeMessageId.
Proof.
  destruct beforeMessageId as [[|a b]|]; split; reflexivity.
Qed.

(** C5, as amended.  A delete call that returns leaves the cursor at the
    identifier of the message it deleted; one that throws or is left
    waiting leaves the cursor where it was.  In every run, each search
    request has for [max_id] the identifier of the message deleted last
    before it (the configured cursor if none was) when that is a non-empty
    string, and no [max_id] when it is empty or there is none
    ([cursor_followed]); and the cursor of the object is that identifier. *)
Theorem cursor_follows_deletions :
  (forall (messageId : string) (net : list Exchange) (s : State),
      cursor (state_of (deleteMessage messageId net s))
      = match completion_of (deleteMessage messageId net s) with
        | Returned _ => Some messageId
        | _ => cursor s
        end)
  /\ (forall (env : Env) (net : list Exchange) (t0 : Z),
         let r := run env net t0 in
         cursor_followed (DISCORD_BEFORE_MESSAGE_ID env) (out (state_of r))
         /\ cursor (state_of r) = latest (DISCORD_BEFORE_MESSAGE_ID env) (out (state_of r))).
Proof.
  split.
  - intros messageId net s. apply (deleteMessage_spec messageId net s).
  - intros env net t0. cbv zeta. unfold run.
    destruct (constructor_neutral (DISCORD_AUTH_TOKEN env) (DISCORD_AUTHOR_ID env)
                (DISCORD_CHANNEL_ID env) (DISCORD_BEFORE_MESSAGE_ID env) t0) as [Hn Hc].
    set (s0 := constructor _ _ _ _ _) in *.
    destruct (deleteMessages_tracks net s0) as (events & Ho & Hf & Hl).
    destruct (neutral_events (DISCORD_BEFORE_MESSAGE_ID env) (out s0) Hn) as [Hf0 Hl0].
    rewrite Ho. rewrite Hc in Hf, Hl. split.
    + apply cursor_followed_app. split; [exact Hf0|]. now rewrite Hl0.
    + now rewrite latest_app, Hl0.
Qed.

(** ** The total is latched once *)

Lemma keeps_total_refl s : keeps_total s s.
Proof. exists []. rewrite app_nil_r. now repeat split. Qed.

Lemma keeps_total_trans s1 s2 s3 : keeps_total s1 s2 -> keeps_total s2 s3 -> keeps_total s1 s3.
Proof.
  intros (e1 & Ho1 & Hf1 & Hg1) (e2 & Ho2 & Hf2 & Hg2).
  exists (e1 ++ e2). split; [|split].
  - now rewrite Ho2, Ho1, app_assoc.
  - now rewrite filter_app, Hf1, Hf2.
  - congruence.
Qed.

Lemma filter_none {A} (f : A -> bool) l : Forall (fun a => f a = false) l -> filter f l = [].
Proof.
  induction 1 as [|a l Ha _ IH]; [reflexivity|]. simpl. now rewrite Ha.
Qed.

Lemma fetchMessages_keeps_total net s : keeps_total s (state_of (fetchMessages net s)).
Proof.
  destruct (fetchMessages_spec net s) as (_ & (_ & _ & Hg & _) & _ & (events & Ho & Hall) & _).
  exists events. split; [exact Ho|]. split; [|exact Hg].
  apply filter_none. eapply Forall_impl; [|exact Hall]. apply search_event_not_total.
Qed.

Lemma processPage_keeps_total messages net s :
  keeps_total s (state_of (processPage messages net s)).
Proof.
  destruct (processPage_spec messages net s)
    as (_ & (_ & Hg & _) & _ & (reached & rest & events & _ & Ho & _ & Hall & _)).
  exists events. split; [exact Ho|]. split; [|exact Hg]. now apply filter_none.
Qed.

Lemma latch_fixed result s : Stats.grandTotal (stats s) <> 0 -> latch result s = s.
Proof. unfold latch. intros H. apply Z.eqb_neq in H. now rewrite H. Qed.

(** What follows [latch] in a turn. *)
Lemma processResult_after_latch result net s :
  keeps_total (latch result s) (state_of (processResult result net s)).
Proof.
  destruct (Z.eq_dec (SearchResponse.total_results result) 0) as [Hz|Hnz].
  - rewrite (processResult_zero _ _ _ Hz). autorewrite with state. apply keeps_total_refl.
  - rewrite (processResult_page _ _ _ Hnz).
    pose proof (processPage_keeps_total (SearchResponse.messages result) net (latch result s))
      as H.
    destruct (processPage _ _ _) as [[[[]|e|] s1] net1]; autorewrite with state in *;
      try exact H.
    eapply keeps_total_trans; [exact H|].
    exists [Wait delaySearch]. now repeat split.
Qed.

Lemma loopBody_keeps_total net s :
  Stats.grandTotal (stats s) <> 0 -> keeps_total s (state_of (loopBody net s)).
Proof.
  intros Hnz. pose proof (fetchMessages_keeps_total net s) as H. unfold loopBody.
  destruct (fetchMessages net s) as [[[result|e|] s1] net1]; autorewrite with state in *;
    try exact H.
  eapply keeps_total_trans; [exact H|].
  pose proof (processResult_after_latch result net1 s1) as H1.
  rewrite latch_fixed in H1; [exact H1|].
  destruct H as (_ & _ & _ & Hg). now rewrite Hg.
Qed.

Lemma loop_keeps_total net s :
  Stats.grandTotal (stats s) <> 0 -> keeps_total s (state_of (loop net s)).
Proof.
  apply (loop_induction
           (fun net s r => Stats.grandTotal (stats s) <> 0 -> keeps_total s (state_of r))).
  - intros net0 s0 s1 net1 E Hnz. pose proof (loopBody_keeps_total net0 s0 Hnz) as H.
    now rewrite E in H.
  - intros net0 s0 e s1 net1 E Hnz. pose proof (loopBody_keeps_total net0 s0 Hnz) as H.
    now rewrite E in H.
  - intros net0 s0 s1 net1 E Hnz. pose proof (loopBody_keeps_total net0 s0 Hnz) as H.
    now rewrite E in H.
  - intros net0 s0 s1 net1 r E IH Hnz. pose proof (loopBody_keeps_total net0 s0 Hnz) as H.
    rewrite E in H. autorewrite with state in H.
    eapply keeps_total_trans; [exact H|]. apply IH.
    destruct H as (_ & _ & _ & Hg). now rewrite Hg.
Qed.

(** The loop entered with no total yet: the first search result gives it. *)
Lemma loop_latches net s :
  Stats.grandTotal (stats s) = 0 ->
  exists events,
    out (state_of (loop net s)) = out s ++ events
    /\ match fetchMessages net s with
       | (Returned result, _, _) =>
           filter isTotalFound events
           = [Log false (TotalFound (SearchResponse.total_results result))]
           /\ Stats.grandTotal (stats (state_of (loop net s)))
              = SearchResponse.total_results result
       | _ =>
           filter isTotalFound events = []
           /\ Stats.grandTotal (stats (state_of (loop net s))) = 0
       end.
Proof.
  intros Hz. rewrite loop_unfold.
  pose proof (fetchMessages_keeps_total net s) as Hf. unfold loopBody.
  destruct (fetchMessages net s) as [[[result|e|] s1] net1]; autorewrite with state in Hf;
    destruct Hf as (ev1 & Ho1 & Hq1 & Hg1).
  - assert (Hz1 : Stats.grandTotal (stats s1) = 0) by congruence.
    pose proof (processResult_after_latch result net1 s1) as (ev2 & Ho2 & Hq2 & Hg2).
    assert (Hgl : Stats.grandTotal (stats (latch result s1))
                  = SearchResponse.total_results result).
    { unfold latch. rewrite Hz1. reflexivity. }
    assert (Hol : out (latch result s1)
                  = out s1 ++ [Log false (TotalFound (SearchResponse.total_results result))]).
    { rewrite out_latch, Hz1. reflexivity. }
    assert (Hturn : out (state_of (processResult result net1 s1))
                    = out s ++ ev1
                      ++ [Log false (TotalFound (SearchResponse.total_results result))] ++ ev2).
    { rewrite Ho2, Hol, Ho1. now rewrite <- !app_assoc. }
    assert (Hqturn : filter isTotalFound
                       (ev1 ++ [Log false (TotalFound (SearchResponse.total_results result))]
                            ++ ev2)
                     = [Log false (TotalFound (SearchResponse.total_results result))]).
    { rewrite !filter_app, Hq1, Hq2. reflexivity. }
    destruct (processResult result net1 s1) as [[c s2] net2] eqn:E.
    autorewrite with state in *.
    destruct c as [[|]|e|]; cbv beta iota; autorewrite with state;
      try (eexists; split; [exact Hturn|]; split; [exact Hqturn|congruence]).
    destruct (Z.eq_dec (SearchResponse.total_results result) 0) as [Hr|Hr].
    + rewrite (processResult_zero _ _ _ Hr) in E. discriminate.
    + assert (Hnz2 : Stats.grandTotal (stats s2) <> 0) by congruence.
      destruct (loop_keeps_total net2 s2 Hnz2) as (ev3 & Ho3 & Hq3 & Hg3).
      eexists. split; [rewrite Ho3, Hturn, <- !app_assoc; reflexivity|].
      split; [|congruence].
      rewrite !filter_app in *. rewrite Hq1, Hq3 in *. simpl in *.
      rewrite Hq2. reflexivity.
  - cbv beta iota. autorewrite with state.
    exists ev1. split; [exact Ho1|]. split; [exact Hq1|congruence].
  - cbv beta iota. autorewrite with state.
    exists ev1. split; [exact Ho1|]. split; [exact Hq1|congruence].
Qed.

Lemma begun_fresh env t0 :
  filter isTotalFound (out (begun env t0)) = []
  /\ Stats.grandTotal (stats (begun env t0)) = 0.
Proof.
  unfold begun. destruct (DISCORD_BEFORE_MESSAGE_ID env) as [[|a b]|]; split; reflexivity.
Qed.

Lemma run_begun env net t0 :
  run env net t0
  = match loop net (begun env t0) with
    | (Returned _, s, net') => (Returned tt, printSummary s, net')
    | (Thrown error, s, net') =>
        (Thrown error, printSummary (writeToLog (ErrorProcessing error) true s), net')
    | (Awaiting, s, net') => (Awaiting, s, net')
    end.
Proof. reflexivity. Qed.

(** C9.  Once [grandTotal] is not 0, no search result is latched: [latch]
    does nothing, whatever total the result reports, and the loop neither
    assigns [grandTotal] nor logs a total again.  In a run, [grandTotal] is
    assigned exactly once if the first search returns a result, from that
    result's [total_results] (the log line of the assignment appears once,
    with that value), and it has that value at the end; the first search
    result is the only one if its total is 0, since the loop ends there.  If
    the first search does not return, [grandTotal] is never assigned. *)
Theorem grandTotal_latched_once :
  (forall (result : SearchResponse.t) (s : State),
      Stats.grandTotal (stats s) <> 0 -> latch result s = s)
  /\ (forall (net : list Exchange) (s : State),
         Stats.grandTotal (stats s) <> 0 ->
         exists events,
           out (state_of (loop net s)) = out s ++ events
           /\ filter isTotalFound events = []
           /\ Stats.grandTotal (stats (state_of (loop net s))) = Stats.grandTotal (stats s))
  /\ (forall (env : Env) (net : list Exchange) (t0 : Z),
         let r := run env net t0 in
         match fetchMessages net (begun env t0) with
         | (Returned result, _, _) =>
             filter isTotalFound (out (state_of r))
             = [Log false (TotalFound (SearchResponse.total_results result))]
             /\ Stats.grandTotal (stats (state_of r)) = SearchResponse.total_results result
         | _ =>
             filter isTotalFound (out (state_of r)) = []
             /\ Stats.grandTotal (stats (state_of r)) = 0
         end).
Proof.
  split; [|split].
  - apply latch_fixed.
  - apply loop_keeps_total.
  - intros env net t0. cbv zeta. rewrite run_begun.
    destruct (begun_fresh env t0) as [Hq0 Hg0].
    destruct (loop_latches net (begun env t0) Hg0) as (events & Ho & H).
    assert (Hend : forall s' tail,
               out s' = out (state_of (loop net (begun env t0))) ++ tail ->
               filter isTotalFound tail = [] ->
               stats s' = stats (state_of (loop net (begun env t0))) ->
               match fetchMessages net (begun env t0) with
               | (Returned result, _, _) =>
                   filter isTotalFound (out s')
                   = [Log false (TotalFound (SearchResponse.total_results result))]
                   /\ Stats.grandTotal (stats s') = SearchResponse.total_results result
               | _ =>
                   filter isTotalFound (out s') = []
                   /\ Stats.grandTotal (stats s') = 0
               end).
    { intros s' tail Ho' Hq' Hs'. rewrite Ho', Ho, Hs', !filter_app, Hq0, Hq'.
      destruct (fetchMessages net (begun env t0)) as [[[result|e|] s1] net1];
        destruct H as [-> ->]; split; reflexivity. }
    destruct (loop net (begun env t0)) as [[[[]|e|] s1] net1]; autorewrite with state in *.
    + apply (Hend _ [Log false (Summary (now s1)
                                 (msToHMS (now s1 - Stats.startTime (stats s1)))
                                 (msToHMS (Stats.throttledTotalTime (stats s1)))
                                 (Stats.throttledCount (stats s1))
                                 (Stats.delCount (stats s1))
                                 (Stats.failCount (stats s1)))]); reflexivity.
    + apply (Hend _ [Log true (ErrorProcessing e);
                     Log false (Summary (now s1)
                                 (msToHMS (now s1 - Stats.startTime (stats s1)))
                                 (msToHMS (Stats.throttledTotalTime (stats s1)))
                                 (Stats.throttledCount (stats s1))
                                 (Stats.delCount (stats s1))
                                 (Stats.failCount (stats s1)))]); try reflexivity.
      rewrite out_printSummary, out_writeToLog, <- app_assoc. reflexivity.
    + apply (Hend _ []); try reflexivity. now rewrite app_nil_r.
Qed.

Lemma grandTotal_latched_once_witness :
  let net := [answered 200 (page 1 [[plain "m1"]]); answered 500 (retryIn 0);
              answered 200 (page 7 [[plain "m1"]])] in
  let s := state_of (loopBody net (begun sampleEnv 5000)) in
  Stats.grandTotal (stats s) <> 0
  /\ exists events,
      out (state_of (loop [answered 200 (page 7 [[plain "m0"]])] s)) = out s ++ events
      /\ filter isTotalFound events = []
      /\ Stats.grandTotal (stats (state_of (loop [answered 200 (page 7 [[plain "m0"]])] s)))
         = Stats.grandTotal (stats s).
Proof.
  cbv zeta. split; [vm_compute; discriminate|].
  apply (proj1 (proj2 grandTotal_latched_once)).
  vm_compute. discriminate.
Defined.

(** ** The process *)

(** C7, counterexample.  The first search is answered 500: the error escapes
    [deleteMessages], is printed by the handler of [run().catch], and the
    process ends with status 0. *)
Lemma fatal_error_exits_zero :
  let r := run sampleEnv [answered 500 (retryIn 0)] 5000 in
  completion_of r = Thrown (ApiStatus 500)
  /\ main sampleEnv [answered 500 (retryIn 0)] 5000
     = (out (state_of r) ++ [FatalError (ApiStatus 500)], Some 0).
Proof. cbv zeta. split; vm_compute; reflexivity. Qed.

(** C7, as amended.  An error that escapes the session is printed on the
    console by the handler, after the summary, and the process ends with
    status 0, nothing having set another; a session that returns has
    printed the summary last and the process ends with status 0 as well.
    While a reply is awaited the process has not ended. *)
Theorem fatal_error_logged_exit_status_zero :
  forall (env : Env) (net : list Exchange) (t0 : Z),
    let r := run env net t0 in
    match completion_of r with
    | Thrown error =>
        main env net t0 = (out (state_of r) ++ [FatalError error], Some 0)
        /\ exists s1, state_of r = printSummary (writeToLog (ErrorProcessing error) true s1)
    | Returned _ =>
        main env net t0 = (out (state_of r), Some 0)
        /\ exists s1, state_of r = printSummary s1
    | Awaiting => main env net t0 = (out (state_of r), None)
    end.
Proof.
  intros env net t0. cbv zeta. unfold main. rewrite run_begun.
  destruct (loop net (begun env t0)) as [[[[]|e|] s1] net1]; autorewrite with state.
  - split; [reflexivity|now exists s1].
  - split; [reflexivity|now exists s1].
  - reflexivity.
Qed.

(** The loop starts with a search request. *)
Lemma loop_first net s :
  exists more,
    out (state_of (loop net s))
    = out s ++ gate s ++ Fetch (now (enforceRateLimit s)) (searchRequest (this s)) :: more.
Proof.
  destruct (fetchMessages_first net s) as (more & Hf).
  assert (Hb : exists more1,
             out (state_of (loopBody net s)) = out (state_of (fetchMessages net s)) ++ more1).
  { unfold loopBody. destruct (fetchMessages net s) as [[[result|e|] s1] net1];
      autorewrite with state; try (exists []; now rewrite app_nil_r).
    destruct (processResult_tracks result net1 s1) as (events & Ho & _). now exists events. }
  destruct Hb as (more1 & Hb).
  assert (Hl : exists more2, out (state_of (loop net s)) = out (state_of (loopBody net s)) ++ more2).
  { rewrite loop_unfold. destruct (loopBody net s) as [[[[|]|e|] s1] net1];
      autorewrite with state; try (exists []; now rewrite app_nil_r).
    destruct (loop_tracks net1 s1) as (events & Ho & _). now exists events. }
  destruct Hl as (more2 & Hl).
  exists (more ++ more1 ++ more2). rewrite Hl, Hb, Hf, <- !app_assoc. simpl. reflexivity.
Qed.

(** Whatever [process.env] holds, [run] constructs the object and the
    session starts with a search request made of the settings as they are:
    a variable that is not set is passed on as [undefined] ([None]) in the
    request.  No setting is checked. *)
Lemma session_starts_whatever_the_settings :
  forall (env : Env) (net : list Exchange) (t0 : Z),
    exists t max_id,
      In (Fetch t (SearchRequest (DISCORD_CHANNEL_ID env) (DISCORD_AUTHOR_ID env) max_id
                                 (DISCORD_AUTH_TOKEN env)))
         (out (state_of (run env net t0))).
Proof.
  intros env net t0.
  destruct (loop_first net (begun env t0)) as (more & Hl).
  assert (Hreq : exists max_id,
             searchRequest (this (begun env t0))
             = SearchRequest (DISCORD_CHANNEL_ID env) (DISCORD_AUTHOR_ID env) max_id
                             (DISCORD_AUTH_TOKEN env)).
  { unfold begun. destruct (DISCORD_BEFORE_MESSAGE_ID env) as [[|a b]|];
      eexists; reflexivity. }
  destruct Hreq as (max_id & Hreq). rewrite Hreq in Hl.
  exists (now (enforceRateLimit (begun env t0))), max_id.
  rewrite run_begun.
  destruct (loop net (begun env t0)) as [[[[]|e|] s1] net1]; autorewrite with state in *.
  - rewrite out_printSummary, Hl. apply in_or_app. left.
    apply in_or_app. right. apply in_or_app. right. now left.
  - rewrite out_printSummary, out_writeToLog, Hl. apply in_or_app. left.
    apply in_or_app. left. apply in_or_app. right. apply in_or_app. right. now left.
  - rewrite Hl. apply in_or_app. right. apply in_or_app. right. now left.
Qed.

(** C8.  The code at an environment where [DISCORD_AUTH_TOKEN] is not set:
    no configuration error is raised; the object is constructed, the session
    starts and the search request goes out with an undefined
    [Authorization].  Here the API answers 401, and that API error is what
    ends the session. *)
Example unset_token_still_searches :
  let env := mkEnv None (Some "1001") (Some "2002") None in
  let r := run env [answered 401 (retryIn 0)] 5000 in
  filter isFetch (out (state_of r))
  = [Fetch 5000 (SearchRequest (Some "2002") (Some "1001") None None)]
  /\ completion_of r = Thrown (ApiStatus 401)
  /\ main env [answered 401 (retryIn 0)] 5000
     = (out (state_of r) ++ [FatalError (ApiStatus 401)], Some 0).
Proof. cbv zeta. repeat split; vm_compute; reflexivity. Qed.

(** ** Backup, then delete, in a whole run *)

Lemma last_backup_app last l1 l2 :
  last_backup last (l1 ++ l2) = last_backup (last_backup last l1) l2.
Proof.
  revert last. induction l1 as [|e l1 IH]; intros last; [reflexivity|].
  destruct e; simpl; apply IH.
Qed.

Lemma deletes_backed_up_app last l1 l2 :
  deletes_backed_up last (l1 ++ l2)
  <-> deletes_backed_up last l1 /\ deletes_backed_up (last_backup last l1) l2.
Proof.
  revert last. induction l1 as [|e l1 IH]; intros last; [simpl; tauto|].
  destruct e as [| | | |t []| |]; simpl; rewrite ?IH; tauto.
Qed.

Lemma orderly_nil : orderly [].
Proof. split; [intros last; exact I|reflexivity]. Qed.

Lemma orderly_app l1 l2 : orderly l1 -> orderly l2 -> orderly (l1 ++ l2).
Proof.
  intros [H1 C1] [H2 C2]. split.
  - intros last. apply deletes_backed_up_app. split; [apply H1|apply H2].
  - rewrite !filter_app, !length_app. lia.
Qed.

Lemma orderly_bystanders events : forallb bystander events = true -> orderly events.
Proof.
  induction events as [|e events IH]; [intros _; apply orderly_nil|].
  simpl. intros H. apply andb_prop in H. destruct H as [He H].
  destruct (IH H) as [Hd Hc].
  assert (Hb : isBackup e = false /\ isDeleteCall e = false
               /\ isProgress e = false /\ isUnrecorded e = false).
  { unfold bystander in He. apply negb_true_iff in He.
    apply orb_false_iff in He. destruct He as [He H4].
    apply orb_false_iff in He. destruct He as [He H3].
    apply orb_false_iff in He. destruct He as [H1 H2]. auto. }
  destruct Hb as (H1 & H2 & H3 & H4). split.
  - intros last. destruct e as [b l| | | |t []| |]; try discriminate; apply Hd.
  - cbn [filter]. rewrite H1, H3, H4. exact Hc.
Qed.

Lemma search_events_bystanders d events :
  Forall (search_event (searchRequest d)) events -> forallb bystander events = true.
Proof.
  induction 1 as [|e events He _ IH]; [reflexivity|].
  simpl. rewrite IH, andb_true_r.
  destruct e as [b []| | | |t q| |]; simpl in *; try contradiction; try reflexivity;
    try (destruct b; contradiction).
  now subst q.
Qed.

(** What follows a backup record has no other record, no progress line,
    and only delete calls for the message of the record. *)
Lemma after_backup_orderly channelId messageId authorization post :
  Forall (after_backup (DeleteRequest channelId messageId authorization)) post ->
  deletes_backed_up (Some messageId) post
  /\ filter isBackup post = []
  /\ filter isProgress post = []
  /\ filter isUnrecorded post = [].
Proof.
  induction 1 as [|e post He _ IH]; [now repeat split|].
  destruct IH as (Hd & Hb & Hp & Hu).
  destruct e as [b [| | | | | | | | | | | | |? []| | |]| | | |t []| |];
    simpl in *; try contradiction; try discriminate; try (now repeat split).
  injection He as _ -> _. now repeat split.
Qed.

Lemma attempt_orderly d message entry block :
  backupEntry message = Some entry -> attempt d message entry block -> orderly block.
Proof.
  intros Hentry (nth & grandTotal & post & -> & Hall & _).
  destruct (after_backup_orderly _ _ _ _ Hall) as (Hd & Hb & Hp & Hu).
  split.
  - intros last. cbn [deletes_backed_up]. rewrite (backupEntry_id _ _ Hentry). exact Hd.
  - simpl. now rewrite Hb, Hp, Hu.
Qed.

Lemma unrecorded_orderly message block : unrecorded message block -> orderly block.
Proof. intros (nth & grandTotal & ->). split; [intros last; now simpl|reflexivity]. Qed.

Lemma page_events_orderly d reached events : page_events d reached events -> orderly events.
Proof.
  intros (blocks & Hb & ->). induction Hb as [|message block reached blocks Hh _ IH].
  - apply orderly_nil.
  - simpl. apply orderly_app; [|exact IH].
    unfold handled in Hh. destruct (selected d message);
      [destruct (backupEntry message) as [entry|] eqn:Hentry|].
    + eapply attempt_orderly; [exact Hentry|exact Hh].
    + eapply unrecorded_orderly. exact Hh.
    + subst block. apply orderly_nil.
Qed.

Lemma keeps_order_refl s : keeps_order s s.
Proof. exists []. split; [now rewrite app_nil_r|apply orderly_nil]. Qed.

Lemma keeps_order_trans s1 s2 s3 : keeps_order s1 s2 -> keeps_order s2 s3 -> keeps_order s1 s3.
Proof.
  intros (e1 & Ho1 & H1) (e2 & Ho2 & H2). exists (e1 ++ e2).
  split; [now rewrite Ho2, Ho1, app_assoc|now apply orderly_app].
Qed.

Lemma keeps_order_bystanders s s' events :
  out s' = out s ++ events -> forallb bystander events = true -> keeps_order s s'.
Proof. intros Ho H. exists events. split; [exact Ho|now apply orderly_bystanders]. Qed.

Lemma fetchMessages_keeps_order net s : keeps_order s (state_of (fetchMessages net s)).
Proof.
  destruct (fetchMessages_spec net s) as (_ & _ & _ & (events & Ho & Hall) & _).
  eapply keeps_order_bystanders; [exact Ho|]. eapply search_events_bystanders. exact Hall.
Qed.

Lemma processPage_keeps_order messages net s :
  keeps_order s (state_of (processPage messages net s)).
Proof.
  destruct (processPage_spec messages net s)
    as (_ & _ & _ & (reached & rest & events & _ & Ho & Hp & _)).
  exists events. split; [exact Ho|]. eapply page_events_orderly. exact Hp.
Qed.

Lemma latch_keeps_order result s : keeps_order s (latch result s).
Proof.
  eapply keeps_order_bystanders; [apply out_latch|]. destruct_if; reflexivity.
Qed.

Lemma processResult_keeps_order result net s :
  keeps_order s (state_of (processResult result net s)).
Proof.
  destruct (Z.eq_dec (SearchResponse.total_results result) 0) as [Hz|Hnz].
  - rewrite (processResult_zero _ _ _ Hz). autorewrite with state. apply latch_keeps_order.
  - rewrite (processResult_page _ _ _ Hnz).
    pose proof (processPage_keeps_order (SearchResponse.messages result) net (latch result s))
      as H.
    pose proof (latch_keeps_order result s) as Hl.
    destruct (processPage _ _ _) as [[[[]|e|] s1] net1]; autorewrite with state in *.
    + eapply keeps_order_trans; [exact Hl|]. eapply keeps_order_trans; [exact H|].
      eapply keeps_order_bystanders; [apply out_wait|reflexivity].
    + eapply keeps_order_trans; eassumption.
    + eapply keeps_order_trans; eassumption.
Qed.

Lemma loopBody_keeps_order net s : keeps_order s (state_of (loopBody net s)).
Proof.
  pose proof (fetchMessages_keeps_order net s) as H. unfold loopBody.
  destruct (fetchMessages net s) as [[[result|e|] s1] net1]; autorewrite with state in *;
    try exact H.
  eapply keeps_order_trans; [exact H|apply processResult_keeps_order].
Qed.

Lemma loop_keeps_order net s : keeps_order s (state_of (loop net s)).
Proof.
  apply (loop_induction (fun net s r => keeps_order s (state_of r))).
  - intros net0 s0 s1 net1 E. pose proof (loopBody_keeps_order net0 s0) as H.
    now rewrite E in H.
  - intros net0 s0 e s1 net1 E. pose proof (loopBody_keeps_order net0 s0) as H.
    now rewrite E in H.
  - intros net0 s0 s1 net1 E. pose proof (loopBody_keeps_order net0 s0) as H.
    now rewrite E in H.
  - intros net0 s0 s1 net1 r E IH. pose proof (loopBody_keeps_order net0 s0) as H.
    rewrite E in H. eapply keeps_order_trans; eassumption.
Qed.

Lemma begun_bystanders env t0 : forallb bystander (out (begun env t0)) = true.
Proof.
  unfold begun. destruct (DISCORD_BEFORE_MESSAGE_ID env) as [[|a b]|]; reflexivity.
Qed.

Lemma run_orderly env net t0 : orderly (out (state_of (run env net t0))).
Proof.
  rewrite run_begun.
  destruct (loop_keeps_order net (begun env t0)) as (events & Ho & Hev).
  pose proof (orderly_bystanders _ (begun_bystanders env t0)) as H0.
  assert (Hl : orderly (out (state_of (loop net (begun env t0))))).
  { rewrite Ho. now apply orderly_app. }
  destruct (loop net (begun env t0)) as [[[[]|e|] s1] net1]; autorewrite with state in *.
  - rewrite out_printSummary. apply orderly_app; [exact Hl|].
    apply orderly_bystanders. reflexivity.
  - rewrite out_printSummary, out_writeToLog, <- app_assoc.
    apply orderly_app; [exact Hl|]. apply orderly_bystanders. reflexivity.
  - exact Hl.
Qed.

(** The record of a message cannot be built exactly if there is a [null]
    among its attachments. *)
Lemma backupEntry_none message :
  backupEntry message = None
  <-> exists l, Message.attachments message = Some l /\ In None l.
Proof.
  assert (H : forall l, attachmentLines l = None <-> In None l).
  { induction l as [|a l IH]; [simpl; split; [discriminate|tauto]|].
    cbn [attachmentLines In]. destruct a as [a|]; cbn [attachmentLine].
    - destruct (attachmentLines l) as [lines|].
      + split; [discriminate|]. intros [Ha|Hl]; [discriminate|].
        apply IH in Hl. discriminate.
      + split; [intros _; right; now apply IH|reflexivity].
    - split; [now left|reflexivity]. }
  unfold backupEntry. destruct (Message.attachments message) as [l|].
  - destruct (attachmentLines l) as [lines|] eqn:E.
    + split; [discriminate|]. intros (l' & Hl & Hin). injection Hl as <-.
      apply H in Hin. congruence.
    + split; [|reflexivity]. intros _. exists l. split; [reflexivity|]. now apply H.
  - split; [discriminate|]. intros (l & Hl & _). discriminate.
Qed.

(** C2, as amended.  A message that passes the test of the inner loop and
    whose record [entry] can be built: whatever the replies to its delete
    call (success, failure, or none yet), the events of its turn are the
    progress line, then its backup record, then events [post] among which
    there is no other backup record and the only requests are the delete
    call for that message, at least one; so the backup record is written
    once, before the delete call is issued.  A message that passes the test
    and whose record cannot be built, which is so exactly if a [null] is
    among its attachments: the events of its turn are the progress line and
    the line of the error; there is no backup record and no request, no
    reply is read, and the turn is counted as a failure.  In a whole run,
    every delete call is for the message whose backup record was the last
    one written before it, and each progress line, that is, each turn of
    the inner loop on a message that passed the test, has its backup record
    or else the line of a record that could not be built. *)
Theorem backup_before_delete :
  (forall (message : Message.t) (entry : BackupEntry) (net : list Exchange) (s : State),
      selected (this s) message = true ->
      backupEntry message = Some entry ->
      exists nth grandTotal post,
        out (state_of (processMessage message net s))
        = out s ++ Log false (Progress nth grandTotal (Message.id message))
                   :: Backup entry :: post
        /\ entry_id entry = Message.id message
        /\ Forall (after_backup (deleteRequest (this s) (Message.id message))) post
        /\ (exists t, In (Fetch t (deleteRequest (this s) (Message.id message))) post)
        /\ filter isBackup post = [])
  /\ (forall (message : Message.t) (net : list Exchange) (s : State),
         selected (this s) message = true ->
         backupEntry message = None ->
         let r := processMessage message net s in
         (exists nth grandTotal,
             out (state_of r)
             = out s ++ [Log false (Progress nth grandTotal (Message.id message));
                         Log true (ErrorDeleting (Message.id message) TypeError)])
         /\ completion_of r = Returned tt
         /\ unread r = net
         /\ Stats.failCount (stats (state_of r)) = Stats.failCount (stats s) + 1
         /\ Stats.delCount (stats (state_of r)) = Stats.delCount (stats s))
  /\ (forall (message : Message.t),
         backupEntry message = None
         <-> exists l, Message.attachments message = Some l /\ In None l)
  /\ (forall (env : Env) (net : list Exchange) (t0 : Z),
         let events := out (state_of (run env net t0)) in
         deletes_backed_up None events
         /\ (List.length (filter isBackup events) + List.length (filter isUnrecorded events)
             = List.length (filter isProgress events))%nat).
Proof.
  split; [|split; [|split]].
  - intros message entry net s Hsel Hentry.
    destruct (processMessage_attempt message entry net s Hsel Hentry)
      as (block & Hout & nth & grandTotal & post & -> & Hall & Hin).
    exists nth, grandTotal, post.
    split; [exact Hout|]. split; [now apply backupEntry_id|].
    split; [exact Hall|]. split; [exact Hin|].
    destruct (after_backup_orderly _ _ _ _ Hall) as (_ & Hb & _). exact Hb.
  - intros message net s Hsel Hentry. cbv zeta.
    rewrite (processMessage_unrecorded _ _ _ Hsel Hentry).
    rewrite state_of_triple, completion_of_triple, unread_triple.
    split; [do 2 eexists; apply out_unrecorded|]. now repeat split.
  - apply backupEntry_none.
  - intros env net t0. cbv zeta. destruct (run_orderly env net t0) as [Hd Hc].
    split; [apply Hd|exact Hc].
Qed.

Lemma backup_before_delete_witness :
  let message := plain "m1" in
  let net := [answered 403 (retryIn 0)] in
  (selected (this fresh) message = true
   /\ backupEntry message = Some (plainEntry "m1")
   /\ exists nth grandTotal post,
       out (state_of (processMessage message net fresh))
       = out fresh ++ Log false (Progress nth grandTotal (Message.id message))
                      :: Backup (plainEntry "m1") :: post
       /\ entry_id (plainEntry "m1") = Message.id message
       /\ Forall (after_backup (deleteRequest (this fresh) (Message.id message))) post
       /\ (exists t, In (Fetch t (deleteRequest (this fresh) (Message.id message))) post)
       /\ filter isBackup post = [])
  /\ (selected (this fresh) (broken "m9") = true
      /\ backupEntry (broken "m9") = None
      /\ Stats.failCount (stats (state_of (processMessage (broken "m9") net fresh)))
         = Stats.failCount (stats fresh) + 1).
Proof.
  cbv zeta. split.
  - split; [reflexivity|]. split; [reflexivity|].
    apply (proj1 backup_before_delete (plain "m1") (plainEntry "m1")
             [answered 403 (retryIn 0)] fresh); reflexivity.
  - split; [reflexivity|]. split; [reflexivity|].
    apply (proj1 (proj2 backup_before_delete) (broken "m9")
             [answered 403 (retryIn 0)] fresh); reflexivity.
Defined.

(** C2, counterexample.  A message that passes the three tests and has a
    [null] among its attachments, on a page of a run: it gets its progress
    line, no backup record is written and no delete call is issued, and the
    turn is counted as a failure. *)
Example null_attachment_not_backed_up :
  let message := broken "m9" in
  let r := run sampleEnv [answered 200 (page 1 [[message]])] 5000 in
  selected (this fresh) message = true
  /\ filter isProgress (out (state_of r)) = [Log false (Progress 1 1 "m9")]
  /\ filter isBackup (out (state_of r)) = []
  /\ filter isDeleteCall (out (state_of r)) = []
  /\ filter isUnrecorded (out (state_of r)) = [Log true (ErrorDeleting "m9" TypeError)]
  /\ Stats.failCount (stats (state_of r)) = 1
  /\ Stats.delCount (stats (state_of r)) = 0.
Proof. cbv zeta. repeat split; vm_compute; reflexivity. Qed.

(** ** The scenarios of the specification, run *)

(** One matching message, deleted: one deletion, no failure, and the loop
    ends on [delCount >= grandTotal]. *)
Example scenario_one_message_deleted :
  let r := run sampleEnv [answered 200 (page 1 [[plain "m1"]]); answered 204 (retryIn 0)] 5000 in
  completion_of r = Returned tt
  /\ Stats.delCount (stats (state_of r)) = 1
  /\ Stats.failCount (stats (state_of r)) = 0
  /\ unread r = [].
Proof. cbv zeta. repeat split; vm_compute; reflexivity. Qed.

(** A system message and a matching one: only the second is backed up and
    deleted. *)
Example scenario_system_message_skipped :
  let r := run sampleEnv [answered 200 (page 2 [[pinned "m2"; plain "m3"]]);
                          answered 204 (retryIn 0)] 5000 in
  filter isBackup (out (state_of r)) = [Backup (plainEntry "m3")]
  /\ filter isDeleteCall (out (state_of r))
     = [Fetch 6000 (DeleteRequest (Some "2002") "m3" (Some "token"))].
Proof. cbv zeta. split; vm_compute; reflexivity. Qed.

(** A delete call answered 429 with [retry_after = 5000], then 204. *)
Example scenario_delete_throttled_once :
  let r := run sampleEnv [answered 200 (page 1 [[plain "m4"]]);
                          answered 429 (retryIn 5000); answered 204 (retryIn 0)] 5000 in
  Stats.throttledCount (stats (state_of r)) = 1
  /\ Stats.throttledTotalTime (stats (state_of r)) = 5000
  /\ Stats.delCount (stats (state_of r)) = 1
  /\ Stats.failCount (stats (state_of r)) = 0
  /\ filter isDeleteCall (out (state_of r))
     = [Fetch 6000 (DeleteRequest (Some "2002") "m4" (Some "token"));
        Fetch 11020 (DeleteRequest (Some "2002") "m4" (Some "token"))].
Proof. cbv zeta. repeat split; vm_compute; reflexivity. Qed.

(** A delete call answered 403: one failure, and the next message of the
    page is deleted all the same. *)
Example scenario_delete_forbidden :
  let r := run sampleEnv [answered 200 (page 2 [[plain "m5"; plain "m6"]]);
                          answered 403 (retryIn 0); answered 204 (retryIn 0)] 5000 in
  Stats.failCount (stats (state_of r)) = 1
  /\ Stats.delCount (stats (state_of r)) = 1
  /\ cursor (state_of r) = Some "m6"
  /\ filter isBackup (out (state_of r))
     = [Backup (plainEntry "m5"); Backup (plainEntry "m6")].
Proof. cbv zeta. repeat split; vm_compute; reflexivity. Qed.

(** * Further properties *)

(** ** From the methods to the loop *)

(** A relation between states that every step of a page keeps is kept by
    the loops over the page. *)
Lemma page_lifts (R : State -> State -> Prop) :
  (forall s, R s s) ->
  (forall s1 s2 s3, R s1 s2 -> R s2 s3 -> R s1 s3) ->
  (forall message net s, R s (state_of (processMessage message net s))) ->
  forall messages net s, R s (state_of (processPage messages net s)).
Proof.
  intros Hrefl Htrans Hm.
  assert (Hg : forall messageGroup net s, R s (state_of (processGroup messageGroup net s))).
  { induction messageGroup as [|message messageGroup IH]; intros net s; [apply Hrefl|].
    simpl processGroup. pose proof (Hm message net s) as H.
    destruct (processMessage message net s) as [[[[]|e|] s1] net1];
      autorewrite with state in *; try exact H.
    eapply Htrans; [exact H|apply IH]. }
  induction messages as [|messageGroup messages IH]; intros net s; [apply Hrefl|].
  simpl processPage. pose proof (Hg messageGroup net s) as H.
  destruct (processGroup messageGroup net s) as [[[[]|e|] s1] net1];
    autorewrite with state in *; try exact H.
  eapply Htrans; [exact H|apply IH].
Qed.

(** From the latch, the page and the wait to what a search result leads
    to. *)
Lemma result_lifts (R : State -> State -> Prop) :
  (forall s1 s2 s3, R s1 s2 -> R s2 s3 -> R s1 s3) ->
  (forall result s, R s (latch result s)) ->
  (forall messages net s, R s (state_of (processPage messages net s))) ->
  (forall s, R s (wait delaySearch s)) ->
  forall result net s, R s (state_of (processResult result net s)).
Proof.
  intros Htrans Hl Hp Hw result net s.
  destruct (Z.eq_dec (SearchResponse.total_results result) 0) as [Hz|Hnz].
  - rewrite (processResult_zero _ _ _ Hz). autorewrite with state. apply Hl.
  - rewrite (processResult_page _ _ _ Hnz).
    pose proof (Hp (SearchResponse.messages result) net (latch result s)) as H.
    destruct (processPage _ _ _) as [[[[]|e|] s1] net1]; autorewrite with state in *.
    + eapply Htrans; [apply Hl|]. eapply Htrans; [exact H|apply Hw].
    + eapply Htrans; [apply Hl|exact H].
    + eapply Htrans; [apply Hl|exact H].
Qed.

(** From the search and what its result leads to, to the whole loop. *)
Lemma loop_lifts (R : State -> State -> Prop) :
  (forall s1 s2 s3, R s1 s2 -> R s2 s3 -> R s1 s3) ->
  (forall net s, R s (state_of (fetchMessages net s))) ->
  (forall result net s, R s (state_of (processResult result net s))) ->
  forall net s, R s (state_of (loop net s)).
Proof.
  intros Htrans Hf Hr.
  assert (Hb : forall net s, R s (state_of (loopBody net s))).
  { intros net s. pose proof (Hf net s) as H. unfold loopBody.
    destruct (fetchMessages net s) as [[[result|e|] s1] net1]; autorewrite with state in *;
      try exact H.
    eapply Htrans; [exact H|apply Hr]. }
  apply (loop_induction (fun net s r => R s (state_of r))).
  - intros net0 s0 s1 net1 E. pose proof (Hb net0 s0) as H. now rewrite E in H.
  - intros net0 s0 e s1 net1 E. pose proof (Hb net0 s0) as H. now rewrite E in H.
  - intros net0 s0 s1 net1 E. pose proof (Hb net0 s0) as H. now rewrite E in H.
  - intros net0 s0 s1 net1 r E IH. pose proof (Hb net0 s0) as H. rewrite E in H.
    eapply Htrans; eassumption.
Qed.

(** From the loop to [deleteMessages], for a relation that logging keeps. *)
Lemma deleteMessages_lifts (R : State -> State -> Prop) :
  (forall s1 s2 s3, R s1 s2 -> R s2 s3 -> R s1 s3) ->
  (forall l b s, R s (writeToLog l b s)) ->
  (forall net s, R s (state_of (loop net s))) ->
  forall net s, R s (state_of (deleteMessages net s)).
Proof.
  intros Htrans Hlog Hloop net s.
  pose proof (Hloop net (entered s)) as H.
  assert (He : R s (entered s)) by apply Hlog.
  unfold deleteMessages. cbv zeta. fold (entered s).
  destruct (loop net (entered s)) as [[[[]|e|] s1] net1]; autorewrite with state in *.
  - eapply Htrans; [exact He|]. eapply Htrans; [exact H|]. apply Hlog.
  - eapply Htrans; [exact He|]. eapply Htrans; [exact H|].
    eapply Htrans; [apply Hlog|apply Hlog].
  - eapply Htrans; eassumption.
Qed.

(** ** The rate-limit gate, over a whole run *)

Lemma spaced_app last l1 l2 :
  spaced last (l1 ++ l2) <-> spaced last l1 /\ spaced (last_call last l1) l2.
Proof.
  revert last. induction l1 as [|e l1 IH]; intros last; [simpl; tauto|].
  destruct e; simpl; rewrite ?IH; tauto.
Qed.

Lemma last_call_app last l1 l2 :
  last_call last (l1 ++ l2) = last_call (last_call last l1) l2.
Proof.
  revert last. induction l1 as [|e l1 IH]; intros last; [reflexivity|].
  destruct e; simpl; apply IH.
Qed.

Lemma no_fetch_spaced last events :
  filter isFetch events = [] -> spaced last events /\ last_call last events = last.
Proof.
  induction events as [|e events IH]; [now split|].
  destruct e; simpl; try exact IH. discriminate.
Qed.

(** The first request among [events] is the only one that [last] bears
    on. *)
Lemma spaced_sooner last last' events :
  last <= last' -> spaced last' events -> spaced last events.
Proof.
  intros Hle. induction events as [|e events IH]; [trivial|].
  destruct e; cbn [spaced]; try exact IH. intros [H1 H2]. split; [lia|exact H2].
Qed.

Lemma last_call_sooner last last' events :
  last <= last' -> last_call last events <= last_call last' events.
Proof.
  intros Hle. induction events as [|e events IH]; [exact Hle|].
  destruct e; cbn [last_call]; try exact IH. lia.
Qed.

Lemma paced_refl s : paced s s.
Proof. exists []. rewrite app_nil_r. cbn [spaced last_call]. split; [reflexivity|]. split; [exact I|lia]. Qed.

Lemma paced_trans s1 s2 s3 : paced s1 s2 -> paced s2 s3 -> paced s1 s3.
Proof.
  intros (e1 & Ho1 & Hs1 & Hl1) (e2 & Ho2 & Hs2 & Hl2).
  assert (Hle : last_call (due s1 - rateLimit) e1 <= due s2 - rateLimit) by lia.
  exists (e1 ++ e2). split; [|split].
  - now rewrite Ho2, Ho1, app_assoc.
  - apply spaced_app. split; [exact Hs1|]. eapply spaced_sooner; eassumption.
  - rewrite last_call_app.
    pose proof (last_call_sooner _ _ e2 Hle). lia.
Qed.

(** ** When the gate lets the caller through *)

Lemma setTimeout_cases ms :
  (1 <= ms <= TIMEOUT_MAX /\ setTimeout ms = ms)
  \/ ((ms < 1 \/ TIMEOUT_MAX < ms) /\ setTimeout ms = 1).
Proof.
  destruct (Z_lt_le_dec ms 1) as [H1|H1].
  - right. split; [now left|]. unfold setTimeout.
    apply Z.leb_gt in H1. now rewrite H1.
  - destruct (Z_lt_le_dec TIMEOUT_MAX ms) as [H2|H2].
    + right. split; [now right|]. now apply setTimeout_overflow.
    + left. split; [now split|]. now apply setTimeout_fits.
Qed.

Lemma due_gate s :
  due s
  = (if now s - DiscordMessageDeleter.lastApiCall (this s) <? rateLimit
     then now s + setTimeout (rateLimit - (now s - DiscordMessageDeleter.lastApiCall (this s)))
     else now s).
Proof. unfold due, enforceRateLimit. destruct_if; reflexivity. Qed.

Lemma enforceRateLimit_last s :
  DiscordMessageDeleter.lastApiCall (this (enforceRateLimit s)) = now (enforceRateLimit s).
Proof. unfold enforceRateLimit. destruct_if; reflexivity. Qed.

(** The gate lets the caller through at once if [rateLimit] has gone by
    since the last call, and otherwise exactly when it has, if what is left
    of [rateLimit] is a delay that a timer holds. *)
Lemma enforceRateLimit_time s :
  DiscordMessageDeleter.lastApiCall (this s) + rateLimit - now s <= TIMEOUT_MAX ->
  now (enforceRateLimit s)
  = Z.max (now s) (DiscordMessageDeleter.lastApiCall (this s) + rateLimit).
Proof.
  intros Hfit. fold (due s). rewrite due_gate.
  destruct (now s - DiscordMessageDeleter.lastApiCall (this s) <? rateLimit) eqn:E.
  - apply Z.ltb_lt in E. rewrite setTimeout_fits; lia.
  - apply Z.ltb_ge in E. lia.
Qed.

(** Otherwise the timer of the gate lasts 1 ms. *)
Lemma enforceRateLimit_overflow s :
  TIMEOUT_MAX < DiscordMessageDeleter.lastApiCall (this s) + rateLimit - now s ->
  now (enforceRateLimit s) = now s + 1.
Proof.
  intros Hover. fold (due s). rewrite due_gate.
  assert (E : (now s - DiscordMessageDeleter.lastApiCall (this s) <? rateLimit) = true).
  { apply Z.ltb_lt. unfold TIMEOUT_MAX in Hover. lia. }
  rewrite E, setTimeout_overflow; [reflexivity|lia].
Qed.

(** A request made later, with the same last call, is due no sooner. *)
Lemma due_later s s' :
  DiscordMessageDeleter.lastApiCall (this s') = DiscordMessageDeleter.lastApiCall (this s) ->
  now s <= now s' ->
  due s <= due s'.
Proof.
  intros Hl Hn. rewrite !due_gate, Hl.
  set (last := DiscordMessageDeleter.lastApiCall (this s)).
  destruct (setTimeout_cases (rateLimit - (now s - last))) as [[H1 ->]|[H1 ->]];
    destruct (setTimeout_cases (rateLimit - (now s' - last))) as [[H2 ->]|[H2 ->]];
    destruct (now s - last <? rateLimit) eqn:E1;
    destruct (now s' - last <? rateLimit) eqn:E2;
    rewrite ?Z.ltb_lt, ?Z.ltb_ge in E1, E2; unfold TIMEOUT_MAX, rateLimit in *; lia.
Qed.

(** After the gate and whatever time has passed since, the next request
    is due [rateLimit] after the last. *)
Lemma due_after_gate s s' :
  DiscordMessageDeleter.lastApiCall (this s') = now (enforceRateLimit s) ->
  now (enforceRateLimit s) <= now s' ->
  due s + rateLimit <= due s'.
Proof.
  intros Hl Hn. unfold due at 1. rewrite (due_gate s'), Hl.
  destruct (setTimeout_cases (rateLimit - (now s' - now (enforceRateLimit s)))) as [[H ->]|[H ->]];
    destruct (now s' - now (enforceRateLimit s) <? rateLimit) eqn:E;
    rewrite ?Z.ltb_lt, ?Z.ltb_ge in E; unfold TIMEOUT_MAX, rateLimit in *; lia.
Qed.

Lemma paced_no_fetch s s' events :
  out s' = out s ++ events ->
  filter isFetch events = [] ->
  DiscordMessageDeleter.lastApiCall (this s') = DiscordMessageDeleter.lastApiCall (this s) ->
  now s <= now s' ->
  paced s s'.
Proof.
  intros Ho Hn Hl Hnow.
  destruct (no_fetch_spaced (due s - rateLimit) events Hn) as [Hs Hc].
  exists events. split; [exact Ho|]. split; [exact Hs|].
  rewrite Hc. pose proof (due_later s s' Hl Hnow). lia.
Qed.

Lemma gate_no_fetch s : filter isFetch (gate s) = [].
Proof. unfold gate. destruct_if; reflexivity. Qed.

Lemma lastApiCall_replied req x s :
  DiscordMessageDeleter.lastApiCall (this (replied req x s)) = now (enforceRateLimit s).
Proof.
  unfold replied. cbv zeta. autorewrite with state. apply enforceRateLimit_last.
Qed.

(** The gate, then the request: sent when it was due. *)
Lemma gate_then_fetch_paced s s' req more :
  out s' = out s ++ gate s ++ Fetch (now (enforceRateLimit s)) req :: more ->
  filter isFetch more = [] ->
  DiscordMessageDeleter.lastApiCall (this s') = now (enforceRateLimit s) ->
  now (enforceRateLimit s) <= now s' ->
  paced s s'.
Proof.
  intros Ho Hm Hl Hn. eexists. split; [exact Ho|].
  destruct (no_fetch_spaced (due s - rateLimit) (gate s) (gate_no_fetch s)) as [Hs Hc].
  destruct (no_fetch_spaced (due s) more Hm) as [Hs' Hc'].
  split.
  - apply spaced_app. split; [exact Hs|]. rewrite Hc. cbn [spaced].
    split; [unfold due; lia|exact Hs'].
  - rewrite last_call_app, Hc. cbn [last_call]. fold (due s). rewrite Hc'.
    now apply due_after_gate.
Qed.

Lemma replied_paced req x s :
  (forall s, req (this (enforceRateLimit s)) = req (this s)) ->
  paced s (replied req x s).
Proof.
  intros Hreq. eapply gate_then_fetch_paced.
  - apply (out_replied req x s Hreq).
  - reflexivity.
  - apply lastApiCall_replied.
  - rewrite now_replied. lia.
Qed.

Lemma sent_paced req s :
  paced s (emit (Fetch (now (enforceRateLimit s)) req) (enforceRateLimit s)).
Proof.
  eapply gate_then_fetch_paced.
  - autorewrite with state. rewrite <- app_assoc. reflexivity.
  - reflexivity.
  - rewrite this_emit. apply enforceRateLimit_last.
  - rewrite now_emit. lia.
Qed.

Lemma wait_paced ms s : paced s (wait ms s).
Proof.
  eapply paced_no_fetch; [apply out_wait|reflexivity|reflexivity|].
  rewrite now_wait. pose proof (setTimeout_pos ms). lia.
Qed.

Lemma writeToLog_paced l b s : paced s (writeToLog l b s).
Proof.
  eapply paced_no_fetch; [apply out_writeToLog|reflexivity|reflexivity|].
  rewrite now_writeToLog. lia.
Qed.

Lemma backoff_paced notice retry s : paced s (backoff notice retry s).
Proof.
  eapply paced_no_fetch; [apply out_backoff|reflexivity|reflexivity|].
  rewrite now_backoff. pose proof (setTimeout_pos retry). lia.
Qed.

Lemma fetchMessages_paced net s : paced s (state_of (fetchMessages net s)).
Proof.
  revert s. induction net as [|x net IH]; intros s.
  - rewrite fetchMessages_nil. autorewrite with state. apply sent_paced.
  - rewrite fetchMessages_cons. cbv zeta.
    pose proof (replied_paced searchRequest x s enforceRateLimit_searchRequest) as Hr.
    destruct (reply x) as [status data|reason].
    + destruct (status =? 202).
      { eapply paced_trans; [exact Hr|]. eapply paced_trans; [|apply IH].
        eapply paced_trans; [apply writeToLog_paced|apply wait_paced]. }
      destruct (status =? 429).
      { eapply paced_trans; [exact Hr|]. eapply paced_trans; [|apply IH].
        apply backoff_paced. }
      destruct (negb (ok status)); autorewrite with state; exact Hr.
    + autorewrite with state. exact Hr.
Qed.

Lemma deleteMessage_paced messageId net s : paced s (state_of (deleteMessage messageId net s)).
Proof.
  revert s. induction net as [|x net IH]; intros s.
  - rewrite deleteMessage_nil. autorewrite with state. apply sent_paced.
  - rewrite deleteMessage_cons. cbv zeta.
    pose proof (replied_paced (fun d => deleteRequest d messageId) x s
                  (fun s => enforceRateLimit_deleteRequest s messageId)) as Hr.
    destruct (reply x) as [status data|reason].
    + destruct (status =? 429).
      { eapply paced_trans; [exact Hr|]. eapply paced_trans; [|apply IH].
        apply backoff_paced. }
      destruct (negb (ok status)); autorewrite with state; [exact Hr|].
      eapply paced_trans; [exact Hr|].
      eapply paced_no_fetch; [now autorewrite with state|reflexivity|reflexivity|].
      autorewrite with state. lia.
    + autorewrite with state. exact Hr.
Qed.

Lemma processMessage_paced message net s : paced s (state_of (processMessage message net s)).
Proof.
  destruct (selected (this s) message) eqn:Hsel;
    [destruct (backupEntry message) as [entry|] eqn:Hentry|].
  - rewrite (processMessage_selected _ _ _ _ Hsel Hentry).
    pose proof (deleteMessage_paced (Message.id message) net (attempted message entry s)) as Hd.
    assert (Ha : paced s (attempted message entry s)).
    { eapply paced_no_fetch; [apply out_attempted|reflexivity|reflexivity|].
      rewrite now_attempted. lia. }
    destruct (deleteMessage _ _ _) as [[c s'] net'].
    autorewrite with state in Hd.
    destruct c as [[]|error|]; autorewrite with state.
    + eapply paced_trans; [exact Ha|]. eapply paced_trans; [exact Hd|].
      eapply paced_trans; [|apply wait_paced].
      eapply paced_no_fetch; [symmetry; apply app_nil_r|reflexivity|reflexivity|].
      rewrite now_update. lia.
    + eapply paced_trans; [exact Ha|]. eapply paced_trans; [exact Hd|].
      eapply paced_no_fetch; [now autorewrite with state|reflexivity|reflexivity|].
      autorewrite with state. lia.
    + eapply paced_trans; eassumption.
  - rewrite (processMessage_unrecorded _ _ _ Hsel Hentry), state_of_triple.
    eapply paced_no_fetch; [apply out_unrecorded|reflexivity|reflexivity|].
    autorewrite with state. lia.
  - rewrite (processMessage_skip _ _ _ Hsel). autorewrite with state. apply paced_refl.
Qed.

Lemma latch_paced result s : paced s (latch result s).
Proof.
  eapply paced_no_fetch;
    [apply out_latch|destruct_if; reflexivity|unfold latch; destruct_if; reflexivity|].
  unfold latch. destruct_if; autorewrite with state; lia.
Qed.

Lemma deleteMessages_paced net s : paced s (state_of (deleteMessages net s)).
Proof.
  apply deleteMessages_lifts.
  - apply paced_trans.
  - apply writeToLog_paced.
  - apply loop_lifts.
    + apply paced_trans.
    + apply fetchMessages_paced.
    + apply result_lifts.
      * apply paced_trans.
      * apply latch_paced.
      * apply page_lifts; [apply paced_refl|apply paced_trans|apply processMessage_paced].
      * apply wait_paced.
Qed.

Lemma constructor_quiet authToken authorId channelId beforeMessageId t0 :
  filter isFetch (out (constructor authToken authorId channelId beforeMessageId t0)) = []
  /\ DiscordMessageDeleter.lastApiCall
       (this (constructor authToken authorId channelId beforeMessageId t0)) = 0
  /\ now (constructor authToken authorId channelId beforeMessageId t0) = t0.
Proof. destruct beforeMessageId as [[|a b]|]; repeat split; reflexivity. Qed.

(** The requests of a run keep their distance, and the first is not sent
    before a request made by the object just constructed is due. *)
Lemma run_spaced env net t0 :
  spaced (due (constructor (DISCORD_AUTH_TOKEN env) (DISCORD_AUTHOR_ID env)
                           (DISCORD_CHANNEL_ID env) (DISCORD_BEFORE_MESSAGE_ID env) t0)
          - rateLimit)
         (out (state_of (run env net t0))).
Proof.
  unfold run.
  destruct (constructor_quiet (DISCORD_AUTH_TOKEN env) (DISCORD_AUTHOR_ID env)
              (DISCORD_CHANNEL_ID env) (DISCORD_BEFORE_MESSAGE_ID env) t0) as (Hq & _).
  set (s0 := constructor _ _ _ _ _) in *.
  destruct (deleteMessages_paced net s0) as (events & Ho & Hs & _).
  destruct (no_fetch_spaced (due s0 - rateLimit) (out s0) Hq) as [Hs0 Hl0].
  rewrite Ho. apply spaced_app. split; [exact Hs0|]. rewrite Hl0. exact Hs.
Qed.

(** When the first request of a run is due: at [rateLimit] on the clock or
    at once if the clock is past it, [lastApiCall] starting at 0, if
    [rateLimit] less the clock is a delay that a timer holds. *)
Lemma constructor_due authToken authorId channelId beforeMessageId t0 :
  rateLimit - TIMEOUT_MAX <= t0 ->
  due (constructor authToken authorId channelId beforeMessageId t0) = Z.max t0 rateLimit.
Proof.
  intros Ht.
  destruct (constructor_quiet authToken authorId channelId beforeMessageId t0) as (_ & Hl & Hn).
  unfold due. rewrite enforceRateLimit_time; rewrite Hl, Hn; lia.
Qed.

Lemma spaced_pair last pre t1 q1 mid t2 q2 post :
  spaced last (pre ++ Fetch t1 q1 :: mid ++ Fetch t2 q2 :: post) ->
  filter isFetch mid = [] ->
  t1 + rateLimit <= t2.
Proof.
  intros H Hmid. apply spaced_app in H. destruct H as [_ H]. simpl in H.
  destruct H as [_ H]. apply spaced_app in H. destruct H as [_ H].
  destruct (no_fetch_spaced t1 mid Hmid) as [_ Hl]. rewrite Hl in H. simpl in H. tauto.
Qed.

(** X1. In a run, two requests that follow each other, to whichever of
    the two endpoints, are sent at least [rateLimit] (1000 ms) apart on the
    clock; and the first request is not sent before the clock reads
    [rateLimit], [lastApiCall] starting at 0, unless the clock at the start
    is so far below 0 that what is left of [rateLimit] is more than a timer
    holds. *)
Theorem requests_one_rateLimit_apart :
  forall (env : Env) (net : list Exchange) (t0 : Z),
    let events := out (state_of (run env net t0)) in
    (forall pre t1 q1 mid t2 q2 post,
        events = pre ++ Fetch t1 q1 :: mid ++ Fetch t2 q2 :: post ->
        filter isFetch mid = [] ->
        t1 + 1000 <= t2)
    /\ (forall pre t q post,
           events = pre ++ Fetch t q :: post -> filter isFetch pre = [] ->
           1000 - TIMEOUT_MAX <= t0 ->
           1000 <= t).
Proof.
  intros env net t0. cbv zeta. pose proof (run_spaced env net t0) as H. split.
  - intros pre t1 q1 mid t2 q2 post E Hmid. rewrite E in H.
    apply (spaced_pair _ pre t1 q1 mid t2 q2 post H Hmid).
  - intros pre t q post E Hpre Ht0. rewrite E in H. apply spaced_app in H.
    destruct H as [_ H].
    match type of H with spaced (last_call ?l pre) _ =>
      destruct (no_fetch_spaced l pre Hpre) as [_ Hl] end.
    rewrite Hl in H. cbn [spaced] in H. destruct H as [H _].
    rewrite constructor_due in H by exact Ht0. unfold rateLimit in H. lia.
Qed.

Lemma requests_one_rateLimit_apart_witness :
  let events := out (state_of (run sampleEnv twoDeleted 5000)) in
  let pre := firstn 7 events in
  let mid := firstn 5 (skipn 8 events) in
  let post := skipn 14 events in
  (events
   = pre ++ Fetch 5000 (SearchRequest (Some "2002") (Some "1001") None (Some "token"))
         :: mid ++ Fetch 6000 (DeleteRequest (Some "2002") "m1" (Some "token")) :: post
   /\ filter isFetch mid = []
   /\ 5000 + 1000 <= 6000)
  /\ (events
      = pre ++ Fetch 5000 (SearchRequest (Some "2002") (Some "1001") None (Some "token"))
            :: skipn 8 events
      /\ filter isFetch pre = []
      /\ 1000 - TIMEOUT_MAX <= 5000
      /\ 1000 <= 5000).
Proof.
  cbv zeta.
  assert (E : out (state_of (run sampleEnv twoDeleted 5000))
              = firstn 7 (out (state_of (run sampleEnv twoDeleted 5000)))
                ++ Fetch 5000 (SearchRequest (Some "2002") (Some "1001") None (Some "token"))
                :: firstn 5 (skipn 8 (out (state_of (run sampleEnv twoDeleted 5000))))
                ++ Fetch 6000 (DeleteRequest (Some "2002") "m1" (Some "token"))
                :: skipn 14 (out (state_of (run sampleEnv twoDeleted 5000))))
    by (vm_compute; reflexivity).
  assert (M : filter isFetch
                (firstn 5 (skipn 8 (out (state_of (run sampleEnv twoDeleted 5000))))) = [])
    by (vm_compute; reflexivity).
  assert (E1 : out (state_of (run sampleEnv twoDeleted 5000))
               = firstn 7 (out (state_of (run sampleEnv twoDeleted 5000)))
                 ++ Fetch 5000 (SearchRequest (Some "2002") (Some "1001") None (Some "token"))
                 :: skipn 8 (out (state_of (run sampleEnv twoDeleted 5000))))
    by (vm_compute; reflexivity).
  assert (P : filter isFetch (firstn 7 (out (state_of (run sampleEnv twoDeleted 5000)))) = [])
    by (vm_compute; reflexivity).
  assert (T : 1000 - TIMEOUT_MAX <= 5000) by (unfold TIMEOUT_MAX; lia).
  split.
  - split; [exact E|]. split; [exact M|].
    exact (proj1 (requests_one_rateLimit_apart sampleEnv twoDeleted 5000)
                 _ _ _ _ _ _ _ E M).
  - split; [exact E1|]. split; [exact P|]. split; [exact T|].
    exact (proj2 (requests_one_rateLimit_apart sampleEnv twoDeleted 5000)
                 _ _ _ _ E1 P T).
Defined.

(** X2. The gate on its own: if [rateLimit] has gone by since the last
    call the caller goes on at once, with no timer; otherwise there is one
    timer, set with exactly what is left of [rateLimit], and the caller goes
    on when it fires: at [rateLimit] after the last call if what is left is
    a delay that a timer holds, so that the caller goes on at the later of
    now and [rateLimit] after the last call, and 1 ms later if it is not.
    The time at which the caller goes on becomes the last call, and a second
    call straight after the first waits a full [rateLimit]. *)
Theorem gate_opens_when_due :
  forall (s : State),
    let last := DiscordMessageDeleter.lastApiCall (this s) in
    let s' := enforceRateLimit s in
    (last + rateLimit - now s <= TIMEOUT_MAX -> now s' = Z.max (now s) (last + rateLimit))
    /\ (TIMEOUT_MAX < last + rateLimit - now s -> now s' = now s + 1)
    /\ DiscordMessageDeleter.lastApiCall (this s') = now s'
    /\ (last + rateLimit <= now s -> out s' = out s)
    /\ (now s < last + rateLimit -> out s' = out s ++ [Wait (last + rateLimit - now s)])
    /\ now (enforceRateLimit s') = now s' + rateLimit
    /\ stats s' = stats s
    /\ cursor s' = cursor s.
Proof.
  intros s. cbv zeta.
  pose proof (enforceRateLimit_last s) as Hlast.
  split; [apply enforceRateLimit_time|]. split; [apply enforceRateLimit_overflow|].
  split; [exact Hlast|].
  split; [|split; [|split; [|split]]].
  - intros H. rewrite enforceRateLimit_out. unfold gate.
    assert (E : (now s - DiscordMessageDeleter.lastApiCall (this s) <? rateLimit) = false)
      by (apply Z.ltb_ge; lia).
    rewrite E. apply app_nil_r.
  - intros H. rewrite enforceRateLimit_out. unfold gate.
    assert (E : (now s - DiscordMessageDeleter.lastApiCall (this s) <? rateLimit) = true)
      by (apply Z.ltb_lt; lia).
    rewrite E. do 3 f_equal. lia.
  - rewrite (enforceRateLimit_time (enforceRateLimit s)); rewrite Hlast;
      unfold rateLimit, TIMEOUT_MAX; lia.
  - apply enforceRateLimit_stats.
  - apply enforceRateLimit_cursor.
Qed.

Lemma gate_opens_when_due_witness :
  let s := fresh in
  let last := DiscordMessageDeleter.lastApiCall (this s) in
  let ahead := update (set_lastApiCall 2147489000) fresh in
  (last + rateLimit - now s <= TIMEOUT_MAX
   /\ now (enforceRateLimit s) = Z.max (now s) (last + rateLimit))
  /\ (last + rateLimit <= now s /\ out (enforceRateLimit s) = out s)
  /\ (TIMEOUT_MAX < DiscordMessageDeleter.lastApiCall (this ahead) + rateLimit - now ahead
      /\ now (enforceRateLimit ahead) = now ahead + 1)
  /\ (now ahead < DiscordMessageDeleter.lastApiCall (this ahead) + rateLimit
      /\ out (enforceRateLimit ahead)
         = out ahead
           ++ [Wait (DiscordMessageDeleter.lastApiCall (this ahead) + rateLimit - now ahead)]).
Proof.
  cbv zeta. split; [|split; [|split]].
  - split; [vm_compute; discriminate|].
    apply (proj1 (gate_opens_when_due fresh)). vm_compute. discriminate.
  - split; [vm_compute; discriminate|].
    apply (proj1 (proj2 (proj2 (proj2 (gate_opens_when_due fresh))))).
    vm_compute. discriminate.
  - split; [vm_compute; reflexivity|].
    apply (proj1 (proj2 (gate_opens_when_due (update (set_lastApiCall 2147489000) fresh)))).
    vm_compute. reflexivity.
  - split; [vm_compute; reflexivity|].
    apply (proj1 (proj2 (proj2 (proj2 (proj2
             (gate_opens_when_due (update (set_lastApiCall 2147489000) fresh))))))).
    vm_compute. reflexivity.
Defined.

(** ** The summary's durations *)

(** X3. For a duration that is not negative, [msToHMS] gives hours that
    are not negative, minutes and seconds from 0 to 59, and together they
    are the duration cut down to the whole second. *)
Theorem msToHMS_decomposes :
  forall (ms : Z),
    0 <= ms ->
    let '(h, m, sec) := msToHMS ms in
    0 <= h /\ 0 <= m < 60 /\ 0 <= sec < 60
    /\ h * 3600000 + m * 60000 + sec * 1000 = ms - ms mod 1000.
Proof.
  intros ms Hms. unfold msToHMS.
  rewrite !Z.rem_mod_nonneg by lia.
  assert (H1 := Z.div_mod ms 3600000 ltac:(lia)).
  assert (H2 := Z.mod_pos_bound ms 3600000 ltac:(lia)).
  assert (H3 := Z.div_mod (ms mod 3600000) 60000 ltac:(lia)).
  assert (H4 := Z.mod_pos_bound (ms mod 3600000) 60000 ltac:(lia)).
  assert (H5 := Z.div_mod (ms mod 60000) 1000 ltac:(lia)).
  assert (H6 := Z.mod_pos_bound (ms mod 60000) 1000 ltac:(lia)).
  assert (H7 := Z.mod_pos_bound ms 60000 ltac:(lia)).
  assert (E1 : (ms mod 3600000) mod 60000 = ms mod 60000).
  { apply Z.mod_mod_divide. exists 60. reflexivity. }
  assert (E2 : (ms mod 60000) mod 1000 = ms mod 1000).
  { apply Z.mod_mod_divide. exists 60. reflexivity. }
  assert (Hh : 0 <= ms / 3600000) by (apply Z.div_pos; lia).
  assert (Hm : 0 <= ms mod 3600000 / 60000 < 60).
  { split; [apply Z.div_pos; lia|apply Z.div_lt_upper_bound; lia]. }
  assert (Hs : 0 <= ms mod 60000 / 1000 < 60).
  { split; [apply Z.div_pos; lia|apply Z.div_lt_upper_bound; lia]. }
  repeat split; try lia.
Qed.

Lemma msToHMS_decomposes_witness :
  0 <= 3723456
  /\ let '(h, m, sec) := msToHMS 3723456 in
     0 <= h /\ 0 <= m < 60 /\ 0 <= sec < 60
     /\ h * 3600000 + m * 60000 + sec * 1000 = 3723456 - 3723456 mod 1000.
Proof.
  split; [lia|]. apply (msToHMS_decomposes 3723456). lia.
Defined.

(** X4. For a duration that is negative the three fields are not a
    decomposition: the hours are negative, the minutes and seconds are from
    -60 to 0, and anything short of a second below zero reads -1h -1m -1s. *)
Theorem msToHMS_negative :
  forall (ms : Z),
    ms < 0 ->
    let '(h, m, sec) := msToHMS ms in
    h < 0 /\ -60 <= m <= 0 /\ -60 <= sec <= 0
    /\ (-1000 < ms -> (h, m, sec) = (-1, -1, -1)).
Proof.
  intros ms Hms. unfold msToHMS.
  assert (R1 := Z.rem_bound_pos_neg ms 3600000 ltac:(lia) ltac:(lia)).
  assert (R2 := Z.rem_bound_pos_neg ms 60000 ltac:(lia) ltac:(lia)).
  assert (Hh : ms / 3600000 < 0) by (apply Z.div_lt_upper_bound; lia).
  assert (Hm : -60 <= Z.rem ms 3600000 / 60000 <= 0).
  { split; [apply Z.div_le_lower_bound; lia|].
    assert (Z.rem ms 3600000 / 60000 < 1) by (apply Z.div_lt_upper_bound; lia). lia. }
  assert (Hs : -60 <= Z.rem ms 60000 / 1000 <= 0).
  { split; [apply Z.div_le_lower_bound; lia|].
    assert (Z.rem ms 60000 / 1000 < 1) by (apply Z.div_lt_upper_bound; lia). lia. }
  repeat split; try lia.
  intros Hsmall.
  assert (E1 : Z.rem ms 3600000 = ms) by (apply Z.rem_small_iff; lia).
  assert (E2 : Z.rem ms 60000 = ms) by (apply Z.rem_small_iff; lia).
  rewrite E1, E2.
  assert (D : forall d, 1000 <= d -> ms / d = -1).
  { intros d Hd. symmetry. apply (Z.div_unique ms d (-1) (ms + d)); lia. }
  rewrite !D by lia. reflexivity.
Qed.

Lemma msToHMS_negative_witness :
  -1 < 0
  /\ let '(h, m, sec) := msToHMS (-1) in
     h < 0 /\ -60 <= m <= 0 /\ -60 <= sec <= 0
     /\ (-1000 < -1 -> (h, m, sec) = (-1, -1, -1)).
Proof.
  split; [lia|]. apply (msToHMS_negative (-1)). lia.
Defined.

(** ** The backup record *)

Lemma js_or_not_empty a b : b <> "" -> js_or a b <> "".
Proof.
  intros Hb. destruct a as [s0|]; simpl; [|exact Hb].
  destruct (String.eqb s0 "") eqn:E; [exact Hb|]. now apply String.eqb_neq.
Qed.

Lemma js_or_truthy s0 b : s0 <> "" -> js_or (Some s0) b = s0.
Proof. intros H. simpl. apply String.eqb_neq in H. now rewrite H. Qed.

Lemma js_or_falsy a b : truthy a = false -> js_or a b = b.
Proof.
  destruct a as [s0|]; [|reflexivity]. simpl.
  destruct (String.eqb s0 ""); [reflexivity|discriminate].
Qed.

(** The lines of the attachments, when no entry throws: one for each
    attachment, in order; the [url] if it is there and not empty, or else
    the [proxy_url] if that is, or else the text that says there is
    none. *)
Lemma attachmentLines_each l lines :
  attachmentLines l = Some lines ->
  Forall2 (fun attachment line =>
             exists a,
               attachment = Some a
               /\ (forall u, Attachment.url a = Some u -> u <> "" -> line = u)
               /\ (truthy (Attachment.url a) = false ->
                   forall u, Attachment.proxy_url a = Some u -> u <> "" -> line = u)
               /\ (truthy (Attachment.url a) = false ->
                   truthy (Attachment.proxy_url a) = false ->
                   line = "[URL not available]"))
          l lines.
Proof.
  revert lines. induction l as [|attachment l IH]; intros lines.
  - intros H. injection H as <-. constructor.
  - cbn [attachmentLines]. destruct attachment as [a|]; cbn [attachmentLine]; [|discriminate].
    destruct (attachmentLines l) as [lines'|]; [|discriminate].
    intros H. injection H as <-. constructor; [|now apply IH].
    exists a. split; [reflexivity|]. split; [|split].
    + intros u -> Hu. now apply js_or_truthy.
    + intros Hf u -> Hu. rewrite (js_or_falsy _ _ Hf). now apply js_or_truthy.
    + intros Hf Hp. now rewrite (js_or_falsy _ _ Hf), (js_or_falsy _ _ Hp).
Qed.

(** X5. The record [saveMessageContent] writes for a message, when it
    can be built: it carries the identifier; a content that is there and
    not empty is kept as it is, and otherwise the content reads
    [[no content]]; the author is the user name when that is there and not
    empty, and otherwise the identifier of the author; the date is the
    timestamp when that is there and not empty, and otherwise unknown;
    there is one line for each attachment, in order: its [url] if that is
    there and not empty, or else its [proxy_url] if that is, or else
    [[URL not available]]. *)
Theorem backup_record_keeps_content :
  forall (message : Message.t) (entry : BackupEntry),
    backupEntry message = Some entry ->
    entry_id entry = Message.id message
    /\ (forall c, Message.content message = Some c -> c <> "" -> entry_content entry = c)
    /\ (truthy (Message.content message) = false -> entry_content entry = "[no content]")
    /\ (forall u, MessageAuthor.username (Message.author message) = Some u -> u <> "" ->
                  entry_author entry = u)
    /\ (truthy (MessageAuthor.username (Message.author message)) = false ->
        entry_author entry = MessageAuthor.id (Message.author message))
    /\ (forall d, Message.timestamp message = Some d -> d <> "" -> entry_date entry = Some d)
    /\ (truthy (Message.timestamp message) = false -> entry_date entry = None)
    /\ Forall2 (fun attachment line =>
                  exists a,
                    attachment = Some a
                    /\ (forall u, Attachment.url a = Some u -> u <> "" -> line = u)
                    /\ (truthy (Attachment.url a) = false ->
                        forall u, Attachment.proxy_url a = Some u -> u <> "" -> line = u)
                    /\ (truthy (Attachment.url a) = false ->
                        truthy (Attachment.proxy_url a) = false ->
                        line = "[URL not available]"))
               (match Message.attachments message with
                | Some l => l
                | None => []
                end)
               (entry_attachments entry).
Proof.
  intros message entry. unfold backupEntry.
  destruct (match Message.attachments message with
            | Some l => attachmentLines l
            | None => Some []
            end) as [lines|] eqn:E; [|discriminate].
  intros H. injection H as <-. cbn [entry_id entry_content entry_author entry_date
                                   entry_attachments].
  split; [reflexivity|].
  split; [intros c -> Hc; now apply js_or_truthy|].
  split; [apply js_or_falsy|].
  split; [intros u -> Hu; now apply js_or_truthy|].
  split; [apply js_or_falsy|].
  split.
  { intros d Hd Hne. rewrite Hd. unfold truthy. apply String.eqb_neq in Hne.
    now rewrite Hne. }
  split; [now intros ->|].
  destruct (Message.attachments message) as [l|].
  - now apply attachmentLines_each.
  - injection E as <-. constructor.
Qed.

Lemma backup_record_keeps_content_witness :
  let kept := Message.mk "m1" someone 0 true (Some "") None
                         (Some [Some (Attachment.mk None (Some "https://cdn/p.png"))]) in
  backupEntry kept = Some (mkEntry "m1" None "someone" "[no content]" ["https://cdn/p.png"])
  /\ truthy (Message.content kept) = false
  /\ entry_content (mkEntry "m1" None "someone" "[no content]" ["https://cdn/p.png"])
     = "[no content]".
Proof.
  cbv zeta. split; [reflexivity|]. split; [reflexivity|].
  apply (proj1 (proj2 (proj2
           (backup_record_keeps_content
              (Message.mk "m1" someone 0 true (Some "") None
                          (Some [Some (Attachment.mk None (Some "https://cdn/p.png"))]))
              (mkEntry "m1" None "someone" "[no content]" ["https://cdn/p.png"])
              eq_refl)))).
  reflexivity.
Defined.

(** ** What decides the outcome of a call *)

(** X6. [fetchMessages] reads the replies up to the first that is neither
    202 nor 429 and that reply decides: a status from 200 to 299 returns its
    body (never the body of a 202), any other status throws the API error
    with that status, a request that failed throws too; with nothing but
    202 and 429 the call is still waiting and has read every reply. *)
Theorem search_outcome_decided_by_first_final_reply :
  forall (net : list Exchange) (s : State),
    let r := fetchMessages net s in
    match completion_of r with
    | Returned result =>
        exists retries x status data,
          net = retries ++ x :: unread r
          /\ forallb retriesSearch retries = true
          /\ reply x = Response status data
          /\ ok status = true /\ status <> 202
          /\ result = json data
    | Thrown e =>
        exists retries x,
          net = retries ++ x :: unread r
          /\ forallb retriesSearch retries = true
          /\ match reply x with
             | Response status _ =>
                 ok status = false /\ status <> 429 /\ e = ApiStatus status
             | Rejected reason => e = FetchError reason
             end
    | Awaiting => forallb retriesSearch net = true /\ unread r = []
    end.
Proof.
  intros net s. cbv zeta. revert s. induction net as [|x net IH]; intros s.
  - rewrite fetchMessages_nil. autorewrite with state. now split.
  - rewrite fetchMessages_cons. cbv zeta.
    assert (Hgo : forall s2, retriesSearch x = true ->
              match completion_of (fetchMessages net s2) with
              | Returned result =>
                  exists retries x0 status data,
                    x :: net = retries ++ x0 :: unread (fetchMessages net s2)
                    /\ forallb retriesSearch retries = true
                    /\ reply x0 = Response status data
                    /\ ok status = true /\ status <> 202
                    /\ result = json data
              | Thrown e =>
                  exists retries x0,
                    x :: net = retries ++ x0 :: unread (fetchMessages net s2)
                    /\ forallb retriesSearch retries = true
                    /\ match reply x0 with
                       | Response status _ =>
                           ok status = false /\ status <> 429 /\ e = ApiStatus status
                       | Rejected reason => e = FetchError reason
                       end
              | Awaiting =>
                  forallb retriesSearch (x :: net) = true /\ unread (fetchMessages net s2) = []
              end).
    { intros s2 Hx. specialize (IH s2).
      destruct (completion_of (fetchMessages net s2)) as [result|e|].
      - destruct IH as (retries & x0 & status & data & Hn & Hr & H).
        exists (x :: retries), x0, status, data. split; [simpl; now f_equal|].
        split; [simpl; now rewrite Hx|exact H].
      - destruct IH as (retries & x0 & Hn & Hr & H).
        exists (x :: retries), x0. split; [simpl; now f_equal|].
        split; [simpl; now rewrite Hx|exact H].
      - destruct IH as [Hr Hu]. split; [simpl; now rewrite Hx|exact Hu]. }
    unfold retriesSearch in Hgo.
    destruct (reply x) as [status data|reason] eqn:Hreply.
    + destruct (status =? 202) eqn:H202; [apply Hgo; reflexivity|].
      destruct (status =? 429) eqn:H429; [apply Hgo; reflexivity|].
      apply Z.eqb_neq in H202, H429.
      destruct (ok status) eqn:Hok; simpl negb; cbv iota; autorewrite with state.
      * exists [], x, status, data. now repeat split.
      * exists [], x. rewrite Hreply. now repeat split.
    + autorewrite with state. exists [], x. rewrite Hreply. now repeat split.
Qed.

(** X7. [deleteMessage] reads the replies up to the first that is not 429
    and that reply decides: any status from 200 to 299, 202 among them, is a
    deletion; any other status throws the error that names the message and
    the status; a request that failed throws too. *)
Theorem delete_outcome_decided_by_first_final_reply :
  forall (messageId : string) (net : list Exchange) (s : State),
    let r := deleteMessage messageId net s in
    match completion_of r with
    | Returned _ =>
        exists retries x status data,
          net = retries ++ x :: unread r
          /\ forallb retriesDelete retries = true
          /\ reply x = Response status data
          /\ ok status = true
    | Thrown e =>
        exists retries x,
          net = retries ++ x :: unread r
          /\ forallb retriesDelete retries = true
          /\ match reply x with
             | Response status _ =>
                 ok status = false /\ status <> 429 /\ e = DeleteFailed messageId status
             | Rejected reason => e = FetchError reason
             end
    | Awaiting => forallb retriesDelete net = true /\ unread r = []
    end.
Proof.
  intros messageId net s. cbv zeta. revert s. induction net as [|x net IH]; intros s.
  - rewrite deleteMessage_nil. autorewrite with state. now split.
  - rewrite deleteMessage_cons. cbv zeta. unfold retriesDelete in *.
    destruct (reply x) as [status data|reason] eqn:Hreply.
    + destruct (status =? 429) eqn:H429.
      { match goal with |- context [deleteMessage messageId net ?s2] => specialize (IH s2);
          destruct (completion_of (deleteMessage messageId net s2)) as [[]|e|] end.
        - destruct IH as (retries & x0 & status0 & data0 & Hn & Hr & H).
          exists (x :: retries), x0, status0, data0. split; [simpl; now f_equal|].
          split; [simpl; now rewrite Hreply, H429|exact H].
        - destruct IH as (retries & x0 & Hn & Hr & H).
          exists (x :: retries), x0. split; [simpl; now f_equal|].
          split; [simpl; now rewrite Hreply, H429|exact H].
        - destruct IH as [Hr Hu]. split; [simpl; now rewrite Hreply, H429|exact Hu]. }
      apply Z.eqb_neq in H429.
      destruct (ok status) eqn:Hok; simpl negb; cbv iota; autorewrite with state.
      * exists [], x, status, data. now repeat split.
      * exists [], x. rewrite Hreply. now repeat split.
    + autorewrite with state. exists [], x. rewrite Hreply. now repeat split.
Qed.

(** ** The counters and the logs *)

Ltac quad := f_equal; [f_equal; [f_equal|]|]; lia.

Lemma tally_app kind l1 l2 : tally kind (l1 ++ l2) = tally kind l1 + tally kind l2.
Proof. unfold tally. rewrite filter_app, length_app. lia. Qed.

Lemma waited_app l1 l2 : waited (l1 ++ l2) = waited l1 + waited l2.
Proof. unfold waited. rewrite map_app. apply total_app. Qed.

Lemma tally_nil kind : tally kind [] = 0.
Proof. reflexivity. Qed.

Lemma waited_nil : waited [] = 0.
Proof. reflexivity. Qed.

Lemma tally_cons kind e events :
  tally kind (e :: events) = (if kind e then 1 else 0) + tally kind events.
Proof. unfold tally. cbn [filter]. destruct (kind e); cbn [List.length]; lia. Qed.

Lemma waited_cons e events : waited (e :: events) = throttle_wait e + waited events.
Proof. reflexivity. Qed.

(** The balance after events were added and counters moved. *)
Lemma balance_step s s' events :
  out s' = out s ++ events ->
  balance s'
  = let '(d, f, c, t) := balance s in
    (d + (Stats.delCount (stats s') - Stats.delCount (stats s)) - tally isDeleted events,
     f + (Stats.failCount (stats s') - Stats.failCount (stats s))
     - tally isErrorDeleting events,
     c + (Stats.throttledCount (stats s') - Stats.throttledCount (stats s))
     - tally isThrottleNotice events,
     t + (Stats.throttledTotalTime (stats s') - Stats.throttledTotalTime (stats s))
     - waited events).
Proof.
  intros Ho. unfold balance. rewrite Ho, !tally_app, waited_app. quad.
Qed.

(** Counts the events of a list that is written out. *)
Ltac count_events :=
  repeat rewrite tally_cons; repeat rewrite waited_cons;
  repeat rewrite tally_nil; repeat rewrite waited_nil;
  cbn [isDeleted isErrorDeleting isThrottleNotice throttle_wait].

(** Events that no counter goes with, and counters left alone. *)
Lemma balance_kept s s' events :
  out s' = out s ++ events ->
  stats s' = stats s ->
  tally isDeleted events = 0 ->
  tally isErrorDeleting events = 0 ->
  tally isThrottleNotice events = 0 ->
  waited events = 0 ->
  balance s' = balance s.
Proof.
  intros Ho Hs H1 H2 H3 H4. rewrite (balance_step s s' events Ho), Hs, H1, H2, H3, H4.
  destruct (balance s) as [[[d f] c] t]. quad.
Qed.

Lemma gate_uncounted s :
  tally isDeleted (gate s) = 0 /\ tally isErrorDeleting (gate s) = 0
  /\ tally isThrottleNotice (gate s) = 0 /\ waited (gate s) = 0.
Proof. unfold gate. destruct_if; now repeat split. Qed.

Lemma replied_balance req x s :
  (forall s, req (this (enforceRateLimit s)) = req (this s)) ->
  balance (replied req x s) = balance s.
Proof.
  intros Hreq. destruct (gate_uncounted s) as (H1 & H2 & H3 & H4).
  eapply balance_kept; [apply (out_replied req x s Hreq)|apply stats_replied|..];
    rewrite ?tally_app, ?waited_app, ?H1, ?H2, ?H3, ?H4; reflexivity.
Qed.

Lemma sent_balance req s :
  balance (emit (Fetch (now (enforceRateLimit s)) req) (enforceRateLimit s)) = balance s.
Proof.
  destruct (gate_uncounted s) as (H1 & H2 & H3 & H4).
  eapply balance_kept;
    [autorewrite with state; rewrite <- app_assoc; reflexivity
    |now autorewrite with state|..];
    rewrite ?tally_app, ?waited_app, ?H1, ?H2, ?H3, ?H4; reflexivity.
Qed.

(** The branch of 429: the two counters and the notice go together. *)
Lemma backoff_balance (notice : Z -> LogLine) retry s :
  isThrottleNotice (Log false (notice retry)) = true ->
  throttle_wait (Log false (notice retry)) = retry ->
  isDeleted (Log false (notice retry)) = false ->
  isErrorDeleting (Log false (notice retry)) = false ->
  balance (backoff notice retry s) = balance s.
Proof.
  intros Hn Hw Hd He.
  rewrite (balance_step s (backoff notice retry s) _ (out_backoff notice retry s)).
  rewrite stats_backoff, !tally_cons, waited_cons, Hn, Hw, Hd, He.
  count_events. destruct (balance s) as [[[d f] c] t].
  unfold throttled. cbn [Stats.delCount Stats.failCount Stats.throttledCount
                         Stats.throttledTotalTime].
  quad.
Qed.

Lemma fetchMessages_balance net s : balance (state_of (fetchMessages net s)) = balance s.
Proof.
  revert s. induction net as [|x net IH]; intros s.
  - rewrite fetchMessages_nil. autorewrite with state. apply sent_balance.
  - rewrite fetchMessages_cons. cbv zeta.
    pose proof (replied_balance searchRequest x s enforceRateLimit_searchRequest) as Hr.
    destruct (reply x) as [status data|reason].
    + destruct (status =? 202).
      { rewrite IH, <- Hr. eapply balance_kept;
          [autorewrite with state; rewrite <- app_assoc; reflexivity
          |now autorewrite with state|reflexivity..]. }
      destruct (status =? 429).
      { rewrite IH, <- Hr. now apply backoff_balance. }
      destruct (negb (ok status)); autorewrite with state; exact Hr.
    + autorewrite with state. exact Hr.
Qed.

(** [deleteMessage] logs a deletion before [delCount] goes up: on return the
    counter is one behind, and otherwise level. *)
Lemma deleteMessage_balance messageId net s :
  let r := deleteMessage messageId net s in
  balance (state_of r)
  = match completion_of r, balance s with
    | Returned _, (d, f, c, t) => (d - 1, f, c, t)
    | _, b => b
    end.
Proof.
  cbv zeta. revert s. induction net as [|x net IH]; intros s.
  - rewrite deleteMessage_nil. autorewrite with state. apply sent_balance.
  - rewrite deleteMessage_cons. cbv zeta.
    pose proof (replied_balance (fun d => deleteRequest d messageId) x s
                  (fun s => enforceRateLimit_deleteRequest s messageId)) as Hr.
    destruct (reply x) as [status data|reason].
    + destruct (status =? 429).
      { rewrite IH. rewrite backoff_balance, Hr by reflexivity. reflexivity. }
      destruct (negb (ok status)); autorewrite with state; [exact Hr|].
      rewrite <- Hr.
      match goal with |- balance ?s2 = _ =>
        rewrite (balance_step (replied (fun d => deleteRequest d messageId) x s) s2
                   [Log false (Deleted messageId)]) by now autorewrite with state end.
      autorewrite with state. count_events.
      destruct (balance (replied _ x s)) as [[[d f] c] t]. quad.
    + autorewrite with state. exact Hr.
Qed.

Lemma processMessage_balance message net s :
  balance (state_of (processMessage message net s)) = balance s.
Proof.
  destruct (selected (this s) message) eqn:Hsel;
    [destruct (backupEntry message) as [entry|] eqn:Hentry|].
  - rewrite (processMessage_selected _ _ _ _ Hsel Hentry).
    pose proof (deleteMessage_balance (Message.id message) net (attempted message entry s)) as Hd.
    cbv zeta in Hd.
    assert (Ha : balance (attempted message entry s) = balance s).
    { eapply balance_kept; [apply out_attempted|reflexivity..]. }
    rewrite Ha in Hd.
    destruct (deleteMessage _ _ _) as [[c0 s'] net'].
    autorewrite with state in Hd.
    destruct c0 as [[]|error|]; autorewrite with state.
    + match goal with |- balance ?s2 = _ =>
        rewrite (balance_step s' s2 [Wait delayDelete]) by now autorewrite with state end.
      rewrite Hd. autorewrite with state. count_events.
      destruct (balance s) as [[[d f] c] t].
      unfold incr_delCount. cbn [Stats.delCount Stats.failCount Stats.throttledCount
                                 Stats.throttledTotalTime].
      quad.
    + match goal with |- balance ?s2 = _ =>
        rewrite (balance_step s' s2 [Log true (ErrorDeleting (Message.id message) error)])
          by now autorewrite with state end.
      rewrite Hd. autorewrite with state. count_events.
      destruct (balance s) as [[[d f] c] t].
      unfold incr_failCount. cbn [Stats.delCount Stats.failCount Stats.throttledCount
                                  Stats.throttledTotalTime].
      quad.
    + exact Hd.
  - rewrite (processMessage_unrecorded _ _ _ Hsel Hentry), state_of_triple.
    match goal with |- balance ?s2 = _ =>
      rewrite (balance_step s s2 _ (out_unrecorded message s)) end.
    autorewrite with state. count_events.
    destruct (balance s) as [[[d f] c] t].
    unfold incr_failCount. cbn [Stats.delCount Stats.failCount Stats.throttledCount
                                Stats.throttledTotalTime].
    quad.
  - rewrite (processMessage_skip _ _ _ Hsel). now autorewrite with state.
Qed.

Lemma audited_refl s : audited s s.
Proof. now split. Qed.

Lemma audited_trans s1 s2 s3 : audited s1 s2 -> audited s2 s3 -> audited s1 s3.
Proof. unfold audited. intuition congruence. Qed.

Lemma fetchMessages_audited net s : audited s (state_of (fetchMessages net s)).
Proof.
  split; [apply fetchMessages_balance|].
  pose proof (fetchMessages_spec net s) as H. cbv zeta in H.
  destruct H as (_ & Hk & _). apply Hk.
Qed.

Lemma processMessage_audited message net s :
  audited s (state_of (processMessage message net s)).
Proof.
  split; [apply processMessage_balance|].
  pose proof (processMessage_spec message net s) as H. cbv zeta in H.
  destruct H as (_ & Hk & _). apply Hk.
Qed.

Lemma latch_audited result s : audited s (latch result s).
Proof.
  unfold latch. destruct_if; [|apply audited_refl].
  split; [|reflexivity].
  match goal with |- balance ?s2 = _ =>
    rewrite (balance_step s s2 [Log false (TotalFound (SearchResponse.total_results result))])
      by reflexivity end.
  autorewrite with state. count_events. destruct (balance s) as [[[d f] c] t].
  unfold set_grandTotal. cbn [Stats.delCount Stats.failCount Stats.throttledCount
                               Stats.throttledTotalTime].
  quad.
Qed.

Lemma loop_audited net s : audited s (state_of (loop net s)).
Proof.
  apply loop_lifts.
  - apply audited_trans.
  - apply fetchMessages_audited.
  - apply result_lifts.
    + apply audited_trans.
    + apply latch_audited.
    + apply page_lifts; [apply audited_refl|apply audited_trans|apply processMessage_audited].
    + intros s0. split; [|reflexivity].
      eapply balance_kept; [apply out_wait|reflexivity..].
Qed.

Lemma begun_audit env t0 :
  balance (begun env t0) = (0, 0, 0, 0)
  /\ Stats.startTime (stats (begun env t0)) = t0
  /\ filter isSummary (out (begun env t0)) = []
  /\ settings (this (begun env t0))
     = (DISCORD_AUTH_TOKEN env, DISCORD_AUTHOR_ID env, DISCORD_CHANNEL_ID env)
  /\ filter isFetch (out (begun env t0)) = []
  /\ forallb routed (out (begun env t0)) = true.
Proof.
  unfold begun. destruct (DISCORD_BEFORE_MESSAGE_ID env) as [[|a b]|]; repeat split.
Qed.

(** ** What the loop puts out *)

Lemma search_event_loop d e : search_event (searchRequest d) e -> loop_event (settings d) e.
Proof.
  destruct e as [b l| | | |t q|t r|]; simpl; try tauto.
  - destruct b, l; tauto.
  - intros ->. reflexivity.
Qed.

Lemma delete_event_loop d messageId e :
  delete_event (deleteRequest d messageId) e -> loop_event (settings d) e.
Proof.
  destruct e as [b l| | | |t q|t r|]; simpl; try tauto.
  - destruct b, l; tauto.
  - intros ->. reflexivity.
Qed.

Lemma conducted_refl s : conducted s s.
Proof. exists []. rewrite app_nil_r. now repeat split. Qed.

Lemma conducted_trans s1 s2 s3 : conducted s1 s2 -> conducted s2 s3 -> conducted s1 s3.
Proof.
  intros (e1 & Ho1 & Hs1 & Hf1) (e2 & Ho2 & Hs2 & Hf2).
  exists (e1 ++ e2). split; [|split].
  - now rewrite Ho2, Ho1, app_assoc.
  - congruence.
  - apply Forall_app. split; [exact Hf1|]. now rewrite <- Hs1.
Qed.

Lemma conducted_by s s' events :
  out s' = out s ++ events ->
  settings (this s') = settings (this s) ->
  Forall (loop_event (settings (this s))) events ->
  conducted s s'.
Proof. intros Ho Hs Hf. now exists events. Qed.

Lemma fetchMessages_conducted net s : conducted s (state_of (fetchMessages net s)).
Proof.
  pose proof (fetchMessages_spec net s) as H. cbv zeta in H.
  destruct H as (Hset & _ & _ & (evs & Ho & Hall) & _).
  apply (conducted_by _ _ evs Ho Hset).
  eapply Forall_impl; [|exact Hall]. apply search_event_loop.
Qed.

Lemma deleteMessage_conducted messageId net s :
  conducted s (state_of (deleteMessage messageId net s)).
Proof.
  pose proof (deleteMessage_spec messageId net s) as H. cbv zeta in H.
  destruct H as (Hset & _ & _ & (evs & Ho & Hall) & _).
  apply (conducted_by _ _ evs Ho Hset).
  eapply Forall_impl; [|exact Hall]. apply delete_event_loop.
Qed.

Lemma processMessage_conducted message net s :
  conducted s (state_of (processMessage message net s)).
Proof.
  destruct (selected (this s) message) eqn:Hsel;
    [destruct (backupEntry message) as [entry|] eqn:Hentry|].
  - rewrite (processMessage_selected _ _ _ _ Hsel Hentry).
    pose proof (deleteMessage_conducted (Message.id message) net (attempted message entry s)) as Hd.
    assert (Ha : conducted s (attempted message entry s)).
    { eapply conducted_by; [apply out_attempted|reflexivity|]. now repeat constructor. }
    destruct (deleteMessage _ _ _) as [[c s'] net'].
    autorewrite with state in Hd.
    destruct c as [[]|error|]; autorewrite with state.
    + eapply conducted_trans; [exact Ha|]. eapply conducted_trans; [exact Hd|].
      eapply conducted_by; [now autorewrite with state|reflexivity|]. now repeat constructor.
    + eapply conducted_trans; [exact Ha|]. eapply conducted_trans; [exact Hd|].
      eapply conducted_by; [now autorewrite with state|reflexivity|]. now repeat constructor.
    + eapply conducted_trans; eassumption.
  - rewrite (processMessage_unrecorded _ _ _ Hsel Hentry), state_of_triple.
    eapply conducted_by; [apply out_unrecorded|reflexivity|]. now repeat constructor.
  - rewrite (processMessage_skip _ _ _ Hsel). autorewrite with state. apply conducted_refl.
Qed.

Lemma latch_conducted result s : conducted s (latch result s).
Proof.
  eapply conducted_by; [apply out_latch|apply settings_latch|].
  destruct_if; now repeat constructor.
Qed.

Lemma loop_conducted net s : conducted s (state_of (loop net s)).
Proof.
  apply loop_lifts.
  - apply conducted_trans.
  - apply fetchMessages_conducted.
  - apply result_lifts.
    + apply conducted_trans.
    + apply latch_conducted.
    + apply page_lifts;
        [apply conducted_refl|apply conducted_trans|apply processMessage_conducted].
    + intros s0. eapply conducted_by; [apply out_wait|reflexivity|]. now repeat constructor.
Qed.

Lemma loop_event_not_summary st e : loop_event st e -> isSummary e = false.
Proof. destruct e as [b l| | | | | |]; simpl; try tauto. destruct b, l; tauto. Qed.

Lemma loop_event_routed st e : loop_event st e -> routed e = true.
Proof. destruct e as [b l| | | | | |]; simpl; try tauto. destruct b, l; simpl; tauto. Qed.

Lemma loop_event_addressed env e :
  loop_event (DISCORD_AUTH_TOKEN env, DISCORD_AUTHOR_ID env, DISCORD_CHANNEL_ID env) e ->
  addressed env e.
Proof.
  destruct e as [b l| | | |t [c a m k|c i k]|t r|]; simpl; try tauto.
  - intros H. injection H as -> -> ->. now repeat split.
  - intros H. injection H as -> ->. now split.
Qed.

(** ** The summary against the logs *)

Lemma balance_zero s :
  balance s = (0, 0, 0, 0) ->
  Stats.delCount (stats s) = tally isDeleted (out s)
  /\ Stats.failCount (stats s) = tally isErrorDeleting (out s)
  /\ Stats.throttledCount (stats s) = tally isThrottleNotice (out s)
  /\ Stats.throttledTotalTime (stats s) = waited (out s).
Proof. unfold balance. intros H. injection H as H1 H2 H3 H4. repeat split; lia. Qed.

(** The summary is the one the log calls for, from counters that are level
    with it. *)
Lemma printSummary_reports s :
  balance s = (0, 0, 0, 0) ->
  out (printSummary s) = out s ++ [summary_of (Stats.startTime (stats s)) (now s) (out s)]
  /\ balance (printSummary s) = (0, 0, 0, 0).
Proof.
  intros Hb. split.
  - destruct (balance_zero s Hb) as (H1 & H2 & H3 & H4).
    rewrite out_printSummary. unfold summary_of. now rewrite H1, H2, H3, H4.
  - rewrite <- Hb. eapply balance_kept; [apply out_printSummary|reflexivity..].
Qed.

Lemma uncounted_line s line isError :
  isDeleted (Log isError line) = false ->
  isErrorDeleting (Log isError line) = false ->
  isThrottleNotice (Log isError line) = false ->
  throttle_wait (Log isError line) = 0 ->
  balance (writeToLog line isError s) = balance s
  /\ summary_of (Stats.startTime (stats s)) (now s) (out (writeToLog line isError s))
     = summary_of (Stats.startTime (stats s)) (now s) (out s).
Proof.
  intros H1 H2 H3 H4. split.
  - eapply balance_kept; [apply out_writeToLog|reflexivity|..];
      rewrite ?tally_cons, ?waited_cons, ?H1, ?H2, ?H3, ?H4; reflexivity.
  - rewrite out_writeToLog. unfold summary_of.
    rewrite !tally_app, waited_app, !tally_cons, waited_cons, H1, H2, H3, H4.
    rewrite !tally_nil, waited_nil, !Z.add_0_r. reflexivity.
Qed.

Lemma run_loop_audit env net t0 :
  let s := state_of (loop net (begun env t0)) in
  balance s = (0, 0, 0, 0)
  /\ Stats.startTime (stats s) = t0
  /\ filter isSummary (out s) = []
  /\ Forall (addressed env) (out s)
  /\ forallb routed (out s) = true.
Proof.
  cbv zeta.
  destruct (begun_audit env t0) as (Hb & Ht & Hs & Hset & Hf & Hr).
  destruct (loop_audited net (begun env t0)) as [Hb' Ht'].
  destruct (loop_conducted net (begun env t0)) as (events & Ho & _ & Hall).
  rewrite Hset in Hall.
  split; [congruence|]. split; [congruence|]. rewrite Ho. split; [|split].
  - rewrite filter_app, Hs. apply filter_none.
    eapply Forall_impl; [|exact Hall]. apply loop_event_not_summary.
  - apply Forall_app. split.
    + apply Forall_forall. intros e He.
      assert (Hn : isFetch e = false).
      { destruct (isFetch e) eqn:E; [|reflexivity].
        assert (Hin : In e (filter isFetch (out (begun env t0)))) by (apply filter_In; now split).
        rewrite Hf in Hin. destruct Hin. }
      destruct e; try exact I. discriminate.
    + eapply Forall_impl; [|exact Hall]. apply loop_event_addressed.
  - rewrite forallb_app, Hr. apply forallb_forall. intros e He.
    rewrite Forall_forall in Hall. eapply loop_event_routed. now apply Hall.
Qed.

Lemma run_audit env net t0 :
  let s := state_of (run env net t0) in
  balance s = (0, 0, 0, 0) /\ Stats.startTime (stats s) = t0.
Proof.
  cbv zeta. rewrite run_begun.
  destruct (run_loop_audit env net t0) as (Hb & Ht & _). cbv zeta in Hb, Ht.
  destruct (loop net (begun env t0)) as [[[[]|e|] s1] net1]; autorewrite with state in *.
  - split; [|exact Ht]. now apply printSummary_reports.
  - split; [|exact Ht]. apply printSummary_reports.
    rewrite <- Hb. now apply uncounted_line.
  - now split.
Qed.

(** X8. In whatever state a run stands, each counter is what the log shows:
    [delCount] the lines of a deletion, [failCount] the lines of a failed
    deletion, [throttledCount] the notices of a rate limit and
    [throttledTotalTime] the waits they announce.  A run that has ended,
    by returning or by throwing, has written one summary, last, and it
    reports these figures and the time since the object was constructed; a
    run that awaits a reply has written none. *)
Theorem summary_reports_the_logs :
  forall (env : Env) (net : list Exchange) (t0 : Z),
    let r := run env net t0 in
    let s := state_of r in
    Stats.delCount (stats s) = tally isDeleted (out s)
    /\ Stats.failCount (stats s) = tally isErrorDeleting (out s)
    /\ Stats.throttledCount (stats s) = tally isThrottleNotice (out s)
    /\ Stats.throttledTotalTime (stats s) = waited (out s)
    /\ match completion_of r with
       | Awaiting => filter isSummary (out s) = []
       | _ => exists events,
                out s = events ++ [summary_of t0 (now s) events]
                /\ filter isSummary events = []
       end.
Proof.
  intros env net t0. cbv zeta. rewrite run_begun.
  destruct (run_loop_audit env net t0) as (Hb & Ht & Hs & _). cbv zeta in Hb, Ht, Hs.
  destruct (loop net (begun env t0)) as [[[[]|e|] s1] net1]; autorewrite with state in *.
  - destruct (printSummary_reports s1 Hb) as [Ho Hb'].
    destruct (balance_zero _ Hb') as (H1 & H2 & H3 & H4).
    split; [exact H1|]. split; [exact H2|]. split; [exact H3|]. split; [exact H4|].
    exists (out s1). rewrite Ho, Ht. now split.
  - destruct (uncounted_line s1 (ErrorProcessing e) true) as [Hb1 Hsum]; try reflexivity.
    rewrite <- Hb1 in Hb.
    destruct (printSummary_reports _ Hb) as [Ho Hb'].
    destruct (balance_zero _ Hb') as (H1 & H2 & H3 & H4).
    split; [exact H1|]. split; [exact H2|]. split; [exact H3|]. split; [exact H4|].
    exists (out (writeToLog (ErrorProcessing e) true s1)). rewrite Ho.
    split; [now rewrite <- Ht|].
    rewrite out_writeToLog, filter_app, Hs. reflexivity.
  - destruct (balance_zero _ Hb) as (H1 & H2 & H3 & H4). now repeat split.
Qed.

(** X9. The handler of [SIGINT], run in the state in which a run awaits a
    reply (or has ended): it adds the line of the interruption and a
    summary to the log and nothing else, the summary reports the figures of
    the log so far and the time since the object was constructed, and
    neither the statistics nor the cursor nor the clock change. *)
Theorem interruption_reports_the_logs :
  forall (env : Env) (net : list Exchange) (t0 : Z),
    let s := state_of (run env net t0) in
    out (interrupted s)
    = out s ++ [Log false Interruption; summary_of t0 (now s) (out s)]
    /\ stats (interrupted s) = stats s
    /\ cursor (interrupted s) = cursor s
    /\ now (interrupted s) = now s.
Proof.
  intros env net t0. cbv zeta.
  destruct (run_audit env net t0) as [Hb Ht]. cbv zeta in Hb, Ht.
  set (s := state_of (run env net t0)) in *.
  destruct (uncounted_line s Interruption false) as [Hb1 Hsum]; try reflexivity.
  rewrite <- Hb1 in Hb.
  destruct (printSummary_reports _ Hb) as [Ho _].
  unfold interrupted. split; [|now repeat split].
  rewrite Ho, out_writeToLog, <- app_assoc. cbn [app].
  change (Stats.startTime (stats (writeToLog Interruption false s)))
    with (Stats.startTime (stats s)).
  change (now (writeToLog Interruption false s)) with (now s).
  rewrite <- out_writeToLog, Hsum, Ht. reflexivity.
Qed.

(** ** Where the lines and the requests go *)

(** What [deleteMessages] adds once the loop is left: the line of the fatal
    error, if any, and the summary. *)
Lemma run_closes env net t0 :
  exists closing,
    out (state_of (run env net t0)) = out (state_of (loop net (begun env t0))) ++ closing
    /\ forallb routed closing = true
    /\ filter isFetch closing = []
    /\ filter isProgress closing = []
    /\ stats (state_of (run env net t0)) = stats (state_of (loop net (begun env t0))).
Proof.
  rewrite run_begun.
  destruct (loop net (begun env t0)) as [[[[]|e|] s1] net1]; autorewrite with state.
  - eexists. split; [apply out_printSummary|]. now repeat split.
  - eexists. split; [rewrite out_printSummary, out_writeToLog, <- app_assoc; reflexivity|].
    now repeat split.
  - exists []. now rewrite app_nil_r.
Qed.

Lemma no_fetch_addressed env events : filter isFetch events = [] -> Forall (addressed env) events.
Proof.
  induction events as [|e events IH]; [constructor|].
  destruct e; simpl; try (intros H; constructor; [exact I|now apply IH]). discriminate.
Qed.

(** X10. In a run, a line is written to the error log (and to the error
    stream of the console) exactly if it reports an error, of a deletion
    or of the session; every other line goes to the operation log. *)
Theorem errors_go_to_the_error_log :
  forall (env : Env) (net : list Exchange) (t0 : Z),
    forallb routed (out (state_of (run env net t0))) = true.
Proof.
  intros env net t0.
  destruct (run_closes env net t0) as (closing & Ho & Hr & _).
  destruct (run_loop_audit env net t0) as (_ & _ & _ & _ & Hl). cbv zeta in Hl.
  now rewrite Ho, forallb_app, Hl, Hr.
Qed.

(** X11. Every request of a run is for the configured channel and carries
    the configured token, and every search is for the configured author:
    the settings are those the constructor got from the environment, set
    or not, and nothing assigns them. *)
Theorem requests_as_configured :
  forall (env : Env) (net : list Exchange) (t0 : Z),
    Forall (addressed env) (out (state_of (run env net t0))).
Proof.
  intros env net t0.
  destruct (run_closes env net t0) as (closing & Ho & _ & Hf & _).
  destruct (run_loop_audit env net t0) as (_ & _ & _ & Ha & _). cbv zeta in Ha.
  rewrite Ho. apply Forall_app. split; [exact Ha|]. now apply no_fetch_addressed.
Qed.

(** ** The progress lines *)

Lemma progress_counts_app grandTotal done l1 l2 :
  progress_counts grandTotal done (l1 ++ l2)
  <-> progress_counts grandTotal done l1
      /\ progress_counts grandTotal (done + tally isDeleted l1) l2.
Proof.
  revert done. induction l1 as [|e l1 IH]; intros done.
  - rewrite tally_nil, Z.add_0_r. simpl. tauto.
  - rewrite tally_cons. destruct e as [b l| | | | | |];
      try (cbn [app progress_counts isDeleted]; rewrite IH, Z.add_0_l; tauto).
    destruct l; cbn [app progress_counts isDeleted]; rewrite IH;
      rewrite ?Z.add_0_l, ?Z.add_assoc; tauto.
Qed.

Lemma no_progress_counts grandTotal done events :
  filter isProgress events = [] -> progress_counts grandTotal done events.
Proof.
  revert done. induction events as [|e events IH]; intros done H; [exact I|].
  destruct e as [b l| | | | | |]; try (apply IH; exact H).
  destruct l; try (apply IH; exact H). discriminate.
Qed.

(** A total of 0 is shown by no progress line. *)
Lemma progress_counts_zero grandTotal done events :
  progress_counts 0 done events -> progress_counts grandTotal done events.
Proof.
  revert done. induction events as [|e events IH]; intros done H; [exact I|].
  destruct e as [b l| | | | | |]; try (apply IH; exact H).
  destruct l; try (apply IH; exact H).
  destruct H as [(_ & _ & H) _]. now destruct H.
Qed.

Lemma progressing_refl s : progressing s s.
Proof.
  exists []. rewrite app_nil_r, tally_nil, Z.add_0_r. now repeat split.
Qed.

Lemma progressing_trans s1 s2 s3 : progressing s1 s2 -> progressing s2 s3 -> progressing s1 s3.
Proof.
  intros (e1 & Ho1 & Hd1 & Hg1 & Hp1) (e2 & Ho2 & Hd2 & Hg2 & Hp2).
  exists (e1 ++ e2). split; [|split; [|split]].
  - now rewrite Ho2, Ho1, app_assoc.
  - rewrite tally_app. lia.
  - intros H. rewrite Hg2; [now apply Hg1|]. rewrite (Hg1 H). exact H.
  - apply progress_counts_app. split; [|now rewrite <- Hd1].
    destruct (Z.eq_dec (Stats.grandTotal (stats s2)) 0) as [Hz|Hnz].
    + apply progress_counts_zero. now rewrite <- Hz.
    + now rewrite (Hg2 Hnz).
Qed.

(** What keeps the counters level with the log and adds no progress line
    keeps the progress lines in step. *)
Lemma audited_progressing s s' events :
  out s' = out s ++ events ->
  balance s' = balance s ->
  (Stats.grandTotal (stats s) <> 0 ->
   Stats.grandTotal (stats s') = Stats.grandTotal (stats s)) ->
  progress_counts (Stats.grandTotal (stats s')) (Stats.delCount (stats s)) events ->
  progressing s s'.
Proof.
  intros Ho Hb Hg Hp. exists events. split; [exact Ho|]. split; [|now split].
  unfold balance in Hb. rewrite Ho, tally_app in Hb. injection Hb as H1 _ _ _. lia.
Qed.

Lemma search_event_not_progress req e : search_event req e -> isProgress e = false.
Proof. destruct e as [b [] | | | | | |]; simpl; try tauto; destruct b; tauto. Qed.

Lemma delete_event_not_progress req e : delete_event req e -> isProgress e = false.
Proof. destruct e as [b [] | | | | | |]; simpl; try tauto; destruct b; tauto. Qed.

Lemma fetchMessages_progressing net s : progressing s (state_of (fetchMessages net s)).
Proof.
  pose proof (fetchMessages_spec net s) as H. cbv zeta in H.
  destruct H as (_ & Hk & _ & (evs & Ho & Hall) & _).
  apply (audited_progressing _ _ evs Ho (fetchMessages_balance net s)).
  - intros _. apply Hk.
  - apply no_progress_counts, filter_none.
    eapply Forall_impl; [|exact Hall]. apply search_event_not_progress.
Qed.

(** After the progress line of a message, no other progress line in its
    turn. *)
Lemma processMessage_one_progress message net s :
  selected (this s) message = true ->
  exists rest,
    out (state_of (processMessage message net s)) = out (announced message s) ++ rest
    /\ filter isProgress rest = [].
Proof.
  intros Hsel. destruct (backupEntry message) as [entry|] eqn:Hentry.
  - rewrite (processMessage_selected _ _ _ _ Hsel Hentry).
    pose proof (deleteMessage_spec (Message.id message) net (attempted message entry s)) as H.
    cbv zeta in H. destruct H as (_ & _ & _ & (evs & Ho & Hall) & _).
    assert (Hn : filter isProgress evs = []).
    { apply filter_none. eapply Forall_impl; [|exact Hall]. apply delete_event_not_progress. }
    unfold attempted in Ho at 2. rewrite out_emit in Ho.
    destruct (deleteMessage _ _ _) as [[c s'] net'].
    autorewrite with state in Ho.
    destruct c as [[]|error|]; autorewrite with state.
    + exists (Backup entry :: evs ++ [Wait delayDelete]).
      split; [rewrite Ho, <- !app_assoc; reflexivity|].
      cbn [filter isProgress]. now rewrite filter_app, Hn.
    + exists (Backup entry :: evs ++ [Log true (ErrorDeleting (Message.id message) error)]).
      split; [rewrite Ho, <- !app_assoc; reflexivity|].
      cbn [filter isProgress]. now rewrite filter_app, Hn.
    + exists (Backup entry :: evs). split; [rewrite Ho, <- !app_assoc; reflexivity|].
      cbn [filter isProgress]. exact Hn.
  - rewrite (processMessage_unrecorded _ _ _ Hsel Hentry), state_of_triple.
    exists [Log true (ErrorDeleting (Message.id message) TypeError)].
    split; [now autorewrite with state|reflexivity].
Qed.

(** A turn of the inner loop, on a page reached with a total that is not 0. *)
Lemma processMessage_progressing message net s :
  Stats.grandTotal (stats s) <> 0 ->
  progressing s (state_of (processMessage message net s)).
Proof.
  intros Hg. destruct (selected (this s) message) eqn:Hsel.
  - destruct (processMessage_one_progress message net s Hsel) as (rest & Ho & Hn).
    pose proof (processMessage_spec message net s) as H. cbv zeta in H.
    destruct H as (_ & (_ & Hgt & _) & _).
    rewrite out_announced, <- app_assoc in Ho.
    apply (audited_progressing _ _ _ Ho (processMessage_balance message net s)).
    + intros _. exact Hgt.
    + rewrite Hgt. cbn [app progress_counts]. split; [now repeat split|].
      now apply no_progress_counts.
  - rewrite (processMessage_skip _ _ _ Hsel). autorewrite with state. apply progressing_refl.
Qed.

Lemma processPage_progressing messages net s :
  Stats.grandTotal (stats s) <> 0 ->
  progressing s (state_of (processPage messages net s)).
Proof.
  revert messages net s.
  apply (page_lifts (fun s s' => Stats.grandTotal (stats s) <> 0 -> progressing s s')).
  - intros s _. apply progressing_refl.
  - intros s1 s2 s3 H12 H23 Hg. pose proof (H12 Hg) as H.
    eapply progressing_trans; [exact H|]. apply H23.
    destruct H as (_ & _ & _ & Hk & _). now rewrite (Hk Hg).
  - intros message net s. apply processMessage_progressing.
Qed.

Lemma wait_progressing ms s : progressing s (wait ms s).
Proof.
  eapply audited_progressing; [apply out_wait| |reflexivity|exact I].
  eapply balance_kept; [apply out_wait|reflexivity..].
Qed.

Lemma processResult_progressing result net s :
  progressing s (state_of (processResult result net s)).
Proof.
  assert (Hl : progressing s (latch result s)).
  { destruct (latch_audited result s) as [Hb _].
    eapply audited_progressing; [apply out_latch|exact Hb| |].
    - intros Hg. now rewrite (latch_fixed result s Hg).
    - destruct_if; exact I. }
  destruct (Z.eq_dec (SearchResponse.total_results result) 0) as [Hz|Hnz].
  - rewrite (processResult_zero _ _ _ Hz). autorewrite with state. exact Hl.
  - rewrite (processResult_page _ _ _ Hnz).
    assert (Hg : Stats.grandTotal (stats (latch result s)) <> 0).
    { unfold latch. destruct (Stats.grandTotal (stats s) =? 0) eqn:E.
      - exact Hnz.
      - now apply Z.eqb_neq in E. }
    pose proof (processPage_progressing (SearchResponse.messages result) net _ Hg) as H.
    destruct (processPage _ _ _) as [[[[]|e|] s1] net1]; autorewrite with state in *.
    + eapply progressing_trans; [exact Hl|]. eapply progressing_trans; [exact H|].
      apply wait_progressing.
    + eapply progressing_trans; eassumption.
    + eapply progressing_trans; eassumption.
Qed.

Lemma loop_progressing net s : progressing s (state_of (loop net s)).
Proof.
  apply loop_lifts.
  - apply progressing_trans.
  - apply fetchMessages_progressing.
  - apply processResult_progressing.
Qed.

Lemma begun_progress env t0 :
  filter isProgress (out (begun env t0)) = []
  /\ tally isDeleted (out (begun env t0)) = 0
  /\ Stats.delCount (stats (begun env t0)) = 0.
Proof.
  unfold begun. destruct (DISCORD_BEFORE_MESSAGE_ID env) as [[|a b]|]; repeat split.
Qed.

Lemma run_progress env net t0 :
  let s := state_of (run env net t0) in
  progress_counts (Stats.grandTotal (stats s)) 0 (out s).
Proof.
  cbv zeta.
  destruct (run_closes env net t0) as (closing & Ho & _ & _ & Hn & Hs).
  destruct (begun_progress env t0) as (Hb & Ht & Hd).
  destruct (loop_progressing net (begun env t0)) as (events & Hoe & Hde & _ & Hp).
  rewrite Ho, Hs, Hoe, Hd in *.
  apply progress_counts_app. split; [|now apply no_progress_counts].
  apply progress_counts_app. split; [now apply no_progress_counts|].
  now rewrite Ht.
Qed.

(** X12. A progress line of a run counts one more than the deletions
    logged before it, and the total it shows is the total the run latched,
    which is not 0: the percentage on the line is a quotient by a number
    that is not 0. *)
Theorem progress_lines_count_deletions :
  forall (env : Env) (net : list Exchange) (t0 : Z) pre isError nth total messageId post,
    let s := state_of (run env net t0) in
    out s = pre ++ Log isError (Progress nth total messageId) :: post ->
    nth = tally isDeleted pre + 1
    /\ total = Stats.grandTotal (stats s)
    /\ total <> 0.
Proof.
  intros env net t0 pre isError nth total messageId post s Ho.
  pose proof (run_progress env net t0) as H. cbv zeta in H. fold s in H.
  rewrite Ho in H. apply progress_counts_app in H. destruct H as [_ H].
  cbn [progress_counts] in H. destruct H as [(H1 & H2 & H3) _].
  split; [lia|]. split; [exact H2|]. now rewrite H2.
Qed.

Lemma progress_lines_count_deletions_witness :
  let s := state_of (run sampleEnv twoDeleted 5000) in
  out s = firstn 17 (out s) ++ Log false (Progress 2 2 "m2") :: skipn 18 (out s)
  /\ 2 = tally isDeleted (firstn 17 (out s)) + 1
  /\ 2 = Stats.grandTotal (stats s)
  /\ 2 <> 0.
Proof.
  cbv zeta.
  assert (E : out (state_of (run sampleEnv twoDeleted 5000))
              = firstn 17 (out (state_of (run sampleEnv twoDeleted 5000)))
                ++ Log false (Progress 2 2 "m2")
                :: skipn 18 (out (state_of (run sampleEnv twoDeleted 5000))))
    by (vm_compute; reflexivity).
  split; [exact E|].
  exact (progress_lines_count_deletions sampleEnv twoDeleted 5000 _ _ _ _ _ _ E).
Defined.

(** ** A page with nothing to delete *)

Lemma forallb_same {A} (f g : A -> bool) l :
  (forall a, f a = g a) -> forallb f l = forallb g l.
Proof.
  intros H. induction l as [|a l IH]; [reflexivity|]. cbn [forallb]. now rewrite H, IH.
Qed.

Lemma noneSelected_settings d d' result :
  settings d = settings d' -> noneSelected d result = noneSelected d' result.
Proof.
  intros H. unfold noneSelected. apply forallb_same. intros messageGroup.
  apply forallb_same. intros message. now rewrite (selected_settings d d' message H).
Qed.

Lemma processPage_noneSelected messages net s :
  forallb (forallb (fun message => negb (selected (this s) message))) messages = true ->
  processPage messages net s = (Returned tt, s, net).
Proof.
  induction messages as [|messageGroup messages IH]; [reflexivity|].
  cbn [forallb]. intros H. apply andb_prop in H. destruct H as [Hg H].
  assert (E : processGroup messageGroup net s = (Returned tt, s, net)).
  { clear IH H. induction messageGroup as [|message messageGroup IH]; [reflexivity|].
    cbn [forallb] in Hg. apply andb_prop in Hg. destruct Hg as [Hm Hg].
    apply negb_true_iff in Hm. cbn [processGroup].
    rewrite (processMessage_skip _ _ _ Hm). now apply IH. }
  cbn [processPage]. rewrite E. now apply IH.
Qed.

Lemma stats_latch result s :
  Stats.delCount (stats (latch result s)) = Stats.delCount (stats s)
  /\ Stats.grandTotal (stats (latch result s))
     = (if Stats.grandTotal (stats s) =? 0
        then SearchResponse.total_results result
        else Stats.grandTotal (stats s)).
Proof. unfold latch. destruct_if; now split. Qed.

(** One turn on such a page: the loop goes round again, in the state the
    search, the latch and the wait have left. *)
Lemma loopBody_asks_again x result net s :
  returnsPage x result ->
  SearchResponse.total_results result <> 0 ->
  noneSelected (this s) result = true ->
  Stats.delCount (stats s)
  < (if Stats.grandTotal (stats s) =? 0
     then SearchResponse.total_results result
     else Stats.grandTotal (stats s)) ->
  loopBody (x :: net) s
  = (Returned Continue, wait delaySearch (latch result (replied searchRequest x s)), net).
Proof.
  intros (status & data & Hr & Hok & H202 & Hj) Hnz Hnone Hlt.
  unfold loopBody. rewrite fetchMessages_cons. cbv zeta. rewrite Hr.
  apply Z.eqb_neq in H202. rewrite H202.
  assert (H429 : (status =? 429) = false).
  { unfold ok in Hok. apply andb_prop in Hok. destruct Hok as [_ Hok].
    apply Z.leb_le in Hok. apply Z.eqb_neq. lia. }
  rewrite H429, Hok. cbn [negb]. rewrite Hj.
  rewrite (processResult_page _ _ _ Hnz).
  rewrite processPage_noneSelected.
  - destruct (stats_latch result (replied searchRequest x s)) as [Hd Hg].
    rewrite Hd, Hg, stats_replied.
    assert (E : (Stats.delCount (stats s)
                 >=? (if Stats.grandTotal (stats s) =? 0
                      then SearchResponse.total_results result
                      else Stats.grandTotal (stats s))) = false).
    { rewrite Z.geb_leb. apply Z.leb_gt. exact Hlt. }
    now rewrite E.
  - fold (noneSelected (this (latch result (replied searchRequest x s))) result).
    rewrite <- Hnone. apply noneSelected_settings.
    now rewrite settings_latch, settings_replied.
Qed.

Lemma gate_same_request req s : Forall (same_request req) (gate s).
Proof. unfold gate. destruct_if; now repeat constructor. Qed.

(** What such a turn leaves: the settings, the cursor and [delCount] as
    they were, the total latched, and one request, the search. *)
Lemma turn_asks_once x result s :
  let s1 := wait delaySearch (latch result (replied searchRequest x s)) in
  settings (this s1) = settings (this s)
  /\ cursor s1 = cursor s
  /\ Stats.delCount (stats s1) = Stats.delCount (stats s)
  /\ Stats.grandTotal (stats s1)
     = (if Stats.grandTotal (stats s) =? 0
        then SearchResponse.total_results result
        else Stats.grandTotal (stats s))
  /\ exists events,
      out s1 = out s ++ events
      /\ Forall (same_request (searchRequest (this s))) events
      /\ List.length (filter isFetch events) = 1%nat.
Proof.
  cbv zeta. destruct (stats_latch result (replied searchRequest x s)) as [Hd Hg].
  rewrite stats_replied in Hd, Hg.
  split; [now rewrite this_wait, settings_latch, settings_replied|].
  split; [transitivity (cursor (latch result (replied searchRequest x s)));
          [reflexivity|rewrite cursor_latch; apply cursor_replied]|].
  split; [now rewrite stats_wait|]. split; [now rewrite stats_wait|].
  eexists. split; [|split].
  - rewrite out_wait, out_latch, (out_replied _ _ _ enforceRateLimit_searchRequest).
    rewrite <- !app_assoc. reflexivity.
  - apply Forall_app. split; [apply gate_same_request|].
    destruct_if; now repeat constructor.
  - rewrite filter_app, gate_no_fetch. destruct_if; reflexivity.
Qed.

(** However many such replies there are, the loop has read them all and
    awaits one more. *)
Lemma loop_asks_again x result :
  returnsPage x result ->
  SearchResponse.total_results result <> 0 ->
  forall n s,
    noneSelected (this s) result = true ->
    Stats.delCount (stats s)
    < (if Stats.grandTotal (stats s) =? 0
       then SearchResponse.total_results result
       else Stats.grandTotal (stats s)) ->
    exists s' events,
      loop (repeat x n) s = (Awaiting, s', [])
      /\ out s' = out s ++ events
      /\ Forall (same_request (searchRequest (this s))) events
      /\ List.length (filter isFetch events) = S n
      /\ Stats.delCount (stats s') = Stats.delCount (stats s).
Proof.
  intros Hx Hnz. induction n as [|n IH]; intros s Hnone Hlt.
  - cbn [repeat]. rewrite loop_unfold. unfold loopBody. rewrite fetchMessages_nil.
    eexists. eexists. split; [reflexivity|]. split; [|split; [|split]].
    + autorewrite with state. rewrite <- app_assoc. reflexivity.
    + apply Forall_app. split; [apply gate_same_request|]. now repeat constructor.
    + rewrite filter_app, gate_no_fetch. reflexivity.
    + now autorewrite with state.
  - cbn [repeat]. rewrite loop_unfold.
    rewrite (loopBody_asks_again x result _ s Hx Hnz Hnone Hlt).
    destruct (turn_asks_once x result s) as (Hset & Hcur & Hd & Hg & events1 & Ho1 & Hf1 & Hn1).
    cbv zeta in Hset, Hcur, Hd, Hg, Ho1.
    set (s1 := wait delaySearch (latch result (replied searchRequest x s))) in *.
    assert (Hgnz : Stats.grandTotal (stats s1) <> 0).
    { rewrite Hg. destruct (Stats.grandTotal (stats s) =? 0) eqn:E; [exact Hnz|].
      now apply Z.eqb_neq in E. }
    destruct (IH s1) as (s' & events & Hl & Ho & Hf & Hn & Hs).
    + rewrite <- Hnone. now apply noneSelected_settings.
    + apply Z.eqb_neq in Hgnz. rewrite Hgnz, Hd, Hg. exact Hlt.
    + exists s', (events1 ++ events). split; [exact Hl|]. split; [|split; [|split]].
      * now rewrite Ho, Ho1, app_assoc.
      * apply Forall_app. split; [exact Hf1|].
        rewrite (searchRequest_settings (this s) (this s1)); [exact Hf|congruence|].
        symmetry. exact Hcur.
      * rewrite filter_app, length_app, Hn1, Hn. reflexivity.
      * congruence.
Qed.

Lemma no_fetch_same_request req events :
  filter isFetch events = [] -> Forall (same_request req) events.
Proof.
  induction events as [|e events IH]; [constructor|].
  destruct e; simpl; try (intros H; constructor; [exact I|now apply IH]). discriminate.
Qed.

(** X13. A search may find messages, a total above 0, on a page of which
    the loop selects none: system messages, messages of others, messages
    the search did not hit.  Such a turn leaves the cursor and the counters
    as they were, so the next turn sends the same search.  Against a server
    that goes on answering so the run does not end: however many of these
    replies it has read, it has read them all, has deleted nothing, has sent
    the same search once more and awaits the reply. *)
Theorem page_without_selection_is_asked_again :
  forall (env : Env) (x : Exchange) (result : SearchResponse.t) (n : nat) (t0 : Z),
    returnsPage x result ->
    0 < SearchResponse.total_results result ->
    noneSelected (this (begun env t0)) result = true ->
    let r := run env (repeat x n) t0 in
    completion_of r = Awaiting
    /\ unread r = []
    /\ Forall (same_request (searchRequest (this (begun env t0)))) (out (state_of r))
    /\ List.length (filter isFetch (out (state_of r))) = S n
    /\ Stats.delCount (stats (state_of r)) = 0.
Proof.
  intros env x result n t0 Hx Hpos Hnone. cbv zeta. rewrite run_begun.
  destruct (begun_fresh env t0) as [_ Hg].
  destruct (begun_progress env t0) as (_ & _ & Hd).
  destruct (begun_audit env t0) as (_ & _ & _ & _ & Hf & _).
  destruct (loop_asks_again x result Hx (Z.neq_sym _ _ (Z.lt_neq _ _ Hpos)) n (begun env t0) Hnone)
    as (s' & events & Hl & Ho & Hall & Hn & Hdel).
  { rewrite Hg, Hd. exact Hpos. }
  rewrite Hl. autorewrite with state.
  split; [reflexivity|]. split; [reflexivity|]. rewrite Ho. split; [|split].
  - apply Forall_app. split; [now apply no_fetch_same_request|exact Hall].
  - rewrite filter_app, Hf. exact Hn.
  - congruence.
Qed.

Lemma page_without_selection_is_asked_again_witness :
  let r := run sampleEnv (repeat nothingToDelete 3) 5000 in
  completion_of r = Awaiting
  /\ unread r = []
  /\ Forall (same_request (searchRequest (this (begun sampleEnv 5000)))) (out (state_of r))
  /\ List.length (filter isFetch (out (state_of r))) = 4%nat
  /\ Stats.delCount (stats (state_of r)) = 0.
Proof.
  apply (page_without_selection_is_asked_again sampleEnv nothingToDelete
           (SearchResponse.mk 2 [[pinned "m7"; Message.mk "m8" someone 0 false None None None]])
           3 5000).
  - exists 200, (page 2 [[pinned "m7"; Message.mk "m8" someone 0 false None None None]]).
    split; [reflexivity|]. split; [reflexivity|]. split; [lia|reflexivity].
  - simpl. lia.
  - vm_compute. reflexivity.
Defined.

(** ** Attempts and their outcome *)

(** The lifting of [page_lifts], [result_lifts] and [loop_lifts] for a
    relation that holds where a call ended and a weaker one where it awaits
    a reply. *)
Section Reaching.
Variables R Q : State -> State -> Prop.
Hypothesis R_refl : forall s, R s s.
Hypothesis R_trans : forall s1 s2 s3, R s1 s2 -> R s2 s3 -> R s1 s3.
Hypothesis RQ_trans : forall s1 s2 s3, R s1 s2 -> Q s2 s3 -> Q s1 s3.

Lemma reaches_then {A B} s (r : Async A) (k : list Exchange -> State -> Async B) :
  reaches R Q s r ->
  (forall net s, reaches R Q s (k net s)) ->
  forall a s1 net1, r = (Returned a, s1, net1) -> reaches R Q s (k net1 s1).
Proof.
  intros Hr Hk a s1 net1 ->. unfold reaches in *. autorewrite with state in Hr.
  specialize (Hk net1 s1).
  destruct (completion_of (k net1 s1)); [eapply R_trans|eapply R_trans|eapply RQ_trans]; eassumption.
Qed.

Lemma page_reaches :
  (forall message net s, reaches R Q s (processMessage message net s)) ->
  forall messages net s, reaches R Q s (processPage messages net s).
Proof.
  intros Hm.
  assert (Hg : forall messageGroup net s, reaches R Q s (processGroup messageGroup net s)).
  { induction messageGroup as [|message messageGroup IH]; intros net s; [apply R_refl|].
    cbn [processGroup]. pose proof (Hm message net s) as H.
    destruct (processMessage message net s) as [[[[]|e|] s1] net1] eqn:E; try exact H.
    eapply reaches_then; [exact H|exact IH|reflexivity]. }
  induction messages as [|messageGroup messages IH]; intros net s; [apply R_refl|].
  cbn [processPage]. pose proof (Hg messageGroup net s) as H.
  destruct (processGroup messageGroup net s) as [[[[]|e|] s1] net1] eqn:E; try exact H.
  eapply reaches_then; [exact H|exact IH|reflexivity].
Qed.

Lemma result_reaches :
  (forall result s, R s (latch result s)) ->
  (forall message net s, reaches R Q s (processMessage message net s)) ->
  (forall s, R s (wait delaySearch s)) ->
  forall result net s, reaches R Q s (processResult result net s).
Proof.
  intros Hl Hm Hw result net s.
  destruct (Z.eq_dec (SearchResponse.total_results result) 0) as [Hz|Hnz].
  - rewrite (processResult_zero _ _ _ Hz). apply Hl.
  - rewrite (processResult_page _ _ _ Hnz).
    pose proof (page_reaches Hm (SearchResponse.messages result) net (latch result s)) as H.
    destruct (processPage _ _ _) as [[[[]|e|] s1] net1]; unfold reaches in *;
      autorewrite with state in *.
    + eapply R_trans; [apply Hl|]. eapply R_trans; [exact H|apply Hw].
    + eapply R_trans; [apply Hl|exact H].
    + eapply RQ_trans; [apply Hl|exact H].
Qed.

Lemma loop_reaches :
  (forall net s, reaches R Q s (fetchMessages net s)) ->
  (forall result net s, reaches R Q s (processResult result net s)) ->
  forall net s, reaches R Q s (loop net s).
Proof.
  intros Hf Hr.
  assert (Hb : forall net s, reaches R Q s (loopBody net s)).
  { intros net s. pose proof (Hf net s) as H. unfold loopBody.
    destruct (fetchMessages net s) as [[[result|e|] s1] net1] eqn:E; try exact H.
    eapply reaches_then; [exact H|apply Hr|reflexivity]. }
  apply (loop_induction (fun net s r => reaches R Q s r)).
  - intros net0 s0 s1 net1 E. pose proof (Hb net0 s0) as H. now rewrite E in H.
  - intros net0 s0 e s1 net1 E. pose proof (Hb net0 s0) as H. now rewrite E in H.
  - intros net0 s0 s1 net1 E. pose proof (Hb net0 s0) as H. now rewrite E in H.
  - intros net0 s0 s1 net1 r E IH. pose proof (Hb net0 s0) as H. rewrite E in H.
    unfold reaches in *. autorewrite with state in H.
    destruct (completion_of r); [eapply R_trans|eapply R_trans|eapply RQ_trans]; eassumption.
Qed.
End Reaching.

Lemma unfinished_app l1 l2 : unfinished (l1 ++ l2) = unfinished l1 + unfinished l2.
Proof. unfold unfinished. rewrite !tally_app. lia. Qed.

Lemma tally_none kind events : Forall (fun e => kind e = false) events -> tally kind events = 0.
Proof. intros H. unfold tally. now rewrite (filter_none kind events H). Qed.

Lemma accounted_refl s : accounted s s.
Proof. exists []. now rewrite app_nil_r. Qed.

Lemma accounted_trans s1 s2 s3 : accounted s1 s2 -> accounted s2 s3 -> accounted s1 s3.
Proof.
  intros (e1 & Ho1 & H1) (e2 & Ho2 & H2). exists (e1 ++ e2).
  split; [now rewrite Ho2, Ho1, app_assoc|]. rewrite unfinished_app. lia.
Qed.

Lemma accounted_then_but_one s1 s2 s3 :
  accounted s1 s2 -> accounted_but_one s2 s3 -> accounted_but_one s1 s3.
Proof.
  intros (e1 & Ho1 & H1) (e2 & Ho2 & H2). exists (e1 ++ e2).
  split; [now rewrite Ho2, Ho1, app_assoc|]. rewrite unfinished_app. lia.
Qed.

Lemma search_event_unfinished req events :
  Forall (search_event req) events -> unfinished events = 0.
Proof.
  intros H. unfold unfinished. rewrite !tally_none; [reflexivity|..];
    (eapply Forall_impl; [|exact H]); intros e;
    destruct e as [b [] | | | | | |]; simpl; try tauto; destruct b; tauto.
Qed.

Lemma fetchMessages_accounted net s :
  reaches accounted accounted_but_one s (fetchMessages net s).
Proof.
  pose proof (fetchMessages_spec net s) as H. cbv zeta in H.
  destruct H as (_ & _ & _ & (evs & Ho & Hall) & _).
  pose proof (search_event_unfinished _ _ Hall) as Hu.
  unfold reaches. destruct (completion_of _); exists evs; auto.
Qed.

(** The events of [deleteMessage] end the attempt it is called for if it
    returns, and no attempt otherwise. *)
Lemma deleteMessage_unfinished messageId net s :
  let r := deleteMessage messageId net s in
  exists evs,
    out (state_of r) = out s ++ evs
    /\ unfinished evs = match completion_of r with
                        | Returned _ => -1
                        | _ => 0
                        end.
Proof.
  cbv zeta.
  pose proof (deleteMessage_spec messageId net s) as H. cbv zeta in H.
  destruct H as (_ & (Hd & _) & _ & (evs & Ho & Hall) & _).
  pose proof (deleteMessage_balance messageId net s) as Hb. cbv zeta in Hb.
  exists evs. split; [exact Ho|].
  assert (Hp : tally isProgress evs = 0).
  { apply tally_none. eapply Forall_impl; [|exact Hall]. apply delete_event_not_progress. }
  assert (He : tally isErrorDeleting evs = 0).
  { apply tally_none. eapply Forall_impl; [|exact Hall]. intros e.
    destruct e as [b [] | | | | | |]; simpl; try tauto; destruct b; tauto. }
  unfold unfinished. rewrite Hp, He.
  unfold balance in Hb. rewrite Ho, tally_app, Hd in Hb.
  destruct (completion_of _); injection Hb as H1 _ _ _; lia.
Qed.

Lemma processMessage_accounted message net s :
  reaches accounted accounted_but_one s (processMessage message net s).
Proof.
  destruct (selected (this s) message) eqn:Hsel;
    [destruct (backupEntry message) as [entry|] eqn:Hentry|].
  - rewrite (processMessage_selected _ _ _ _ Hsel Hentry).
    pose proof (deleteMessage_unfinished (Message.id message) net (attempted message entry s)) as H.
    cbv zeta in H. destruct H as (evs & Ho & Hu).
    rewrite out_attempted, <- app_assoc in Ho.
    destruct (deleteMessage _ _ _) as [[c s'] net'].
    autorewrite with state in Ho, Hu. unfold reaches.
    destruct c as [[]|error|]; autorewrite with state.
    + eexists. split; [autorewrite with state; rewrite Ho, <- !app_assoc; reflexivity|].
      rewrite !unfinished_app, Hu. reflexivity.
    + eexists. split; [autorewrite with state; rewrite Ho, <- !app_assoc; reflexivity|].
      rewrite !unfinished_app, Hu. reflexivity.
    + eexists. split; [exact Ho|]. right. rewrite unfinished_app, Hu. reflexivity.
  - rewrite (processMessage_unrecorded _ _ _ Hsel Hentry).
    eexists. split; [apply out_unrecorded|reflexivity].
  - rewrite (processMessage_skip _ _ _ Hsel). apply accounted_refl.
Qed.

Lemma loop_accounted net s : reaches accounted accounted_but_one s (loop net s).
Proof.
  apply loop_reaches.
  - apply accounted_trans.
  - apply accounted_then_but_one.
  - apply fetchMessages_accounted.
  - apply result_reaches.
    + apply accounted_refl.
    + apply accounted_trans.
    + apply accounted_then_but_one.
    + intros result s0. exists (if Stats.grandTotal (stats s0) =? 0
                                then [Log false (TotalFound (SearchResponse.total_results result))]
                                else []).
      split; [apply out_latch|]. destruct_if; reflexivity.
    + apply processMessage_accounted.
    + intros s0. exists [Wait delaySearch]. split; [apply out_wait|reflexivity].
Qed.

Lemma begun_unfinished env t0 : unfinished (out (begun env t0)) = 0.
Proof. unfold begun. destruct (DISCORD_BEFORE_MESSAGE_ID env) as [[|a b]|]; reflexivity. Qed.

Lemma run_unfinished env net t0 :
  let r := run env net t0 in
  match completion_of r with
  | Awaiting => unfinished (out (state_of r)) = 0 \/ unfinished (out (state_of r)) = 1
  | _ => unfinished (out (state_of r)) = 0
  end.
Proof.
  cbv zeta. rewrite run_begun.
  pose proof (loop_accounted net (begun env t0)) as H. unfold reaches in H.
  pose proof (begun_unfinished env t0) as Hb.
  destruct (loop net (begun env t0)) as [[[[]|e|] s1] net1]; autorewrite with state in *.
  - destruct H as (events & Ho & Hu).
    rewrite out_printSummary, Ho, !unfinished_app, Hb, Hu. reflexivity.
  - destruct H as (events & Ho & Hu).
    rewrite out_printSummary, out_writeToLog, Ho, !unfinished_app, Hb, Hu. reflexivity.
  - destruct H as (events & Ho & Hu). rewrite Ho, unfinished_app, Hb. lia.
Qed.

(** X14. Every attempt of a run that has ended, by returning or by
    throwing, was counted once, as a deletion or as a failure: there are as
    many progress lines as [delCount] and [failCount] together.  While a
    reply is awaited there may be one attempt more, the one under way.
    Each attempt has its backup record, but those that ended before it was
    written, the record being one that cannot be built; these are among the
    failures. *)
Theorem attempts_end_deleted_or_failed :
  forall (env : Env) (net : list Exchange) (t0 : Z),
    let r := run env net t0 in
    let s := state_of r in
    let attempts := tally isProgress (out s) in
    tally isBackup (out s) + tally isUnrecorded (out s) = attempts
    /\ tally isUnrecorded (out s) <= Stats.failCount (stats s)
    /\ match completion_of r with
       | Awaiting =>
           attempts = Stats.delCount (stats s) + Stats.failCount (stats s)
           \/ attempts = Stats.delCount (stats s) + Stats.failCount (stats s) + 1
       | _ => attempts = Stats.delCount (stats s) + Stats.failCount (stats s)
       end.
Proof.
  intros env net t0. cbv zeta.
  destruct (run_orderly env net t0) as [_ Hbk].
  destruct (run_audit env net t0) as [Hb _]. cbv zeta in Hb.
  destruct (balance_zero _ Hb) as (Hd & Hf & _).
  pose proof (run_unfinished env net t0) as Hu. cbv zeta in Hu. unfold unfinished in Hu.
  split; [unfold tally; lia|]. split.
  - rewrite Hf. unfold tally. apply inj_le.
    set (events := out (state_of (run env net t0))). clearbody events.
    induction events as [|e events IH]; [apply Nat.le_refl|].
    cbn [filter]. destruct (isUnrecorded e) eqn:E.
    + assert (E' : isErrorDeleting e = true).
      { destruct e as [b []| | | | | |]; try discriminate. reflexivity. }
      rewrite E'. cbn [List.length]. lia.
    + destruct (isErrorDeleting e); cbn [List.length]; lia.
  - rewrite Hd, Hf. destruct (completion_of (run env net t0)); lia.
Qed.
